(** * KinetiQ media pipeline: resampler, playback scheduler, session start,
      timeline monitor, annotation placer and visualization batch.

    A shallow embedding of the TypeScript sources

      - src/components/LiveCoach.tsx   (audioResample, decodeAudioData,
                                        encode, decode, createPcmData,
                                        onmessage, onaudioprocess,
                                        enableCamera, handleStartSession,
                                        onopen)
      - src/components/CameraRecorder.tsx (startRecording, stopRecording,
                                        the timer and the recorder callbacks)
      - src/unnamed/part_004           (ResultPage: monitorFrames, smart-coach
                                        toggle, dwell timer, jumpToTime)
      - src/unnamed/part_002           (calculateVideoContentRect)
      - src/services/geminiService.ts  (drawAnnotationsOnCanvas,
                                        getAnnotationCoordinates,
                                        generateVisualCorrection)
      - src/App.tsx                    (handleAnalyze)

    JavaScript numbers are modelled by rationals ([Q]) where the modelled
    code compares them, adds durations, scales by the constants of the
    source and rounds to an integer; the value [NaN], which the source can
    produce by reading a typed array out of range, is kept apart as [None]
    in [JS.number].  Where the rounding of the binary64 operations decides
    what the code does (the index arithmetic of the resampler in
    [Resampler64], the subtraction of [jumpToTime]) the operations are
    those of the primitive floats ([Double]); the module [Resampler] is the
    same resampler in exact arithmetic. *)

From Stdlib Require Import ZArith QArith Qround Qminmax Qabs Lqa Lia.
From Stdlib Require Import List Bool String Ascii Sorted.
From Stdlib Require Import Uint63 PrimFloat FloatOps SpecFloat.
Import ListNotations.

Local Open Scope Q_scope.

(* ===================================================================== *)
(** * Part I: definitions                                                *)
(* ===================================================================== *)

(** ** JavaScript number helpers *)

Module JS.

(** A number read from a place that may hold no finite value: [None] is
    [NaN] (which is also what [undefined] becomes under [Math.min]). *)
Definition number := option Q.

Definition ltb (x y : Q) : bool := negb (Qle_bool y x).
Definition gtb (x y : Q) : bool := ltb y x.
Definition leb (x y : Q) : bool := Qle_bool x y.
Definition geb (x y : Q) : bool := Qle_bool y x.

(** [truncate] of ECMAScript: the integer part, rounding toward zero. *)
Definition truncate (x : Q) : Z := Z.quot (Qnum x) (Zpos (Qden x)).

(** [ToInt16] of ECMAScript, the conversion done by a store into an
    [Int16Array]: truncate, reduce modulo 2^16, re-centre. *)
Definition ToInt16 (x : Q) : Z :=
  let int := truncate x in
  let int16bit := (int mod 65536)%Z in
  if (32768 <=? int16bit)%Z then (int16bit - 65536)%Z else int16bit.

(** A store of a possibly-NaN number into an [Int16Array]: NaN gives 0. *)
Definition storeInt16 (v : number) : Z :=
  match v with
  | Some x => ToInt16 x
  | None => 0%Z
  end.

(** [Math.min(a, v)] and [Math.max(a, v)] with a finite first argument and
    a possibly-NaN second one. *)
Definition Math_min (a : Q) (v : number) : number :=
  match v with Some x => Some (Qmin a x) | None => None end.
Definition Math_max (a : Q) (v : number) : number :=
  match v with Some x => Some (Qmax a x) | None => None end.

Definition mul (v : number) (k : Q) : number :=
  match v with Some x => Some (x * k) | None => None end.

(** [Math.round]: nearest integer, halves toward +infinity. *)
Definition Math_round (x : Q) : Z := Qfloor (x + (1 # 2)).

(** Reading [buffer[i]] of a typed array: [undefined] out of range. *)
Definition typedGet (buffer : list Q) (i : Z) : number :=
  if (i <? 0)%Z then None else nth_error buffer (Z.to_nat i).

(** [new Int16Array(len)]: a RangeError ([None]) for a negative length. *)
Definition newInt16Array (len : Z) : option nat :=
  if (len <? 0)%Z then None else Some (Z.to_nat len).

End JS.

(** ** Binary64 numbers *)

Module Double.

(** The double of an integer: exact for magnitudes below 2^53, which
    covers every array length and loop index. *)
Definition ofZ (z : Z) : float :=
  let a := PrimFloat.of_uint63 (Uint63.of_Z (Z.abs z)) in
  if (z <? 0)%Z then PrimFloat.opp a else a.

Definition ofNat (n : nat) : float := ofZ (Z.of_nat n).

(** The double nearest to a rational with numerator and denominator below
    2^53: the rational itself when it is a double of that size. *)
Definition ofQ (q : Q) : float :=
  PrimFloat.div (ofZ (Qnum q)) (ofZ (Zpos (Qden q))).

(** The value of a finite double; [None] for [NaN] and the infinities. *)
Definition toQ (x : float) : option Q :=
  match Prim2SF x with
  | S754_zero _ => Some 0
  | S754_finite s m e =>
      let n := if s then Z.neg m else Z.pos m in
      Some (if (0 <=? e)%Z then inject_Z (n * 2 ^ e)
            else Qmake n (Z.to_pos (2 ^ (- e))))
  | _ => None
  end.

(** The integer [Math.floor(x)] and [Math.ceil(x)] of a finite double;
    [None] for [NaN] and the infinities, which they return unchanged. *)
Definition floor (x : float) : option Z :=
  match Prim2SF x with
  | S754_zero _ => Some 0%Z
  | S754_finite s m e =>
      let n := if s then Z.neg m else Z.pos m in
      Some (if (0 <=? e)%Z then n * 2 ^ e else n / 2 ^ (- e))%Z
  | _ => None
  end.

Definition ceil (x : float) : option Z :=
  match floor (PrimFloat.opp x) with
  | Some z => Some (- z)%Z
  | None => None
  end.

Definition isNaN (x : float) : bool :=
  match Prim2SF x with
  | S754_nan => true
  | _ => false
  end.

(** [x - y] on the doubles nearest to [x] and [y], as a rational.  The
    difference of two finite doubles of ordinary size is finite; the exact
    difference stands in for the other cases. *)
Definition sub (x y : Q) : Q :=
  match toQ (PrimFloat.sub (ofQ x) (ofQ y)) with
  | Some q => q
  | None => x - y
  end.

End Double.

(** ** Resampler: [audioResample] of LiveCoach.tsx *)

Module Resampler.

Definition targetRate : Q := 16000.

(** The quantisation of one sample on the equal-rate path:
    [res[i] = buffer[i] * 32768]. *)
Definition quantize (x : Q) : Z := JS.ToInt16 (x * 32768).

(** [const originalIndex = Math.floor(i * ratio)]. *)
Definition originalIndex (ratio : Q) (i : nat) : Z :=
  Qfloor (inject_Z (Z.of_nat i) * ratio).

(** The body of the decimation loop for output index [i]. *)
Definition decimate (buffer : list Q) (ratio : Q) (i : nat) : Z :=
  let val := JS.Math_max (-1) (JS.Math_min 1
               (JS.typedGet buffer (originalIndex ratio i))) in
  JS.storeInt16 (JS.mul val 32768).

(** [Math.ceil(buffer.length / ratio)] followed by [new Int16Array]:
    a division by zero gives Infinity (RangeError) or, for an empty
    buffer, NaN (length 0). *)
Definition newLength (len : nat) (ratio : Q) : option nat :=
  if Qeq_bool ratio 0 then
    match len with O => Some O | S _ => None end
  else JS.newInt16Array (Qceiling (inject_Z (Z.of_nat len) / ratio)).

Definition audioResample (buffer : list Q) (sampleRate : Q)
  : option (list Z) :=
  if Qeq_bool sampleRate targetRate then
    Some (map quantize buffer)
  else
    let ratio := sampleRate / targetRate in
    match newLength (List.length buffer) ratio with
    | None => None
    | Some n => Some (map (decimate buffer ratio) (seq 0 n))
    end.

(** The second revision of the component in the same file reads
    [buffer[originalIndex] || 0]: [undefined], [NaN] and 0 all give 0. *)
Definition orZero (v : JS.number) : JS.number :=
  match v with
  | Some x => if Qeq_bool x 0 then Some 0 else Some x
  | None => Some 0
  end.

Definition decimate' (buffer : list Q) (ratio : Q) (i : nat) : Z :=
  let val := JS.Math_max (-1) (JS.Math_min 1
               (orZero (JS.typedGet buffer (originalIndex ratio i)))) in
  JS.storeInt16 (JS.mul val 32768).

Definition audioResample' (buffer : list Q) (sampleRate : Q)
  : option (list Z) :=
  if Qeq_bool sampleRate targetRate then
    Some (map quantize buffer)
  else
    let ratio := sampleRate / targetRate in
    match newLength (List.length buffer) ratio with
    | None => None
    | Some n => Some (map (decimate' buffer ratio) (seq 0 n))
    end.

(** The quantisation as the specification words it:
    [round(sample * 32767)] clamped to [-32768, 32767]. *)
Definition spec_quantize (x : Q) : Z :=
  Z.max (-32768) (Z.min 32767 (JS.Math_round (x * 32767))).



End Resampler.

(** ** The resampler with its index arithmetic in binary64

    [ratio], [buffer.length / ratio] and [i * ratio] are computed on
    doubles as the engine does; the samples stay rationals (the products
    [sample * 32768] and the clamp to [[-1, 1]] are exact on the doubles of
    a [Float32Array]). *)

Module Resampler64.

Definition targetRate : float := 16000%float.

(** [const originalIndex = Math.floor(i * ratio)]: [None] when the
    product is not finite. *)
Definition originalIndex (ratio : float) (i : nat) : option Z :=
  Double.floor (PrimFloat.mul (Double.ofNat i) ratio).

(** [buffer[originalIndex]]: [undefined] when the index is not one of
    [0 .. buffer.length - 1]. *)
Definition read (buffer : list Q) (index : option Z) : JS.number :=
  match index with
  | Some k => JS.typedGet buffer k
  | None => None
  end.


Definition decimate (buffer : list Q) (ratio : float) (i : nat) : Z :=
  let val := JS.Math_max (-1) (JS.Math_min 1
               (read buffer (originalIndex ratio i))) in
  JS.storeInt16 (JS.mul val 32768).

(** The second revision: [buffer[originalIndex] || 0]. *)
Definition decimate' (buffer : list Q) (ratio : float) (i : nat) : Z :=
  let val := JS.Math_max (-1) (JS.Math_min 1
               (Resampler.orZero (read buffer (originalIndex ratio i)))) in
  JS.storeInt16 (JS.mul val 32768).

(** [new Int16Array(Math.ceil(buffer.length / ratio))]: [NaN] gives the
    length 0; an infinite, negative or larger than 2^53 - 1 length is a
    RangeError ([None]). *)
Definition newLength (len : nat) (ratio : float) : option nat :=
  let x := PrimFloat.div (Double.ofNat len) ratio in
  if Double.isNaN x then Some O
  else match Double.ceil x with
       | Some n => if ((n <? 0) || (2 ^ 53 - 1 <? n))%Z then None
                   else Some (Z.to_nat n)
       | None => None
       end.

Definition audioResample (buffer : list Q) (sampleRate : float)
  : option (list Z) :=
  if PrimFloat.eqb sampleRate targetRate then
    Some (map Resampler.quantize buffer)
  else
    let ratio := PrimFloat.div sampleRate targetRate in
    match newLength (List.length buffer) ratio with
    | None => None
    | Some n => Some (map (decimate buffer ratio) (seq 0 n))
    end.

Definition audioResample' (buffer : list Q) (sampleRate : float)
  : option (list Z) :=
  if PrimFloat.eqb sampleRate targetRate then
    Some (map Resampler.quantize buffer)
  else
    let ratio := PrimFloat.div sampleRate targetRate in
    match newLength (List.length buffer) ratio with
    | None => None
    | Some n => Some (map (decimate' buffer ratio) (seq 0 n))
    end.




End Resampler64.

(** ** Playback scheduler: the audio part of [onmessage] in LiveCoach.tsx *)

Module Playback.

(** An [AudioBufferSourceNode] after [source.start(when)]: its identity,
    the time it was scheduled at and the duration of its buffer. *)
Record Source := mkSource {
  src_id : nat;
  src_when : Q;
  src_duration : Q
}.

(** The refs and state the handler works on.  [audioSources] is the
    [Set] of sources that have not ended, in insertion order; [started]
    and [stopped] log the calls [source.start] and [source.stop] made on
    the audio graph. *)
Record Scheduler := mkScheduler {
  nextStartTime : Q;
  audioSources : list Source;
  isAiTalking : bool;
  started : list Source;
  stopped : list Source
}.

Definition initial : Scheduler :=
  mkScheduler 0 [] false [] [].

(** What the handler reads of a [LiveServerMessage]: the duration of the
    decoded audio part, if any, and the [interrupted] flag. *)
Record Message := mkMessage {
  audio : option Q;
  interrupted : bool
}.

(** [if (audioBase64 && outputAudioCtx.current) { ... }] with
    [now = ctx.currentTime]. *)
Definition scheduleBuffer (now duration : Q) (s : Scheduler) : Scheduler :=
  let next := if JS.ltb (nextStartTime s) now then now
              else nextStartTime s in
  let source := mkSource (List.length (started s)) next duration in
  mkScheduler (next + duration)
              (audioSources s ++ [source])
              true
              (started s ++ [source])
              (stopped s).

(** [if (message.serverContent?.interrupted) { ... }]. *)
Definition handleInterrupted (s : Scheduler) : Scheduler :=
  mkScheduler 0
              []
              false
              (started s)
              (stopped s ++ audioSources s).

Definition onmessage (now : Q) (m : Message) (s : Scheduler) : Scheduler :=
  let s1 := match audio m with
            | Some duration => scheduleBuffer now duration s
            | None => s
            end in
  if interrupted m then handleInterrupted s1 else s1.

(** [source.onended]: the source leaves the set; the indicator is
    switched off when the set becomes empty. *)
Definition onended (id : nat) (s : Scheduler) : Scheduler :=
  let rest := filter (fun x => negb (Nat.eqb (src_id x) id))
                     (audioSources s) in
  mkScheduler (nextStartTime s)
              rest
              (match rest with [] => false | _ => isAiTalking s end)
              (started s)
              (stopped s).

Definition audioMsg (d : Q) : Message := mkMessage (Some d) false.
Definition interruptMsg : Message := mkMessage None true.

(** Audio messages arriving one after the other, each with the clock
    reading taken when it is handled. *)
Fixpoint submitAll (subs : list (Q * Q)) (s : Scheduler) : Scheduler :=
  match subs with
  | [] => s
  | (now, duration) :: rest =>
      submitAll rest (onmessage now (audioMsg duration) s)
  end.

Definition src_end (x : Source) : Q := src_when x + src_duration x.

(** Consecutive sources never overlap: each starts no earlier than the
    previous one ends. *)
Fixpoint backToBack (l : list Source) : Prop :=
  match l with
  | [] => True
  | x :: rest =>
      match rest with
      | [] => True
      | y :: _ => src_end x <= src_when y
      end /\ backToBack rest
  end.

(** The scenario of the specification: three buffers of 1.0, 0.5 and 2.0
    seconds handled at clock time 0 on a fresh scheduler. *)
Definition threeBuffers : Scheduler :=
  submitAll [(0, 1); (0, 1 # 2); (0, 2)] initial.

End Playback.

(** ** Live session start: [enableCamera], [handleStartSession] and the
       [onopen] callback of LiveCoach.tsx *)

Module Session.

Local Open Scope string_scope.

(** A [MediaStream], as far as the code inspects it. *)
Record MediaStream := mkStream {
  audioTracks : nat;
  videoTracks : nat
}.

(** The outcome of [navigator.mediaDevices.getUserMedia]: a stream, or a
    rejection carrying [err.name]. *)
Inductive GumResult :=
| Granted (stream : MediaStream)
| Rejected (name : string).

(** The browser: whether [getUserMedia] exists, and what a request
    answers, by the value of its [audio] constraint. *)
Record Browser := mkBrowser {
  hasGetUserMedia : bool;
  getUserMedia : bool -> GumResult
}.

(** The [useState] variables the start-up path reads or writes. *)
Record State := mkState {
  isCameraEnabled : bool;
  hasStarted : bool;
  isActive : bool;
  isConnecting : bool;
  error : option string;
  permissionError : bool;
  audioInputAvailable : bool
}.

(** The [useRef] cells of the start-up path.  A [bool] records whether
    the cell holds an object. *)
Record Refs := mkRefs {
  streamRef : option MediaStream;
  inputAudioCtx : bool;
  outputAudioCtx : bool;
  scriptProcessorRef : bool;
  inputGainNodeRef : bool;
  frameIntervalRef : bool;
  connectTimeoutRef : bool
}.

(** A mounted component: the state the next render will show, and the
    refs.  A handler is a closure over the [State] of the render that
    created it (its snapshot); its [set...] calls act on [state]. *)
Record Component := mkComponent {
  state : State;
  refs : Refs
}.

Definition initialState : State :=
  mkState false false false false None false true.
Definition initialRefs : Refs :=
  mkRefs None false false false false false false.
Definition mounted : Component := mkComponent initialState initialRefs.

Definition setError (e : option string) (st : State) : State :=
  mkState (isCameraEnabled st) (hasStarted st) (isActive st)
          (isConnecting st) e (permissionError st)
          (audioInputAvailable st).
Definition setPermissionError (b : bool) (st : State) : State :=
  mkState (isCameraEnabled st) (hasStarted st) (isActive st)
          (isConnecting st) (error st) b (audioInputAvailable st).
Definition setIsCameraEnabled (b : bool) (st : State) : State :=
  mkState b (hasStarted st) (isActive st) (isConnecting st) (error st)
          (permissionError st) (audioInputAvailable st).
Definition setAudioInputAvailable (b : bool) (st : State) : State :=
  mkState (isCameraEnabled st) (hasStarted st) (isActive st)
          (isConnecting st) (error st) (permissionError st) b.
Definition setHasStarted (b : bool) (st : State) : State :=
  mkState (isCameraEnabled st) b (isActive st) (isConnecting st)
          (error st) (permissionError st) (audioInputAvailable st).
Definition setIsConnecting (b : bool) (st : State) : State :=
  mkState (isCameraEnabled st) (hasStarted st) (isActive st) b
          (error st) (permissionError st) (audioInputAvailable st).
Definition setIsActive (b : bool) (st : State) : State :=
  mkState (isCameraEnabled st) (hasStarted st) b (isConnecting st)
          (error st) (permissionError st) (audioInputAvailable st).

Definition setStreamRef (v : option MediaStream) (r : Refs) : Refs :=
  mkRefs v (inputAudioCtx r) (outputAudioCtx r) (scriptProcessorRef r)
         (inputGainNodeRef r) (frameIntervalRef r) (connectTimeoutRef r).

Definition handleStreamSuccess (stream : MediaStream) (hasAudio : bool)
                               (c : Component) : Component :=
  mkComponent
    (setAudioInputAvailable hasAudio
       (setPermissionError false
          (setError None
             (setIsCameraEnabled true (state c)))))
    (setStreamRef (Some stream) (refs c)).

(** The message chosen from [err2.name] when the fallback fails too. *)
Definition fallbackFailed (name : string) (st : State) : State :=
  if (String.eqb name "NotAllowedError"
      || String.eqb name "PermissionDeniedError")%bool then
    setError (Some "Access denied. Please reset permissions.")
             (setPermissionError true st)
  else if String.eqb name "NotFoundError" then
    setError (Some "No camera found.") st
  else if String.eqb name "NotReadableError" then
    setError (Some "Camera in use by another app.") st
  else
    setError (Some ("Camera Error: " ++ name)) st.

Definition enableCamera (b : Browser) (c : Component) : Component :=
  let c0 := mkComponent (setPermissionError false (setError None (state c)))
                        (setStreamRef None (refs c)) in
  if negb (hasGetUserMedia b) then
    mkComponent (setError (Some "Browser not supported.") (state c0))
                (refs c0)
  else
    match getUserMedia b true with
    | Granted stream => handleStreamSuccess stream true c0
    | Rejected _ =>
        match getUserMedia b false with
        | Granted stream => handleStreamSuccess stream false c0
        | Rejected name =>
            mkComponent (fallbackFailed name (state c0)) (refs c0)
        end
    end.

(** How far [handleStartSession] got: it returns early when no stream
    could be acquired, otherwise the connection is requested. *)
Inductive Started :=
| Aborted (c : Component)
| Connecting (c : Component).

Definition isNone {A} (o : option A) : bool :=
  match o with None => true | Some _ => false end.

(** [handleStartSession], up to the call of [ai.live.connect]; [snap] is
    the state of the render whose button was clicked. *)
Definition handleStartSession (b : Browser) (snap : State) (c : Component)
  : Started :=
  let connect (acquired : Component) :=
    let st := setError None
                (setIsConnecting true (setHasStarted true (state acquired)))
    in
    let r := refs acquired in
    Connecting
      (mkComponent st
         (mkRefs (streamRef r) true true (scriptProcessorRef r)
                 (inputGainNodeRef r) (frameIntervalRef r) true)) in
  if (negb (isCameraEnabled snap) || isNone (streamRef (refs c)))%bool then
    let c1 := enableCamera b c in
    if isNone (streamRef (refs c1)) then
      Aborted (mkComponent
                 (setError (Some "Camera lost. Please try enabling again.")
                           (state c1))
                 (refs c1))
    else connect c1
  else connect c.

(** The [onopen] callback created by that call of [handleStartSession]:
    it reads [audioInputAvailable] from the same snapshot. *)
Definition onopen (snap : State) (c : Component) : Component :=
  let st := setIsActive true (setIsConnecting false (state c)) in
  let r := refs c in
  let tap :=
    match streamRef r with
    | Some stream =>
        (audioInputAvailable snap && inputAudioCtx r
         && (0 <? audioTracks stream)%nat)%bool
    | None => false
    end in
  mkComponent st
    (mkRefs (streamRef r) (inputAudioCtx r) (outputAudioCtx r)
            (if tap then true else scriptProcessorRef r)
            (if tap then true else inputGainNodeRef r)
            true false).

(** A session start from a click on "Start Session": the handler and its
    [onopen] callback share the snapshot of the rendered state. *)
Definition startSession (b : Browser) (c : Component) : Started :=
  match handleStartSession b (state c) c with
  | Aborted c' => Aborted c'
  | Connecting c' => Connecting (onopen (state c) c')
  end.

(** The usual path: "Enable Camera" is clicked, the component re-renders,
    then "Start Session" is clicked. *)
Definition enableThenStart (b : Browser) (c : Component) : Started :=
  startSession b (enableCamera b c).

(** A browser whose microphone is unavailable: the combined request is
    rejected and the video-only request yields one video track. *)
Definition noMicBrowser : Browser :=
  mkBrowser true (fun audio =>
    if audio then Rejected "NotFoundError" else Granted (mkStream 0 1)).

End Session.

(** ** Analysis entries (types.ts) *)

Module Types.

(** One element of [AnalysisResult.timestamps]. *)
Record TimestampEntry := mkEntry {
  frame : Z;
  timestamp : Q;
  displayTime : string;
  issue : string;
  bodyPartFeedback : list (string * string);
  bodyPartTags : list (string * string);
  bodyPartStatuses : list (string * bool);
  coachingCues : list string;
  isPositive : bool;
  visualImage : option string
}.

Inductive Screen :=
| HOME | NEW_ANALYSIS | ANALYZING | RESULT | LIVE_COACH | PROFILE | MORE.

Record AnalysisResult := mkResult {
  overallScore : Q;
  bodyPartScores : list (string * Q);
  timestamps : list TimestampEntry;
  strengths : list string;
  weaknesses : list string;
  suggestions : list string
}.

(** An entry carrying only a timestamp and a title. *)
Definition plainEntry (t : Q) (title : string) : TimestampEntry :=
  mkEntry 0 t EmptyString title [] [] [] [] false None.

(** An entry carrying a timestamp, a title and a rendered image. *)
Definition imageEntry (t : Q) (title img : string) : TimestampEntry :=
  mkEntry 0 t EmptyString title [] [] [] [] false (Some img).

End Types.

(** ** Timeline monitor: [monitorFrames], the dwell timer and the
       smart-coach toggle of the result page (src/unnamed/part_004) *)

Module Timeline.

Import Types.

(** [processedTimestamps] is a [Set<number>]: membership, insertion and
    deletion by the numeric value of the timestamp. *)
Definition setHas (P : list Q) (t : Q) : bool :=
  existsb (fun x => Qeq_bool x t) P.
Definition setAdd (t : Q) (P : list Q) : list Q :=
  if setHas P t then P else P ++ [t].
Definition setDelete (t : Q) (P : list Q) : list Q :=
  filter (fun x => negb (Qeq_bool x t)) P.

Record Video := mkVideo {
  currentTime : Q;
  paused : bool
}.

(** The value given to [setCurrentDisplayFeedback]. *)
Record Feedback := mkFeedback {
  title : string;
  feedback : list (string * string);
  positive : bool;
  image : option string
}.

Definition feedbackOf (m : TimestampEntry) : Feedback :=
  mkFeedback (issue m) (bodyPartFeedback m) (isPositive m) (visualImage m).

(** What the conditional rendering [{x && ...}] sees of an optional
    string: an absent or empty one renders nothing. *)
Definition truthy (src : option string) : option string :=
  match src with
  | Some EmptyString => None
  | other => other
  end.

(** The page: the video element behind [videoRef] (absent before mount),
    the state variables and the refs of the monitor.  [resumeTimer] is
    [Some b] while the timeout of [resumeTimerRef] is pending, [b] being
    the value of [smartPlayEnabled] its callback closed over. *)
Record Page := mkPage {
  video : option Video;
  smartPlayEnabled : bool;
  currentDisplayFeedback : option Feedback;
  processedTimestamps : list Q;
  lastCheckTime : Q;
  resumeTimer : option bool
}.

(** What the visual tab renders of the displayed feedback,
    [{currentDisplayFeedback?.image && (<div ...><img src={...image} />
    </div>)}]: the image, over the whole frame, when there is one.  The
    title, the texts and the sign are kept in the state and not rendered
    there. *)
Definition overlay (s : Page) : option string :=
  match currentDisplayFeedback s with
  | Some f => truthy (image f)
  | None => None
  end.

(** The backward-seek branch:
    [timestamps.forEach(t => { if (t.timestamp > currentTime)
       processedTimestamps.delete(t.timestamp) })]. *)
Definition clearAfter (events : list TimestampEntry) (curr : Q)
                      (P : list Q) : list Q :=
  fold_left (fun acc t => if JS.gtb (timestamp t) curr
                          then setDelete (timestamp t) acc else acc)
            events P.

Definition afterSeekCheck (events : list TimestampEntry)
                          (prev curr : Q) (P : list Q) : list Q :=
  if JS.ltb curr (prev - (1 # 2)) then clearAfter events curr P else P.

(** The predicate given to [timestamps.find]. *)
Definition isMatch (prev curr : Q) (P : list Q) (t : TimestampEntry)
  : bool :=
  (JS.leb prev (timestamp t) && JS.geb curr (timestamp t)
   && negb (setHas P (timestamp t)))%bool.

Definition findMatch (events : list TimestampEntry) (prev curr : Q)
                     (P : list Q) : option TimestampEntry :=
  find (isMatch prev curr P) events.

(** Whether a tick gets past the guard
    [if (!video || !smartPlayEnabled || video.paused) return]. *)
Definition running (s : Page) : option Video :=
  match video s with
  | None => None
  | Some v => if (negb (smartPlayEnabled s) || paused v)%bool
              then None else Some v
  end.

(** The event a tick selects, if any. *)
Definition frameMatch (events : list TimestampEntry) (s : Page)
  : option TimestampEntry :=
  match running s with
  | None => None
  | Some v =>
      findMatch events (lastCheckTime s) (currentTime v)
        (afterSeekCheck events (lastCheckTime s) (currentTime v)
           (processedTimestamps s))
  end.

(** One run of [monitorFrames]. *)
Definition monitorFrames (events : list TimestampEntry) (s : Page) : Page :=
  match running s with
  | None => s
  | Some v =>
      let curr := currentTime v in
      let prev := lastCheckTime s in
      let P := afterSeekCheck events prev curr (processedTimestamps s) in
      match findMatch events prev curr P with
      | Some m =>
          mkPage (Some (mkVideo (timestamp m) true))
                 (smartPlayEnabled s)
                 (Some (feedbackOf m))
                 (setAdd (timestamp m) P)
                 curr
                 (Some (smartPlayEnabled s))
      | None =>
          mkPage (video s) (smartPlayEnabled s)
                 (currentDisplayFeedback s) P curr (resumeTimer s)
      end
  end.

(** The timeout callback armed by a match:
    [setCurrentDisplayFeedback(null);
     if (smartPlayEnabled && videoRef.current?.paused) safePlay()]. *)
Definition resumeTimerFired (s : Page) : Page :=
  match resumeTimer s with
  | None => s
  | Some enabled =>
      mkPage (match video s with
              | Some v => if (enabled && paused v)%bool
                          then Some (mkVideo (currentTime v) false)
                          else Some v
              | None => None
              end)
             (smartPlayEnabled s) None (processedTimestamps s)
             (lastCheckTime s) None
  end.

(** The smart-coach button, followed by the cleanup of the effect whose
    dependency [smartPlayEnabled] changes. *)
Definition toggleSmartPlay (s : Page) : Page :=
  let clicked :=
    if smartPlayEnabled s then
      mkPage (video s) (smartPlayEnabled s) None (processedTimestamps s)
             (lastCheckTime s) None
    else s in
  mkPage (video clicked) (negb (smartPlayEnabled s))
         (currentDisplayFeedback clicked) (processedTimestamps clicked)
         (lastCheckTime clicked) None.

Definition withVideo (f : Video -> Video) (s : Page) : Page :=
  mkPage (option_map f (video s)) (smartPlayEnabled s)
         (currentDisplayFeedback s) (processedTimestamps s)
         (lastCheckTime s) (resumeTimer s).

(** [jumpToTime]: forget the flag of that timestamp, rewind the last
    observed position to [timestamp - 0.1] (a subtraction of doubles),
    seek and play. *)
Definition jumpToTime (t : Q) (s : Page) : Page :=
  match video s with
  | None => s
  | Some _ =>
      mkPage (Some (mkVideo t false)) (smartPlayEnabled s)
             (currentDisplayFeedback s)
             (setDelete t (processedTimestamps s))
             (Double.sub t (1 # 10)) (resumeTimer s)
  end.

(** What can happen to the page between two renders. *)
Inductive Event :=
| Frame                 (* an animation frame: [monitorFrames] runs *)
| TimerFired            (* the 3-second timeout expires *)
| ToggleSmartPlay       (* the smart-coach button *)
| Advance (dt : Q)      (* playback moves on by [dt] unless paused *)
| UserPlay              (* native controls: play *)
| UserPause             (* native controls: pause *)
| UserSeek (t : Q)      (* native controls: scrub to [t] *)
| JumpToTime (t : Q).   (* a callout of the data tab *)

Definition step (events : list TimestampEntry) (e : Event) (s : Page)
  : Page :=
  match e with
  | Frame => monitorFrames events s
  | TimerFired => resumeTimerFired s
  | ToggleSmartPlay => toggleSmartPlay s
  | Advance dt =>
      withVideo (fun v => if paused v then v
                          else mkVideo (currentTime v + dt) false) s
  | UserPlay => withVideo (fun v => mkVideo (currentTime v) false) s
  | UserPause => withVideo (fun v => mkVideo (currentTime v) true) s
  | UserSeek t => withVideo (fun v => mkVideo t (paused v)) s
  | JumpToTime t => jumpToTime t s
  end.

Fixpoint run (events : list TimestampEntry) (trace : list Event)
             (s : Page) : Page :=
  match trace with
  | [] => s
  | e :: rest => run events rest (step events e s)
  end.

(** The events selected along a trace, in the order they were presented. *)
Fixpoint triggers (events : list TimestampEntry) (trace : list Event)
                  (s : Page) : list TimestampEntry :=
  match trace with
  | [] => []
  | e :: rest =>
      match e with
      | Frame => match frameMatch events s with
                 | Some m => [m]
                 | None => []
                 end
      | _ => []
      end ++ triggers events rest (step events e s)
  end.

(** Uninterrupted playback: before each tick a pending dwell runs out,
    then the position moves on by [dt] and the monitor looks at it. *)
Definition playTrace (dts : list Q) : list Event :=
  flat_map (fun dt => [TimerFired; Advance dt; Frame]) dts.

(** An event by which the user resumes playback. *)
Definition manualResume (e : Event) : bool :=
  match e with
  | UserPlay | JumpToTime _ => true
  | _ => false
  end.

Definition position (s : Page) : Q :=
  match video s with Some v => currentTime v | None => 0 end.
Definition isPaused (s : Page) : bool :=
  match video s with Some v => paused v | None => true end.
Definition consumed (s : Page) (t : TimestampEntry) : bool :=
  setHas (processedTimestamps s) (timestamp t).

(** The page just mounted with a loaded video: paused at 0. *)
Definition loaded : Page :=
  mkPage (Some (mkVideo 0 true)) true None [] 0 None.
Definition playing : Page := step [] UserPlay loaded.

(** The events of the scenarios: timestamps 2.0, 5.0 and 9.0. *)
Definition threeEvents : list TimestampEntry :=
  [plainEntry 2 "first"; plainEntry 5 "second"; plainEntry 9 "third"].

(** The same moments, the first two with a rendered image. *)
Definition imageEvents : list TimestampEntry :=
  [imageEntry 2 "first" "image2"; imageEntry 5 "second" "image5";
   plainEntry 9 "third"].

(** Two events a quarter of a second apart. *)
Definition twoEvents : list TimestampEntry :=
  [plainEntry 2 "first"; plainEntry (9 # 4) "second"].

(** Over [twoEvents]: both events are presented; the user then scrubs
    back to 1.0 and a tick sees the seek; the next tick comes late, at
    2.5, and playback goes on, observed 0.3 s after the dwell and at
    further intervals up to 4.5. *)
Definition bothPresented : list Event := playTrace [1; 1; 1 # 4].
Definition scrubBack : list Event :=
  [TimerFired; UserSeek 1; Advance (1 # 4); Frame].
Definition lateReplay : list Event :=
  [Advance (5 # 4); Frame] ++ playTrace [3 # 10; 1 # 5; 1; 1].
Definition lateReplayTrace : list Event :=
  bothPresented ++ scrubBack ++ lateReplay.

(** Replay: play up to 2.0 (the first event is presented), let the dwell
    run out, scrub back to 1.0 and play on past 2.0 again. *)
Definition replayTrace : list Event :=
  playTrace [1; 1]
  ++ [TimerFired; UserSeek 1; Advance (1 # 4); Frame]
  ++ playTrace [1 # 2; 1 # 2].

(** The phases of a forward scrub over [threeEvents]: the flags set so
    far are [P], the position lies in [[lo, hi)], the last observed
    position has not passed [hi], and the video is either playing with no
    timer pending or held by a pending dwell. *)
Definition dwellState (s : Page) (v : Video) : Prop :=
  (paused v = false /\ resumeTimer s = None) \/
  (paused v = true /\ resumeTimer s = Some true).

Definition scrubPhase (P : list Q) (lo hi : option Q) (s : Page) : Prop :=
  smartPlayEnabled s = true /\
  processedTimestamps s = P /\
  exists v,
    video s = Some v /\ dwellState s v /\
    match lo with Some l => l <= currentTime v | None => True end /\
    match hi with
    | Some h => currentTime v < h /\ lastCheckTime s <= h
    | None => True
    end.

Definition scrubInv (k : nat) (s : Page) : Prop :=
  match k with
  | O => scrubPhase [] None (Some 2) s
  | S O => scrubPhase [2] (Some 2) (Some 5) s
  | S (S O) => scrubPhase [2; 5] (Some 5) (Some 9) s
  | S (S (S O)) => scrubPhase [2; 5; 9] (Some 9) None s
  | _ => False
  end.

(** States of the scenarios over [threeEvents]: playing at 2.0 with the
    last observed position at 1.0; playing at 1.25 after the first event
    was presented and the user scrubbed back; held at 5.0 by the dwell of
    the second event. *)
Definition atTwo : Page :=
  run threeEvents [TimerFired; Advance 1; Frame; TimerFired; Advance 1]
      playing.
Definition seekedBack : Page :=
  run threeEvents
      (playTrace [1; 1] ++ [TimerFired; UserSeek 1; Advance (1 # 4)])
      playing.
Definition dwelling : Page :=
  run threeEvents (playTrace [1; 1; 1; 1; 1]) playing.

(** Events ordered by timestamp. *)
Definition byTimestamp (a b : TimestampEntry) : Prop :=
  timestamp a <= timestamp b.

End Timeline.

(** ** Annotation placer: [drawAnnotationsOnCanvas] of geminiService.ts *)

Module Placer.

Local Open Scope string_scope.

(** An element of the array returned by the coordinate request. *)
Record Annotation := mkAnnotation {
  part : string;
  label : string;
  x : Q;
  y : Q;
  label_side : string;
  status : bool
}.

(** What is drawn for one annotation: the box, the connector from the
    box edge to the target, and the colour of the text. *)
Record Layout := mkLayout {
  boxX1 : Q;
  boxX2 : Q;
  boxY1 : Q;
  boxY2 : Q;
  arrowStartX : Q;
  arrowStartY : Q;
  targetX : Q;
  targetY : Q;
  textColor : string
}.

(** The margin kept to the frame, the literal 5 of the source. *)
Definition margin : Q := 5.

Definition fontSize (height : Z) : Q :=
  Qmax 10 (inject_Z (Qfloor (inject_Z height * (22 # 1000)))).
Definition padding (width : Z) : Q :=
  inject_Z (Qfloor (inject_Z width * (12 # 1000))).
Definition arrowOffset (width : Z) : Q :=
  inject_Z (Qfloor (inject_Z width * (1 # 10))).

Definition boxTotalWidth (width : Z) (textW : Q) : Q :=
  textW + padding width * 2.
Definition boxTotalHeight (width height : Z) : Q :=
  fontSize height + padding width * 2.

(** The horizontal placement: the two edges of the box and the end of
    the connector on the box. *)
Definition placeX (width : Z) (tX boxW : Q) (side : string)
  : Q * Q * Q :=
  if String.eqb side "left" then
    let boxX2 := tX - arrowOffset width in
    let boxX1 := boxX2 - boxW in
    if JS.ltb boxX1 5 then (5, 5 + boxW, 5 + boxW)
    else (boxX1, boxX2, boxX2)
  else
    let boxX1 := tX + arrowOffset width in
    let boxX2 := boxX1 + boxW in
    if JS.gtb boxX2 (inject_Z width - 5)
    then (inject_Z width - 5 - boxW, inject_Z width - 5,
          inject_Z width - 5 - boxW)
    else (boxX1, boxX2, boxX1).

(** The vertical placement: the top edge of the box. *)
Definition placeY (height : Z) (tY textH pad boxH : Q) : Q :=
  let boxY1 := tY - (textH / 2) - pad in
  let boxY1 := if JS.ltb boxY1 5 then 5 else boxY1 in
  if JS.gtb (boxY1 + boxH) (inject_Z height - 5)
  then inject_Z height - boxH - 5 else boxY1.

(** The body of [annotations.forEach]; [textW] is
    [ctx.measureText(text).width]. *)
Definition place (width height : Z) (measureText : string -> Q)
                 (item : Annotation) : Layout :=
  let tX := (x item / 100) * inject_Z width in
  let tY := (y item / 100) * inject_Z height in
  let textW := measureText (label item) in
  let textH := fontSize height in
  let boxW := textW + padding width * 2 in
  let boxH := textH + padding width * 2 in
  let '(bX1, bX2, aX) := placeX width tX boxW (label_side item) in
  let bY1 := placeY height tY textH (padding width) boxH in
  let bY2 := bY1 + boxH in
  mkLayout bX1 bX2 bY1 bY2 aX (bY1 + boxH / 2) tX tY
           (if status item then "#059669" else "#dc2626").

(** The canvas and image facilities the renderer relies on: loading the
    frame gives its size or fails ([img.onerror]); a 2d context may be
    missing, or be one without the method [roundRect] (browsers older
    than 2023); text is measured under the font of the given size; the
    drawn frame is encoded by [toDataURL]. *)
Record Canvas := mkCanvas {
  loadImage : string -> option (Z * Z);
  hasContext : bool;
  roundRect : bool;
  measure : Q -> string -> Q;
  toDataURL : string -> list Layout -> string
}.

(** What [JSON.parse] can give for the coordinate response, as far as
    the renderer tells the cases apart: a value that is not an array, or
    an array whose elements are objects with the six fields, or [null]. *)
Inductive Reply :=
| NotAnArray
| Items (items : list (option Annotation)).

(** A promise: fulfilled, rejected, or never settled. *)
Inductive Outcome (A : Type) :=
| Fulfilled (a : A)
| Failed (reason : string)
| Pending.
Arguments Fulfilled {A} a.
Arguments Failed {A} reason.
Arguments Pending {A}.

(** [annotations.forEach(item => { ... })] inside [img.onload]: the
    layouts drawn, or [None] when the callback throws, which it does on a
    [null] item (reading [item.x]) and on a context without [roundRect]. *)
Fixpoint drawItems (cv : Canvas) (width height : Z)
                   (items : list (option Annotation))
  : option (list Layout) :=
  match items with
  | [] => Some []
  | None :: _ => None
  | Some item :: rest =>
      if roundRect cv then
        match drawItems cv width height rest with
        | Some layouts =>
            Some (place width height (measure cv (fontSize height)) item
                  :: layouts)
        | None => None
        end
      else None
  end.

(** The promise is rejected by [img.onerror] and by the missing context,
    and resolved at the end of [img.onload]; an exception thrown inside
    [img.onload] ([annotations.forEach] on a value that is not an array,
    or the callback throwing) reaches neither [resolve] nor [reject]. *)
Definition drawAnnotationsOnCanvas (cv : Canvas) (imageBase64 : string)
                                   (annotations : Reply)
  : Outcome string :=
  match loadImage cv imageBase64 with
  | None => Failed "image load error"
  | Some (width, height) =>
      if hasContext cv then
        match annotations with
        | NotAnArray => Pending
        | Items items =>
            match drawItems cv width height items with
            | Some layouts => Fulfilled (toDataURL cv imageBase64 layouts)
            | None => Pending
            end
        end
      else Failed "Could not get canvas context"
  end.

(** A box lying within the top and bottom margins of the frame. *)
Definition withinVertical (height : Z) (l : Layout) : Prop :=
  margin <= boxY1 l /\ boxY2 l <= inject_Z height - margin.

(** A knee label on a 100 x 16 strip, target in the middle, with a text
    20 pixels wide. *)
Definition kneeLabel : Annotation :=
  mkAnnotation "legs" "Knee bent" 50 50 "left" true.
Definition stripLayout : Layout := place 100 16 (fun _ => 20) kneeLabel.

(** The targets of the specification's examples on a 1280 x 720 frame. *)
Definition leftLabel : Annotation :=
  mkAnnotation "arms" "Elbow low" 10 50 "left" false.
Definition rightLabel : Annotation :=
  mkAnnotation "arms" "Elbow high" 95 50 "right" true.

End Placer.

(** ** Visualization batch: the loop of [handleAnalyze] (App.tsx) over
       [generateVisualCorrection] (geminiService.ts) *)

Module Pipeline.

Import Types Placer.
Local Open Scope string_scope.

(** Sequencing of awaited promises, and [try { ... } catch { ... }]:
    an [await] on a promise that never settles never returns. *)
Definition bind {A B} (m : Outcome A) (k : A -> Outcome B) : Outcome B :=
  match m with
  | Fulfilled a => k a
  | Failed reason => Failed reason
  | Pending => Pending
  end.

Definition catch {A} (m : Outcome A) (handler : string -> Outcome A)
  : Outcome A :=
  match m with
  | Fulfilled a => Fulfilled a
  | Failed reason => handler reason
  | Pending => Pending
  end.

Notation "x <- m ;; k" := (bind m (fun x => k))
  (at level 61, m at next level, right associativity).

(** The external collaborators of the batch: the analysis request, the
    frame grabbed from the video at a timestamp, the coordinate request
    (which may reject), the text of its response cleaned and parsed ([None]
    when [replace], [trim] or [JSON.parse] throws), and the canvas. *)
Record Services := mkServices {
  analyzeVideo : Outcome AnalysisResult;
  captureFrame : Q -> string;
  generateContent : string -> string -> list (string * string)
                    -> list (string * bool) -> Outcome string;
  parseJSON : string -> option Reply;
  canvas : Canvas
}.

(** [try { return JSON.parse(text) } catch { return [] }]. *)
Definition getAnnotationCoordinates (sv : Services)
    (imageBase64 sport : string)
    (bodyPartTags : list (string * string))
    (bodyPartStatuses : list (string * bool))
  : Outcome Reply :=
  response <- generateContent sv imageBase64 sport bodyPartTags
                bodyPartStatuses ;;
  match parseJSON sv response with
  | Some annotations => Fulfilled annotations
  | None => Fulfilled (Items [])
  end.

Definition generateVisualCorrection (sv : Services)
    (imageBase64 issue sport : string)
    (bodyPartTags : list (string * string))
    (bodyPartStatuses : list (string * bool))
  : Outcome string :=
  catch
    (annotations <- getAnnotationCoordinates sv imageBase64 sport
                      bodyPartTags bodyPartStatuses ;;
     annotatedImage <- drawAnnotationsOnCanvas (canvas sv) imageBase64
                         annotations ;;
     Fulfilled annotatedImage)
    (fun error => Failed error).

(** [{ ...ts, visualImage }]. *)
Definition withVisualImage (ts : TimestampEntry) (img : string)
  : TimestampEntry :=
  mkEntry (frame ts) (timestamp ts) (displayTime ts) (issue ts)
          (bodyPartFeedback ts) (bodyPartTags ts) (bodyPartStatuses ts)
          (coachingCues ts) (isPositive ts) (Some img).

(** One iteration of the loop: the entry pushed for [ts],
    [try { ...; push({ ...ts, visualImage }) } catch { push(ts) }]. *)
Definition visualize (sv : Services) (sport : string)
                     (ts : TimestampEntry) : Outcome TimestampEntry :=
  let frameBase64 := captureFrame sv (timestamp ts) in
  catch
    (visualImage <- generateVisualCorrection sv frameBase64 (issue ts)
                      sport (bodyPartTags ts) (bodyPartStatuses ts) ;;
     Fulfilled (withVisualImage ts visualImage))
    (fun _ => Fulfilled ts).

(** The loop [for (let i = 0; i < timestamps.length; i++)], the array
    [updatedTimestamps] growing by one [push] per iteration. *)
Fixpoint scanFrom (sv : Services) (sport : string)
                  (remaining updatedTimestamps : list TimestampEntry)
  : Outcome (list TimestampEntry) :=
  match remaining with
  | [] => Fulfilled updatedTimestamps
  | ts :: rest =>
      entry <- visualize sv sport ts ;;
      scanFrom sv sport rest (updatedTimestamps ++ [entry])
  end.

Definition scanTimestamps (sv : Services) (sport : string)
                          (timestamps : list TimestampEntry)
  : Outcome (list TimestampEntry) :=
  scanFrom sv sport timestamps [].

(** What [handleAnalyze] leaves in the state of the application. *)
Record App := mkApp {
  analysisResult : option AnalysisResult;
  isAnalyzing : bool;
  currentScreen : Screen
}.

(** [handleAnalyze] once the video is read: the analysing screen, then
    the analysis, then the batch, then the result screen; a rejection
    that reaches the outer [catch] leads back to the form; while an
    awaited promise does not settle the analysing screen stays. *)
Definition handleAnalyze (sv : Services) (sport : string) (app : App) : App :=
  let analyzing := mkApp (analysisResult app) true ANALYZING in
  match
    result <- analyzeVideo sv ;;
    updatedTimestamps <- scanTimestamps sv sport (timestamps result) ;;
    Fulfilled (mkResult (overallScore result) (bodyPartScores result)
                        updatedTimestamps (strengths result)
                        (weaknesses result) (suggestions result))
  with
  | Fulfilled shown => mkApp (Some shown) false RESULT
  | Failed _ => mkApp (analysisResult app) false NEW_ANALYSIS
  | Pending => analyzing
  end.

(** The entry the loop pushes for [ts] when its iteration ends. *)
Definition pushed (sv : Services) (sport : string) (ts : TimestampEntry)
  : TimestampEntry :=
  match visualize sv sport ts with
  | Fulfilled entry => entry
  | _ => ts
  end.

(** Two entries agree on everything but the image. *)
Definition sameAnalysis (a b : TimestampEntry) : Prop :=
  frame a = frame b /\ timestamp a = timestamp b /\
  displayTime a = displayTime b /\ issue a = issue b /\
  bodyPartFeedback a = bodyPartFeedback b /\
  bodyPartTags a = bodyPartTags b /\
  bodyPartStatuses a = bodyPartStatuses b /\
  coachingCues a = coachingCues b /\ isPositive a = isPositive b.

(** An exception thrown by [annotations.forEach] inside [img.onload]. *)
Definition throwsInOnload (cv : Canvas) (annotations : Reply) : Prop :=
  match annotations with
  | NotAnArray => True
  | Items items =>
      In None items \/ (items <> [] /\ roundRect cv = false)
  end.

Definition modernCanvas : Canvas :=
  mkCanvas (fun _ => Some (1280, 720)%Z) true true (fun _ _ => 90)
           (fun img layouts =>
              match layouts with
              | [] => img
              | _ => img ++ "+labels"
              end).

(** Services under which the coordinate request is rejected for the
    frame at 5.0, the response for the frame at 9.0 does not parse, and
    everything else succeeds. *)
Definition flakyServices : Services :=
  mkServices
    (Fulfilled (mkResult 72 [] Timeline.threeEvents [] [] []))
    (fun t => if Qeq_bool t 2 then "frame2"
              else if Qeq_bool t 5 then "frame5" else "frame9")
    (fun img _ _ _ => if String.eqb img "frame5"
                      then Failed "network" else Fulfilled img)
    (fun text => if String.eqb text "frame9" then None
                 else Some (Items [Some leftLabel]))
    modernCanvas.

(** The same analysis in a browser whose 2d context has no [roundRect],
    every request succeeding with one annotation. *)
Definition oldBrowser : Services :=
  mkServices
    (Fulfilled (mkResult 72 [] Timeline.threeEvents [] [] []))
    (fun t => if Qeq_bool t 2 then "frame2"
              else if Qeq_bool t 5 then "frame5" else "frame9")
    (fun img _ _ _ => Fulfilled img)
    (fun _ => Some (Items [Some leftLabel]))
    (mkCanvas (fun _ => Some (1280, 720)%Z) true false (fun _ _ => 90)
              (fun img _ => img)).

(** The same analysis in a current browser, the response for the frame
    at 5.0 being a JSON object instead of an array. *)
Definition objectReply : Services :=
  mkServices
    (Fulfilled (mkResult 72 [] Timeline.threeEvents [] [] []))
    (fun t => if Qeq_bool t 2 then "frame2"
              else if Qeq_bool t 5 then "frame5" else "frame9")
    (fun img _ _ _ => Fulfilled img)
    (fun text => if String.eqb text "frame5" then Some NotAnArray
                 else Some (Items [Some leftLabel]))
    modernCanvas.

(** The application on the form, before [handleAnalyze]. *)
Definition onForm : App := mkApp None false NEW_ANALYSIS.

End Pipeline.

(** ** PCM codec: [decodeAudioData], [createPcmData], [encode] and [decode]
       of LiveCoach.tsx *)

Module Codec.

(** The two views of an [ArrayBuffer]: a 16-bit integer is the pair of
    bytes (low, high) of its two's-complement code (the byte order of the
    platforms the page runs on). *)
Definition int16OfBytes (lo hi : Byte.byte) : Z :=
  let u := (Z.of_N (Byte.to_N lo) + 256 * Z.of_N (Byte.to_N hi))%Z in
  if (32768 <=? u)%Z then (u - 65536)%Z else u.

Definition byteOfZ (z : Z) : Byte.byte :=
  match Byte.of_N (Z.to_N (z mod 256)) with
  | Some b => b
  | None => Byte.x00
  end.

Definition bytesOfInt16 (z : Z) : list Byte.byte :=
  let u := (z mod 65536)%Z in
  [byteOfZ u; byteOfZ (u / 256)].

(** [new Int16Array(data.buffer)]: a RangeError ([None]) when the byte
    length is odd. *)
Fixpoint int16View (data : list Byte.byte) : option (list Z) :=
  match data with
  | [] => Some []
  | lo :: hi :: rest =>
      match int16View rest with
      | Some l => Some (int16OfBytes lo hi :: l)
      | None => None
      end
  | [_] => None
  end.

(** [new Uint8Array(data.buffer)] of an [Int16Array]. *)
Definition uint8View (data : list Z) : list Byte.byte :=
  flat_map bytesOfInt16 data.

(** The base64 functions of the platform: [btoa] on a string of byte-valued
    characters, and [atob], which throws ([None]) on malformed input. *)
Record Base64 := mkBase64 {
  btoa : list Byte.byte -> string;
  atob : string -> option (list Byte.byte)
}.

(** [encode]: the bytes become the characters of a binary string, which is
    passed to [btoa]. *)
Definition encode (p : Base64) (bytes : list Byte.byte) : string :=
  btoa p bytes.

(** [decode]: [atob], then the character codes of the binary string. *)
Definition decode (p : Base64) (base64 : string) : option (list Byte.byte) :=
  atob p base64.

(** The [Blob] sent with [sendRealtimeInput]. *)
Record Blob := mkBlob {
  data : string;
  mimeType : string
}.

Definition createPcmData (p : Base64) (samples : list Z) : Blob :=
  mkBlob (encode p (uint8View samples)) "audio/pcm;rate=16000".

(** An [AudioBuffer]: its channels (a [Float32Array] each, which may hold
    NaN) and its sample rate. *)
Record AudioBuffer := mkAudioBuffer {
  channels : list (list JS.number);
  length : nat;
  sampleRate : Q
}.

Definition duration (b : AudioBuffer) : Q :=
  inject_Z (Z.of_nat (length b)) / sampleRate b.

(** [ctx.createBuffer(numberOfChannels, length, sampleRate)]: the length is
    converted to an unsigned long; NotSupportedError ([None]) for a zero
    channel count or length, and outside the ranges every implementation
    accepts (up to 32 channels, 8000 to 96000 Hz). *)
Definition createBuffer (numberOfChannels : nat) (frameCount : Q)
                        (rate : Q) : option nat :=
  let len := (JS.truncate frameCount mod 4294967296)%Z in
  if ((numberOfChannels =? 0)%nat || (32 <? numberOfChannels)%nat
      || (len =? 0)%Z || JS.ltb rate 8000 || JS.gtb rate 96000)%bool
  then None
  else Some (Z.to_nat len).

(** The value 16-bit sample [z] is decoded to. *)
Definition decodeSample (z : Z) : Q := inject_Z z / 32768.

(** [decodeAudioData(data, ctx, sampleRate, numChannels)]. *)
Definition decodeAudioData (bytes : list Byte.byte) (rate : Q)
                           (numChannels : nat) : option AudioBuffer :=
  match int16View bytes with
  | None => None
  | Some dataInt16 =>
      if (numChannels =? 0)%nat then None
      else
        let frameCount :=
          inject_Z (Z.of_nat (List.length dataInt16))
          / inject_Z (Z.of_nat numChannels) in
        match createBuffer numChannels frameCount rate with
        | None => None
        | Some len =>
            Some (mkAudioBuffer
                    (map (fun channel =>
                            map (fun i =>
                                   match nth_error dataInt16
                                           (i * numChannels + channel) with
                                   | Some z => Some (decodeSample z)
                                   | None => None
                                   end)
                                (seq 0 len))
                         (seq 0 numChannels))
                    len rate)
        end
  end.

(** A stand-in for base64 that writes every byte as one character. *)
Definition plainBase64 : Base64 :=
  mkBase64 string_of_list_byte (fun s => Some (list_byte_of_string s)).

End Codec.

(** ** Live session handlers: the transcript and audio parts of
       [onmessage], and the [onaudioprocess] tap (LiveCoach.tsx) *)

Module Live.

Import Codec.

Inductive TranscriptSource := ai | system.

Record TranscriptItem := mkItem {
  source : TranscriptSource;
  text : string
}.

Definition isAi (s : TranscriptSource) : bool :=
  match s with ai => true | system => false end.

(** [s.endsWith(c)] for a one-character [c]. *)
Fixpoint endsWith (s : string) (c : Ascii.ascii) : bool :=
  match s with
  | EmptyString => false
  | String a EmptyString => Ascii.eqb a c
  | String _ rest => endsWith rest c
  end.

(** Whether the last item is a fragment of the coach still to be
    continued (first revision: no final '.', '!' or '?'). *)
Definition openFragment (last : TranscriptItem) : bool :=
  (isAi (source last)
   && negb (endsWith (text last) "."%char)
   && negb (endsWith (text last) "!"%char)
   && negb (endsWith (text last) "?"%char))%bool.

(** The second revision of the component does not test '!'. *)
Definition openFragment' (last : TranscriptItem) : bool :=
  (isAi (source last)
   && negb (endsWith (text last) "."%char)
   && negb (endsWith (text last) "?"%char))%bool.

(** The updater given to [setTranscripts], by the test it uses. *)
Definition coalesce (open : TranscriptItem -> bool)
                    (prev : list TranscriptItem) (delta : string)
  : list TranscriptItem :=
  match List.last (map Some prev) None with
  | Some last =>
      if open last
      then removelast prev ++ [mkItem (source last) (text last ++ delta)]
      else prev ++ [mkItem ai delta]
  | None => prev ++ [mkItem ai delta]
  end.

Definition appendTranscript := coalesce openFragment.
Definition appendTranscript' := coalesce openFragment'.

(** What the handler reads of a [LiveServerMessage]: the text of the
    output transcription, the [inlineData.data] of each part of the model
    turn ([None] for a part without inline data), and the [interrupted]
    flag. *)
Record ServerMessage := mkServerMessage {
  outputTranscription : option string;
  parts : list (option string);
  interrupted : bool
}.

Definition nonEmpty (s : string) : bool :=
  match s with EmptyString => false | _ => true end.

(** The loop over the parts: the data of the first part that has some. *)
Fixpoint firstAudio (ps : list (option string)) : option string :=
  match ps with
  | [] => None
  | Some d :: rest => if nonEmpty d then Some d else firstAudio rest
  | None :: rest => firstAudio rest
  end.

(** The refs and state [onmessage] works on. *)
Record Session := mkSession {
  scheduler : Playback.Scheduler;
  transcripts : list TranscriptItem;
  outputAudioCtx : bool
}.

Definition setTalking (s : Playback.Scheduler) : Playback.Scheduler :=
  Playback.mkScheduler (Playback.nextStartTime s) (Playback.audioSources s)
                       true (Playback.started s) (Playback.stopped s).

(** [onmessage] as a whole; [now] is [ctx.currentTime] read once the
    payload is decoded.  The boolean tells whether the handler ran to its
    end ([false]: the decoding threw and the promise of the handler is
    rejected). *)
Definition onmessage (p : Base64) (now : Q) (m : ServerMessage)
                     (s : Session) : Session * bool :=
  let transcripts1 :=
    match outputTranscription m with
    | Some t => if nonEmpty t then appendTranscript (transcripts s) t
                else transcripts s
    | None => transcripts s
    end in
  let finish (sch : Playback.Scheduler) :=
    (mkSession (if interrupted m then Playback.handleInterrupted sch
                else sch)
               transcripts1 (outputAudioCtx s), true) in
  match firstAudio (parts m) with
  | Some audioBase64 =>
      if outputAudioCtx s then
        let failed := (mkSession (setTalking (scheduler s)) transcripts1
                                 (outputAudioCtx s), false) in
        match decode p audioBase64 with
        | None => failed
        | Some bytes =>
            match decodeAudioData bytes 24000 1 with
            | None => failed
            | Some audioBuffer =>
                finish (Playback.scheduleBuffer now (duration audioBuffer)
                          (setTalking (scheduler s)))
            end
        end
      else finish (scheduler s)
  | None => finish (scheduler s)
  end.

(** The microphone tap.  [onaudioprocess] is created once, by [onopen]; the
    [isMuted] it reads is the one of the render whose handler started the
    session, and the context is the input context of that session. *)
Record Tap := mkTap {
  tapMuted : bool;
  tapRate : Q
}.

Record Mic := mkMic {
  isMuted : bool;
  micLevel : JS.number;
  isTransmitting : bool;
  tap : option Tap;
  hasSession : bool;
  sent : list (list Z)
}.

(** [for (let i = 0; i < inputData.length; i += 100)
       sum += Math.abs(inputData[i])]. *)
Fixpoint sumEvery100 (fuel : nat) (inputData : list Q) : Q :=
  match fuel, inputData with
  | S fuel', x :: _ => Qabs x + sumEvery100 fuel' (skipn 100 inputData)
  | _, _ => 0
  end.

(** [Math.min(1, (sum / (inputData.length / 100)) * 5)]; an empty block
    gives 0/0. *)
Definition levelOf (inputData : list Q) : JS.number :=
  match inputData with
  | [] => None
  | _ =>
      let sum := sumEvery100 (List.length inputData) inputData in
      Some (Qmin 1 (sum / (inject_Z (Z.of_nat (List.length inputData)) / 100)
                    * 5))
  end.

(** [level > 0.01]; false for NaN. *)
Definition aboveThreshold (level : JS.number) : bool :=
  match level with
  | Some l => JS.gtb l (1 # 100)
  | None => false
  end.

(** The mute button: [setIsMuted(!isMuted)]. *)
Definition toggleMute (m : Mic) : Mic :=
  mkMic (negb (isMuted m)) (micLevel m) (isTransmitting m) (tap m)
        (hasSession m) (sent m).

(** [onopen] creating the processor, for an input context of rate
    [rate]. *)
Definition openTap (rate : Q) (m : Mic) : Mic :=
  mkMic (isMuted m) (micLevel m) (isTransmitting m)
        (Some (mkTap (isMuted m) rate)) (hasSession m) (sent m).

(** [sessionRef.current = await sessionPromise]. *)
Definition sessionReady (m : Mic) : Mic :=
  mkMic (isMuted m) (micLevel m) (isTransmitting m) (tap m) true (sent m).

(** One call of [onaudioprocess].  [sent] logs the samples of the blobs
    given to [sendRealtimeInput]; a resampling that throws ends the call
    after the level was set. *)
Definition onaudioprocess (inputData : list Q) (m : Mic) : Mic :=
  match tap m with
  | None => m
  | Some t =>
      if tapMuted t then
        mkMic (isMuted m) (Some 0) (isTransmitting m) (tap m)
              (hasSession m) (sent m)
      else
        let level := levelOf inputData in
        let rate := if Qeq_bool (tapRate t) 0 then 48000 else tapRate t in
        match Resampler.audioResample inputData rate with
        | None =>
            mkMic (isMuted m) level (isTransmitting m) (tap m)
                  (hasSession m) (sent m)
        | Some resampledData =>
            if hasSession m then
              mkMic (isMuted m) level (aboveThreshold level) (tap m)
                    true (sent m ++ [resampledData])
            else
              mkMic (isMuted m) level (isTransmitting m) (tap m)
                    false (sent m)
        end
  end.

Inductive MicEvent :=
| ToggleMute
| Block (inputData : list Q).

Definition micStep (e : MicEvent) (m : Mic) : Mic :=
  match e with
  | ToggleMute => toggleMute m
  | Block inputData => onaudioprocess inputData m
  end.

Fixpoint micRun (trace : list MicEvent) (m : Mic) : Mic :=
  match trace with
  | [] => m
  | e :: rest => micRun rest (micStep e m)
  end.

(** The blocks of a trace, in order. *)
Fixpoint blocksOf (trace : list MicEvent) : list (list Q) :=
  match trace with
  | [] => []
  | Block inputData :: rest => inputData :: blocksOf rest
  | ToggleMute :: rest => blocksOf rest
  end.

(** The component as mounted, before the session. *)
Definition idleMic : Mic := mkMic false (Some 0) false None false [].

(** The text of a transcript, all items in order. *)
Definition transcriptText (items : list TranscriptItem) : string :=
  fold_right (fun i acc => (text i ++ acc)%string) EmptyString items.

Definition systemItems (items : list TranscriptItem)
  : list TranscriptItem :=
  filter (fun i => negb (isAi (source i))) items.

(** The events of a session in the order the browser delivers them: a
    server message handled at clock reading [now], or the [onended] of the
    source [id]. *)
Inductive LiveEvent :=
| Message (now : Q) (m : ServerMessage)
| Ended (id : nat).

Definition liveStep (p : Base64) (e : LiveEvent) (s : Session) : Session :=
  match e with
  | Message now m => fst (onmessage p now m s)
  | Ended id =>
      mkSession (Playback.onended id (scheduler s)) (transcripts s)
                (outputAudioCtx s)
  end.

Fixpoint liveRun (p : Base64) (trace : list LiveEvent) (s : Session)
  : Session :=
  match trace with
  | [] => s
  | e :: rest => liveRun p rest (liveStep p e s)
  end.

(** The transcription texts of the messages of a trace, in order. *)
Fixpoint spokenText (trace : list LiveEvent) : string :=
  match trace with
  | [] => EmptyString
  | Message _ m :: rest =>
      match outputTranscription m with
      | Some t => (t ++ spokenText rest)%string
      | None => spokenText rest
      end
  | Ended _ :: rest => spokenText rest
  end.

(** Whether the audio payload of an event, if it has one, decodes. *)
Definition decodable (p : Base64) (e : LiveEvent) : bool :=
  match e with
  | Message _ m =>
      match firstAudio (parts m) with
      | None => true
      | Some d =>
          match decode p d with
          | None => false
          | Some bytes =>
              match decodeAudioData bytes 24000 1 with
              | None => false
              | Some _ => true
              end
          end
      end
  | Ended _ => true
  end.

(** The item [onopen] puts in the transcript. *)
Definition linkEstablished : TranscriptItem :=
  mkItem system "Link Established. Waiting for AI...".

(** The session when the connection has opened, before the first
    message: [handleStartSession] has created both contexts, [onopen] has
    set the transcript to its system item, and nothing is scheduled. *)
Definition fresh : Session :=
  mkSession Playback.initial [linkEstablished] true.

(** No two of the sources overlap: each one ends before any later one
    starts. *)
Definition noOverlap (l : list Playback.Source) : Prop :=
  StronglySorted
    (fun x y => Playback.src_end x <= Playback.src_when y) l.

(** The pending set of a scheduler is in order: its sources do not
    overlap, none ends after [nextStartTime], their identities are distinct
    and were given by [source.start], and the indicator is on while a
    source is pending. *)
Definition wellScheduled (sch : Playback.Scheduler) : Prop :=
  noOverlap (Playback.audioSources sch) /\
  Forall (fun x => Playback.src_end x <= Playback.nextStartTime sch)
         (Playback.audioSources sch) /\
  Forall (fun x => (Playback.src_id x
                    < List.length (Playback.started sch))%nat)
         (Playback.audioSources sch) /\
  NoDup (map Playback.src_id (Playback.audioSources sch)) /\
  (Playback.audioSources sch <> [] -> Playback.isAiTalking sch = true).

End Live.

(** ** Playback of the analysed video: traces of the result page *)

Module Playthrough.

Import Types Timeline.

(** Events that do not move the position backwards and do not touch the
    flags from outside the monitor: everything but a scrub, a callout
    jump and a negative advance. *)
Definition forwardOnly (e : Event) : bool :=
  match e with
  | Advance dt => Qle_bool 0 dt
  | UserSeek _ => false
  | JumpToTime _ => false
  | _ => true
  end.

(** No two entries of the list have the same timestamp. *)
Definition distinctTimestamps (l : list TimestampEntry) : Prop :=
  ForallOrdPairs (fun a b => ~ timestamp a == timestamp b) l.

(** Every flag lies at or before the position and the last observed
    position. *)
Definition flagsBehind (s : Page) : Prop :=
  match video s with
  | None => True
  | Some v =>
      Forall (fun t => t <= currentTime v /\ t <= lastCheckTime s)
             (processedTimestamps s)
  end.

(** The displayed feedback and the dwell timer go together, a pending
    timer closed over the monitor being on, as it still is, and the
    feedback displayed is the payload of a listed event. *)
Definition overlayTimed (events : list TimestampEntry) (s : Page) : Prop :=
  (currentDisplayFeedback s <> None <-> resumeTimer s <> None) /\
  (forall enabled, resumeTimer s = Some enabled ->
                   enabled = true /\ smartPlayEnabled s = true) /\
  (forall f, currentDisplayFeedback s = Some f ->
             exists m, In m events /\
                       f = mkFeedback (issue m) (bodyPartFeedback m)
                                      (isPositive m) (visualImage m)).

(** Events listed in the order of their timestamps, at least [g] seconds
    apart. *)
Definition gapped (g : Q) (events : list TimestampEntry) : Prop :=
  StronglySorted (fun a b => timestamp a + g <= timestamp b) events.

(** The two states of an uninterrupted playback with the monitor on, the
    events [done] having been presented and [todo] not: playing at a
    position that was observed and lies after [done] and not after
    [todo]; or held at the last event presented by its dwell timer, the
    position observed being less than [g] ahead. *)
Definition playingAt (done todo : list TimestampEntry) (s : Page) : Prop :=
  exists c fb,
    s = mkPage (Some (mkVideo c false)) true fb (map timestamp done) c None /\
    Forall (fun e => timestamp e < c) done /\
    Forall (fun e => c <= timestamp e) todo.

Definition heldAt (g : Q) (done : list TimestampEntry) (s : Page) : Prop :=
  exists m init fb lastCheck,
    done = init ++ [m] /\
    s = mkPage (Some (mkVideo (timestamp m) true)) true fb
               (map timestamp done) lastCheck (Some true) /\
    timestamp m <= lastCheck /\ lastCheck < timestamp m + g.

(** The position and the last observed position both lie after [t]. *)
Definition passed (t : Q) (s : Page) : Prop :=
  match video s with
  | None => True
  | Some v => t < currentTime v /\ t < lastCheckTime s
  end.

(** Two events 1/100 s apart, for a monitor that looks every 1/60 s. *)
Definition closeEvents : list TimestampEntry :=
  [plainEntry 2 "first"; plainEntry (201 # 100) "second"].

(** Two pages that differ at most in the feedback shown. *)
Definition samePlayback (a b : Page) : Prop :=
  video a = video b /\
  smartPlayEnabled a = smartPlayEnabled b /\
  processedTimestamps a = processedTimestamps b /\
  lastCheckTime a = lastCheckTime b /\
  resumeTimer a = resumeTimer b.

(** The feedback displayed by two pages, the first running over the
    entries [map f events]: the same on both, or the payload of [f m] on
    the first and that of [m] on the second, for a listed event [m]. *)
Definition sameFeedback (f : TimestampEntry -> TimestampEntry)
                        (events : list TimestampEntry) (a b : Page)
  : Prop :=
  currentDisplayFeedback a = currentDisplayFeedback b \/
  exists m, In m events /\
    currentDisplayFeedback a
      = Some (mkFeedback (issue m) (bodyPartFeedback m) (isPositive m)
                         (visualImage (f m))) /\
    currentDisplayFeedback b
      = Some (mkFeedback (issue m) (bodyPartFeedback m) (isPositive m)
                         (visualImage m)).

End Playthrough.

(** ** Displayed video rectangle: [calculateVideoContentRect]
       (motionGeometry) *)

Module Geometry.

(** The properties of the video element the function reads. *)
Record HTMLVideoElement := mkVideoElement {
  videoWidth : Z;
  videoHeight : Z;
  clientWidth : Z;
  clientHeight : Z
}.

Record VideoContentRect := mkRect {
  top : Q;
  left : Q;
  width : Q;
  height : Q
}.

(** [videoAspectRatio > containerWidth / containerHeight].  With a
    container of height 0 the quotient is [Infinity], [NaN] or
    [-Infinity] by the sign of the width, and the comparison holds in the
    last case only. *)
Definition widerThanContainer (videoAspectRatio : Q)
                              (containerWidth containerHeight : Z) : bool :=
  if (containerHeight =? 0)%Z then (containerWidth <? 0)%Z
  else JS.gtb videoAspectRatio
              (inject_Z containerWidth / inject_Z containerHeight).

Definition calculateVideoContentRect (video : option HTMLVideoElement)
  : option VideoContentRect :=
  match video with
  | None => None
  | Some v =>
      if ((videoWidth v =? 0) || (videoHeight v =? 0))%Z then None
      else
        let containerWidth := inject_Z (clientWidth v) in
        let containerHeight := inject_Z (clientHeight v) in
        let videoAspectRatio :=
          inject_Z (videoWidth v) / inject_Z (videoHeight v) in
        if widerThanContainer videoAspectRatio (clientWidth v)
                              (clientHeight v)
        then
          let contentWidth := containerWidth in
          let contentHeight := containerWidth / videoAspectRatio in
          Some (mkRect ((containerHeight - contentHeight) / 2) 0
                       contentWidth contentHeight)
        else
          let contentHeight := containerHeight in
          let contentWidth := containerHeight * videoAspectRatio in
          Some (mkRect 0 ((containerWidth - contentWidth) / 2)
                       contentWidth contentHeight)
  end.

End Geometry.

(** ** Recording a clip: [startRecording], [stopRecording], the timer and
       the recorder callbacks of CameraRecorder.tsx *)

Module Recorder.

Local Open Scope string_scope.

(** A [Blob] is its bytes: [size] is their number and [new Blob(parts)]
    their concatenation. *)
Definition Blob := list Byte.byte.

Record File := mkFile {
  name : string;
  type : string;
  bytes : Blob
}.

(** The browser: the answers of [MediaRecorder.isTypeSupported], and
    whether [new MediaRecorder(stream, { mimeType })] succeeds. *)
Record Env := mkEnv {
  isTypeSupported : string -> bool;
  construct : string -> bool
}.

(** The recorder object: the [mimeType] its callbacks closed over, and
    whether its state is ['inactive']. *)
Record MediaRecorder := mkRecorder {
  mimeType : string;
  inactive : bool
}.

Record State := mkState {
  stream : bool;
  mediaRecorderRef : option MediaRecorder;
  chunksRef : list Blob;
  isRecording : bool;
  recordingTime : Z;
  timerRef : bool;
  cameraError : option string;
  captured : list File
}.

(** The component once the camera stream has arrived. *)
Definition ready : State := mkState true None [] false 0 false None [].

Definition selectMimeType (env : Env) : string :=
  if isTypeSupported env "video/webm;codecs=vp9"
  then "video/webm;codecs=vp9"
  else if isTypeSupported env "video/mp4" then "video/mp4"
  else "video/webm".

Definition startRecording (env : Env) (s : State) : State :=
  if negb (stream s) then s
  else
    let mimeType := selectMimeType env in
    if construct env mimeType then
      mkState (stream s) (Some (mkRecorder mimeType false)) []
              true 0 true (cameraError s) (captured s)
    else
      mkState (stream s) (mediaRecorderRef s) (chunksRef s)
              (isRecording s) (recordingTime s) (timerRef s)
              (Some "Failed to start recording. MediaRecorder not supported?")
              (captured s).

Definition stopRecording (s : State) : State :=
  match mediaRecorderRef s with
  | Some r =>
      if inactive r then s
      else mkState (stream s) (Some (mkRecorder (mimeType r) true))
                   (chunksRef s) false (recordingTime s) false
                   (cameraError s) (captured s)
  | None => s
  end.

Definition setRecordingTime (t : Z) (s : State) : State :=
  mkState (stream s) (mediaRecorderRef s) (chunksRef s) (isRecording s)
          t (timerRef s) (cameraError s) (captured s).

(** One firing of the interval, which exists while [timerRef] holds it:
    [setRecordingTime(prev => { if (prev >= 20) { stopRecording();
    return 20; } return prev + 1; })]. *)
Definition tick (s : State) : State :=
  if timerRef s then
    if (20 <=? recordingTime s)%Z
    then setRecordingTime 20 (stopRecording s)
    else setRecordingTime (recordingTime s + 1) s
  else s.

(** [ondataavailable]. *)
Definition ondataavailable (data : Blob) (s : State) : State :=
  match data with
  | [] => s
  | _ => mkState (stream s) (mediaRecorderRef s)
                 (chunksRef s ++ [data])%list
                 (isRecording s) (recordingTime s) (timerRef s)
                 (cameraError s) (captured s)
  end.

(** [haystack.includes(needle)]. *)
Fixpoint includes (haystack needle : string) : bool :=
  if String.prefix needle haystack then true
  else match haystack with
       | EmptyString => false
       | String _ rest => includes rest needle
       end.

(** [onstop] of the recorder in [mediaRecorderRef]; [now] is the text of
    [Date.now()]. *)
Definition onstop (now : string) (s : State) : State :=
  match mediaRecorderRef s with
  | Some r =>
      let type := match mimeType r with
                  | EmptyString => "video/webm"
                  | m => m
                  end in
      let blob := List.concat (chunksRef s) in
      let ext := if includes type "mp4" then "mp4" else "webm" in
      let file := mkFile ("recording_" ++ now ++ "." ++ ext) type blob in
      mkState (stream s) (mediaRecorderRef s) (chunksRef s) (isRecording s)
              (recordingTime s) (timerRef s) (cameraError s)
              (captured s ++ [file])%list
  | None => s
  end.

Inductive Event :=
| Start                      (* the record button: [startRecording] *)
| StopClick                  (* the stop button: [stopRecording] *)
| Tick                       (* the interval fires *)
| DataAvailable (data : Blob)
| Stopped (now : string).    (* the recorder's [stop] event *)

Definition step (env : Env) (e : Event) (s : State) : State :=
  match e with
  | Start => startRecording env s
  | StopClick => stopRecording s
  | Tick => tick s
  | DataAvailable data => ondataavailable data s
  | Stopped now => onstop now s
  end.

Fixpoint run (env : Env) (trace : list Event) (s : State) : State :=
  match trace with
  | [] => s
  | e :: rest => run env rest (step env e s)
  end.

(** Events that neither start a recording nor deliver its end. *)
Definition whileRecording (e : Event) : bool :=
  match e with
  | Start => false
  | Stopped _ => false
  | _ => true
  end.

(** The data delivered along a trace, in order. *)
Fixpoint delivered (trace : list Event) : Blob :=
  match trace with
  | [] => []
  | DataAvailable data :: rest => (data ++ delivered rest)%list
  | _ :: rest => delivered rest
  end.

(** A browser that records VP9 in WebM, and one that only has MP4. *)
Definition chromium : Env :=
  mkEnv (fun _ => true) (fun _ => true).
Definition safari : Env :=
  mkEnv (fun t => String.eqb t "video/mp4") (fun _ => true).

End Recorder.

(* ===================================================================== *)
(** * Part II: theorems                                                  *)
(* ===================================================================== *)

Example resample_same_rate_ex :
  Resampler.audioResample [0; 1 # 2; -(1 # 2); -1; 3 # 131072; 1] 16000
  = Some [0; 16384; -16384; -32768; 0; -32768]%Z.
Proof. reflexivity. Qed.

Example resample_48k_ex :
  Resampler.audioResample [0; 1 # 4; 1 # 2; 3 # 4; 1; -1; -(1 # 2)] 48000
  = Some [0; 24576; -16384]%Z.
Proof. vm_compute. reflexivity. Qed.

(** ** Helper facts on the number model *)

Section NumberFacts.

Lemma ltb_lt (x y : Q) : JS.ltb x y = true <-> x < y.
Proof.
  unfold JS.ltb. rewrite negb_true_iff.
  split; intro H.
  - apply Qnot_le_lt. intro Hle. apply Qle_bool_iff in Hle. congruence.
  - destruct (Qle_bool y x) eqn:E; [|reflexivity].
    apply Qle_bool_iff in E. lra.
Qed.

Lemma ltb_ge (x y : Q) : JS.ltb x y = false <-> y <= x.
Proof.
  unfold JS.ltb. rewrite negb_false_iff. apply Qle_bool_iff.
Qed.

Lemma gtb_gt (x y : Q) : JS.gtb x y = true <-> y < x.
Proof. apply ltb_lt. Qed.

Lemma gtb_le (x y : Q) : JS.gtb x y = false <-> x <= y.
Proof. apply ltb_ge. Qed.

Lemma leb_le (x y : Q) : JS.leb x y = true <-> x <= y.
Proof. apply Qle_bool_iff. Qed.

Lemma leb_gt (x y : Q) : JS.leb x y = false <-> y < x.
Proof.
  unfold JS.leb. split; intro H.
  - apply Qnot_le_lt. intro Hle. apply Qle_bool_iff in Hle. congruence.
  - destruct (Qle_bool x y) eqn:E; [|reflexivity].
    apply Qle_bool_iff in E. lra.
Qed.

Lemma geb_ge (x y : Q) : JS.geb x y = true <-> y <= x.
Proof. apply Qle_bool_iff. Qed.

Lemma geb_lt (x y : Q) : JS.geb x y = false <-> x < y.
Proof. apply leb_gt. Qed.

(** Truncation is the floor of a non-negative number and the ceiling of a
    negative one; hence it respects equality of rationals. *)
Lemma truncate_floor_ceiling (x : Q) :
  JS.truncate x = if Qle_bool 0 x then Qfloor x else Qceiling x.
Proof.
  destruct x as [n d]. unfold JS.truncate, Qle_bool, Qceiling, Qfloor.
  simpl. rewrite Z.mul_1_r.
  destruct (Z.leb_spec 0 n) as [Hn | Hn].
  - apply Z.quot_div_nonneg; lia.
  - replace n with (- (- n))%Z at 1 by lia.
    rewrite Z.quot_opp_l by lia.
    rewrite Z.quot_div_nonneg by lia. reflexivity.
Qed.

Lemma truncate_comp (x y : Q) : x == y -> JS.truncate x = JS.truncate y.
Proof.
  intro H. rewrite !truncate_floor_ceiling.
  rewrite (Qfloor_comp _ _ H), (Qceiling_comp _ _ H).
  replace (Qle_bool 0 y) with (Qle_bool 0 x); [reflexivity|].
  destruct (Qle_bool 0 x) eqn:Ex, (Qle_bool 0 y) eqn:Ey; try reflexivity.
  - apply Qle_bool_iff in Ex. rewrite H in Ex.
    apply Qle_bool_iff in Ex. congruence.
  - apply Qle_bool_iff in Ey. rewrite <- H in Ey.
    apply Qle_bool_iff in Ey. congruence.
Qed.

Lemma ToInt16_comp (x y : Q) : x == y -> JS.ToInt16 x = JS.ToInt16 y.
Proof.
  intro H. unfold JS.ToInt16. rewrite (truncate_comp _ _ H). reflexivity.
Qed.

(** Truncation of a rational in [[lo, hi)] (integer bounds) stays there. *)
Lemma truncate_bounds (x : Q) (lo hi : Z) :
  (lo <= 0)%Z -> (0 < hi)%Z ->
  inject_Z lo <= x -> x < inject_Z hi ->
  (lo <= JS.truncate x < hi)%Z.
Proof.
  destruct x as [n d]. unfold JS.truncate, Qle, Qlt, inject_Z. simpl.
  intros Hlo Hhi Hl Hu.
  rewrite Z.mul_1_r in Hl, Hu.
  destruct (Z.le_gt_cases 0 n) as [Hn | Hn].
  - rewrite Z.quot_div_nonneg by lia. split.
    + pose proof (Z.div_pos n (Zpos d) Hn ltac:(lia)). lia.
    + apply Z.div_lt_upper_bound; lia.
  - replace n with (- (- n))%Z by lia.
    rewrite Z.quot_opp_l by lia.
    rewrite Z.quot_div_nonneg by lia. split.
    + assert ((- n) / Zpos d <= - lo)%Z; [|lia].
      apply Z.div_le_upper_bound; lia.
    + pose proof (Z.div_pos (- n) (Zpos d) ltac:(lia) ltac:(lia)). lia.
Qed.

(** Inside the int16 range the store conversion is plain truncation. *)
Lemma ToInt16_in_range (x : Q) :
  -32768 <= x -> x < 32768 -> JS.ToInt16 x = JS.truncate x.
Proof.
  intros Hl Hu. unfold JS.ToInt16.
  pose proof (truncate_bounds x (-32768) 32768
                ltac:(lia) ltac:(lia) Hl Hu) as [H1 H2].
  set (t := JS.truncate x) in *. cbv zeta.
  destruct (Z.le_gt_cases 0 t) as [Ht | Ht].
  - rewrite Z.mod_small by lia.
    destruct (Z.leb_spec 32768 t); [lia | reflexivity].
  - replace (t mod 65536)%Z with (t + 65536)%Z.
    + destruct (Z.leb_spec 32768 (t + 65536)); lia.
    + apply Z.mod_unique with (q := (-1)%Z); lia.
Qed.

End NumberFacts.

(** ** Resampler *)

Section ResamplerFacts.

Import Resampler.

Lemma quantize_in_range (x : Q) :
  -1 <= x -> x < 1 ->
  quantize x = JS.truncate (x * 32768) /\
  (-32768 <= JS.truncate (x * 32768) <= 32767)%Z.
Proof.
  intros Hl Hu. unfold quantize.
  assert (H1 : -32768 <= x * 32768) by lra.
  assert (H2 : x * 32768 < 32768) by lra.
  split.
  - apply ToInt16_in_range; assumption.
  - pose proof (truncate_bounds (x * 32768) (-32768) 32768
                  ltac:(lia) ltac:(lia) H1 H2). lia.
Qed.

End ResamplerFacts.

Section ResamplerClaims.

Import Resampler.

(** C1 (as stated, refuted): on the equal-rate path the code stores
    [buffer[i] * 32768] into an [Int16Array], which truncates toward zero;
    it does not compute [round(x * 32767)].  The sample 3/131072 lies in
    [-1,1], the code yields 0 and the specified formula yields 1. *)
Lemma resample_same_rate_not_round_32767 :
  (-1 <= 3 # 131072 /\ 3 # 131072 <= 1) /\
  audioResample [3 # 131072] targetRate = Some [0%Z] /\
  map spec_quantize [3 # 131072] = [1%Z] /\
  audioResample [3 # 131072] targetRate
    <> Some (map spec_quantize [3 # 131072]).
Proof.
  split; [split; lra|].
  split; [reflexivity|].
  split; [reflexivity|].
  vm_compute. discriminate.
Qed.

(** C1 (amended): when the source rate equals the target rate and every
    sample lies in [-1, 1), [audioResample] (in both revisions of the file)
    returns an int16 list of the length of the input whose i-th element is
    [input[i] * 32768] truncated toward zero, a value of
    [-32768, 32767]. *)
Theorem resample_same_rate_truncates (buffer : list Q) (sampleRate : Q)
  (Hrate : sampleRate == targetRate)
  (Hrange : Forall (fun x => -1 <= x /\ x < 1) buffer) :
  exists res,
    audioResample buffer sampleRate = Some res /\
    audioResample' buffer sampleRate = Some res /\
    List.length res = List.length buffer /\
    forall i x, nth_error buffer i = Some x ->
      nth_error res i = Some (JS.truncate (x * 32768)) /\
      (-32768 <= JS.truncate (x * 32768) <= 32767)%Z.
Proof.
  exists (map quantize buffer).
  unfold audioResample, audioResample'.
  rewrite (Qeq_eq_bool _ _ Hrate).
  split; [reflexivity|]. split; [reflexivity|].
  split; [apply length_map|].
  intros i x Hi.
  rewrite nth_error_map, Hi. simpl.
  assert (Hx : -1 <= x /\ x < 1).
  { rewrite Forall_forall in Hrange. apply Hrange.
    eapply nth_error_In; eassumption. }
  destruct Hx as [Hl Hu].
  destruct (quantize_in_range x Hl Hu) as [Hq Hb].
  rewrite Hq. split; [reflexivity | exact Hb].
Qed.

Lemma resample_same_rate_truncates_witness :
  exists res,
    audioResample [0; 1 # 2; -(1 # 2); -1; 3 # 131072] 16000 = Some res /\
    audioResample' [0; 1 # 2; -(1 # 2); -1; 3 # 131072] 16000 = Some res /\
    List.length res = 5%nat /\
    forall i x,
      nth_error [0; 1 # 2; -(1 # 2); -1; 3 # 131072] i = Some x ->
      nth_error res i = Some (JS.truncate (x * 32768)) /\
      (-32768 <= JS.truncate (x * 32768) <= 32767)%Z.
Proof.
  apply (resample_same_rate_truncates
           [0; 1 # 2; -(1 # 2); -1; 3 # 131072] 16000).
  - reflexivity.
  - repeat constructor; cbv; congruence.
Defined.

(** The decimation loop never leaves the buffer: for a positive ratio and
    [i < ceil(len / ratio)], [0 <= floor(i * ratio) < len]. *)
Lemma originalIndex_in_bounds (len : nat) (ratio : Q) (i : nat) :
  0 < ratio ->
  (Z.of_nat i < Qceiling (inject_Z (Z.of_nat len) / ratio))%Z ->
  (0 <= originalIndex ratio i < Z.of_nat len)%Z.
Proof.
  intros Hr Hi. unfold originalIndex.
  set (q := inject_Z (Z.of_nat i) * ratio).
  assert (Hi0 : 0 <= inject_Z (Z.of_nat i)).
  { change 0 with (inject_Z 0). rewrite <- Zle_Qle. lia. }
  assert (Hq0 : 0 <= q) by (unfold q; nra).
  split.
  - rewrite <- (Qfloor_Z 0). apply Qfloor_resp_le. exact Hq0.
  - assert (Hlt : inject_Z (Z.of_nat i) < inject_Z (Z.of_nat len) / ratio).
    { eapply Qle_lt_trans; [|apply Qceiling_lt].
      rewrite <- Zle_Qle. lia. }
    assert (Hq : q < inject_Z (Z.of_nat len)).
    { unfold q.
      setoid_replace (inject_Z (Z.of_nat len))
        with (inject_Z (Z.of_nat len) / ratio * ratio)
        by (field; lra).
      apply Qmult_lt_r; assumption. }
    rewrite Zlt_Qlt.
    eapply Qle_lt_trans; [apply Qfloor_le | exact Hq].
Qed.


(** The length of the output: for a positive ratio it is
    [ceil(len / ratio)]; for any other ratio the allocation either throws
    or gives an empty array. *)
Lemma newLength_positive (len : nat) (ratio : Q) :
  0 < ratio ->
  exists n, newLength len ratio = Some n /\
            Z.of_nat n = Qceiling (inject_Z (Z.of_nat len) / ratio).
Proof.
  intro Hr. unfold newLength.
  destruct (Qeq_bool ratio 0) eqn:E0.
  { apply Qeq_bool_eq in E0. lra. }
  assert (Hlen0 : 0 <= inject_Z (Z.of_nat len) / ratio).
  { apply Qle_shift_div_l; [exact Hr|]. rewrite Qmult_0_l.
    change 0 with (inject_Z 0). rewrite <- Zle_Qle. lia. }
  assert (Hc0 : (0 <= Qceiling (inject_Z (Z.of_nat len) / ratio))%Z).
  { rewrite <- (Qceiling_Z 0). apply Qceiling_resp_le. exact Hlen0. }
  unfold JS.newInt16Array.
  destruct (Z.ltb_spec (Qceiling (inject_Z (Z.of_nat len) / ratio)) 0);
    [lia|].
  eexists. split; [reflexivity|]. apply Z2Nat.id. exact Hc0.
Qed.










End ResamplerClaims.

(** ** Playback scheduler *)

Section PlaybackFacts.

Import Playback.

Lemma schedule_next (now d : Q) (s : Scheduler) :
  nextStartTime (scheduleBuffer now d s)
  == Qmax (nextStartTime s) now + d.
Proof.
  unfold scheduleBuffer. simpl.
  destruct (JS.ltb (nextStartTime s) now) eqn:E.
  - apply ltb_lt in E. rewrite Q.max_r by lra. reflexivity.
  - apply ltb_ge in E. rewrite Q.max_l by lra. reflexivity.
Qed.

Lemma schedule_started (now d : Q) (s : Scheduler) :
  exists src,
    started (scheduleBuffer now d s) = started s ++ [src] /\
    audioSources (scheduleBuffer now d s) = audioSources s ++ [src] /\
    src_when src == Qmax (nextStartTime s) now /\
    src_duration src = d /\
    nextStartTime (scheduleBuffer now d s) = src_end src.
Proof.
  unfold scheduleBuffer. simpl.
  eexists. split; [reflexivity|]. split; [reflexivity|]. simpl.
  split; [|split; reflexivity].
  destruct (JS.ltb (nextStartTime s) now) eqn:E.
  - apply ltb_lt in E. rewrite Q.max_r by lra. reflexivity.
  - apply ltb_ge in E. rewrite Q.max_l by lra. reflexivity.
Qed.

(** The sources added by a run of submissions: they are back to back, the
    first one does not start before the previous [nextStartTime], and
    each one carries the duration submitted and starts no earlier than
    its own clock reading. *)
Lemma submitAll_spec (subs : list (Q * Q)) :
  forall s, exists news,
    started (submitAll subs s) = started s ++ news /\
    audioSources (submitAll subs s) = audioSources s ++ news /\
    backToBack news /\
    match news with
    | [] => nextStartTime (submitAll subs s) = nextStartTime s
    | x :: _ => nextStartTime s <= src_when x
    end /\
    Forall2 (fun src sub => fst sub <= src_when src /\
                            src_duration src = snd sub) news subs.
Proof.
  induction subs as [|[now d] rest IH]; intro s.
  - exists []. simpl. rewrite !app_nil_r. repeat split; constructor.
  - cbn [submitAll].
    change (onmessage now (audioMsg d) s) with (scheduleBuffer now d s).
    destruct (schedule_started now d s)
      as (src & Hst & Hau & Hwhen & Hdur & Hnext).
    destruct (IH (scheduleBuffer now d s))
      as (news & Hst' & Hau' & Hbb & Hhd & Hall).
    exists (src :: news).
    rewrite Hst', Hau', Hst, Hau, <- !app_assoc. simpl.
    split; [reflexivity|]. split; [reflexivity|].
    assert (Hmax1 : nextStartTime s <= Qmax (nextStartTime s) now)
      by apply Q.le_max_l.
    assert (Hmax2 : now <= Qmax (nextStartTime s) now)
      by apply Q.le_max_r.
    split; [split; [|exact Hbb]|].
    + destruct news as [|y news']; [exact I|].
      rewrite <- Hnext. exact Hhd.
    + split; [lra|].
      constructor; [|exact Hall]. simpl. split; [lra | exact Hdur].
Qed.

(** C3: a new buffer of duration [d] handled at clock reading [now] is
    started at [max(nextStart, now)] and leaves [nextStart = start + d];
    any run of buffers is scheduled back to back, never overlapping; and
    buffers of 1.0, 0.5 and 2.0 seconds handled at the same clock reading
    start at [t0], [t0 + 1.0] and [t0 + 1.5] with [t0 >= now]. *)
Theorem playback_schedule_back_to_back :
  (forall s now d, exists src,
      started (onmessage now (audioMsg d) s) = started s ++ [src] /\
      audioSources (onmessage now (audioMsg d) s)
        = audioSources s ++ [src] /\
      src_when src == Qmax (nextStartTime s) now /\
      src_duration src = d /\
      nextStartTime (onmessage now (audioMsg d) s) = src_when src + d) /\
  (forall subs s, exists news,
      started (submitAll subs s) = started s ++ news /\
      backToBack news /\
      Forall2 (fun src sub => fst sub <= src_when src /\
                              src_duration src = snd sub) news subs) /\
  (forall s now, exists a b c,
      let t0 := Qmax (nextStartTime s) now in
      started (submitAll [(now, 1); (now, 1 # 2); (now, 2)] s)
        = started s ++ [a; b; c] /\
      now <= t0 /\
      src_when a == t0 /\
      src_when b == t0 + 1 /\
      src_when c == t0 + (3 # 2) /\
      src_end a == src_when b /\
      src_end b == src_when c).
Proof.
  split; [|split].
  - intros s now d.
    change (onmessage now (audioMsg d) s) with (scheduleBuffer now d s).
    destruct (schedule_started now d s)
      as (src & Hst & Hau & Hwhen & Hdur & Hnext).
    exists src. rewrite Hnext. unfold src_end. rewrite Hdur. auto.
  - intros subs s.
    destruct (submitAll_spec subs s) as (news & Hst & _ & Hbb & _ & Hall).
    exists news. auto.
  - intros s now. cbn [submitAll].
    change (onmessage now (audioMsg 1) s) with (scheduleBuffer now 1 s).
    change (onmessage now (audioMsg (1 # 2)) (scheduleBuffer now 1 s))
      with (scheduleBuffer now (1 # 2) (scheduleBuffer now 1 s)).
    change (onmessage now (audioMsg 2)
              (scheduleBuffer now (1 # 2) (scheduleBuffer now 1 s)))
      with (scheduleBuffer now 2
              (scheduleBuffer now (1 # 2) (scheduleBuffer now 1 s))).
    destruct (schedule_started now 1 s)
      as (a & Ha & _ & Hwa & Hda & Hna).
    set (s1 := scheduleBuffer now 1 s) in *.
    destruct (schedule_started now (1 # 2) s1)
      as (b & Hb & _ & Hwb & Hdb & Hnb).
    set (s2 := scheduleBuffer now (1 # 2) s1) in *.
    destruct (schedule_started now 2 s2)
      as (c & Hc & _ & Hwc & Hdc & Hnc).
    exists a, b, c.
    rewrite Hc, Hb, Ha, <- !app_assoc. simpl.
    pose proof (Q.le_max_r (nextStartTime s) now) as Hmax.
    unfold src_end in *. rewrite Hna in Hwb. rewrite Hnb in Hwc.
    rewrite Hda in *. rewrite Hdb in *.
    assert (Hb' : src_when b == Qmax (nextStartTime s) now + 1).
    { rewrite Hwb. rewrite Q.max_l by lra. lra. }
    assert (Hc' : src_when c == Qmax (nextStartTime s) now + (3 # 2)).
    { rewrite Hwc. rewrite Q.max_l by lra. lra. }
    repeat split; try assumption; lra.
Qed.

Example threeBuffers_starts :
  map src_when (started threeBuffers) = [0; 0 + 1; 0 + 1 + (1 # 2)] /\
  nextStartTime threeBuffers == 7 # 2.
Proof. split; reflexivity. Qed.

(** C4 (as stated, refuted): the interruption handler does not read the
    output clock; it sets [nextStartTime] to 0.  After the three buffers
    of the scenario, an interruption at clock time 1.2 leaves
    [nextStartTime] at 0, not at 1.2. *)
Lemma interrupt_does_not_reset_to_clock :
  nextStartTime (onmessage (6 # 5) interruptMsg threeBuffers) == 0 /\
  ~ nextStartTime (onmessage (6 # 5) interruptMsg threeBuffers) == 6 # 5.
Proof.
  split.
  - reflexivity.
  - cbv. discriminate.
Qed.

(** The start times given to a run of submissions depend on the
    scheduler only through [nextStartTime]. *)
Lemma submitAll_same_times (subs : list (Q * Q)) :
  forall s1 s2,
    nextStartTime s1 = nextStartTime s2 ->
    exists n1 n2,
      started (submitAll subs s1) = started s1 ++ n1 /\
      started (submitAll subs s2) = started s2 ++ n2 /\
      map src_when n1 = map src_when n2.
Proof.
  induction subs as [|[now d] rest IH]; intros s1 s2 Hnext.
  - exists [], []. simpl. rewrite !app_nil_r. auto.
  - cbn [submitAll].
    change (onmessage now (audioMsg d) s1) with (scheduleBuffer now d s1).
    change (onmessage now (audioMsg d) s2) with (scheduleBuffer now d s2).
    destruct (IH (scheduleBuffer now d s1) (scheduleBuffer now d s2))
      as (n1 & n2 & H1 & H2 & Heq).
    { unfold scheduleBuffer. simpl. rewrite Hnext. reflexivity. }
    eexists (_ :: n1), (_ :: n2).
    rewrite H1, H2. unfold scheduleBuffer. simpl.
    rewrite <- !app_assoc. simpl.
    split; [reflexivity|]. split; [reflexivity|].
    simpl. rewrite Hnext, Heq. reflexivity.
Qed.

(** C4 (amended): on a message carrying [interrupted], every source still
    in the pending set (including one scheduled by the same message) is
    stopped, the set is cleared, the talking indicator is switched off and
    [nextStartTime] is reset to 0, not to the clock; every buffer
    submitted afterwards starts, through [max(nextStart, now)], no earlier
    than the clock reading of its submission, and not at a previously
    queued position: the buffers are started back to back at the times a
    fresh scheduler would give them, the first one at [max(0, now')]. *)
Theorem interrupt_flushes_and_rewinds
  (s : Scheduler) (now : Q) (m : Message) (subs : list (Q * Q))
  (Hint : interrupted m = true) :
  let s' := onmessage now m s in
  audioSources s' = [] /\
  (forall x, In x (audioSources s) -> In x (stopped s')) /\
  (forall x, In x (started s') -> ~ In x (started s) -> In x (stopped s')) /\
  isAiTalking s' = false /\
  nextStartTime s' = 0 /\
  exists news,
    started (submitAll subs s') = started s' ++ news /\
    audioSources (submitAll subs s') = news /\
    Forall2 (fun src sub => fst sub <= src_when src /\
                            src_duration src = snd sub) news subs /\
    backToBack news /\
    map src_when news = map src_when (started (submitAll subs initial)) /\
    match news, subs with
    | src :: _, (now', _) :: _ => src_when src == Qmax 0 now'
    | _, _ => True
    end.
Proof.
  intro s'.
  assert (Hs' : exists s1,
             s' = handleInterrupted s1 /\
             (forall x, In x (audioSources s) -> In x (audioSources s1)) /\
             (forall x, In x (started s1) -> ~ In x (started s) ->
                        In x (audioSources s1))).
  { unfold s', onmessage. rewrite Hint.
    destruct (audio m) as [dur|].
    - exists (scheduleBuffer now dur s). split; [reflexivity|].
      destruct (schedule_started now dur s)
        as (src & Hst & Hau & _).
      rewrite Hst, Hau. split.
      + intros x Hx. apply in_or_app. left. exact Hx.
      + intros x Hx Hnot. apply in_app_or in Hx.
        destruct Hx as [Hx | Hx]; [contradiction|].
        apply in_or_app. right. exact Hx.
    - exists s. split; [reflexivity|]. split; [auto|].
      intros x Hx Hnot. contradiction. }
  destruct Hs' as (s1 & Heq & Hold & Hnew).
  assert (Hnext : nextStartTime s' = 0) by (rewrite Heq; reflexivity).
  assert (Hau : audioSources s' = []) by (rewrite Heq; reflexivity).
  split; [exact Hau|].
  split.
  { intros x Hx. rewrite Heq. simpl. apply in_or_app. right. auto. }
  split.
  { intros x Hx Hnot. rewrite Heq in Hx |- *. simpl in *.
    apply in_or_app. right. auto. }
  split; [rewrite Heq; reflexivity|].
  split; [exact Hnext|].
  destruct (submitAll_spec subs s')
    as (news & Hst & Haus & Hbb & _ & Hall).
  exists news. rewrite Hau in Haus.
  split; [exact Hst|]. split; [exact Haus|].
  split; [exact Hall|]. split; [exact Hbb|]. split.
  - destruct (submitAll_same_times subs s' initial Hnext)
      as (n1 & n2 & H1 & H2 & Htimes).
    rewrite Hst in H1. apply app_inv_head in H1. subst n1.
    rewrite H2. simpl. exact Htimes.
  - destruct subs as [|[now' d] rest]; [destruct news; exact I|].
    destruct news as [|src news']; [exact I|].
    cbn [submitAll] in Hst.
    change (onmessage now' (audioMsg d) s')
      with (scheduleBuffer now' d s') in Hst.
    destruct (schedule_started now' d s')
      as (src0 & Hst0 & _ & Hwhen & _).
    destruct (submitAll_spec rest (scheduleBuffer now' d s'))
      as (more & Hst1 & _).
    rewrite Hst1, Hst0, <- app_assoc in Hst.
    apply app_inv_head in Hst. simpl in Hst.
    injection Hst as <- _. rewrite Hwhen, Hnext. reflexivity.
Qed.

Lemma interrupt_flushes_and_rewinds_witness :
  audioSources (onmessage (6 # 5) interruptMsg threeBuffers) = [] /\
  nextStartTime (onmessage (6 # 5) interruptMsg threeBuffers) = 0 /\
  exists news,
    audioSources
      (submitAll [(13 # 10, 1); (21 # 10, 1 # 2)]
         (onmessage (6 # 5) interruptMsg threeBuffers)) = news /\
    map src_when news
      = map src_when
          (started (submitAll [(13 # 10, 1); (21 # 10, 1 # 2)] initial)).
Proof.
  destruct (interrupt_flushes_and_rewinds
              threeBuffers (6 # 5) interruptMsg
              [(13 # 10, 1); (21 # 10, 1 # 2)] eq_refl)
    as (H1 & _ & _ & _ & H2 & news & _ & H3 & _ & _ & H4 & _).
  split; [exact H1|]. split; [exact H2|].
  exists news. split; [exact H3 | exact H4].
Defined.

End PlaybackFacts.

(** ** Live session start *)

Section SessionFacts.

Import Session.

Variable b : Browser.
Variable name : string.
Variable stream : MediaStream.
Hypothesis Hgum : hasGetUserMedia b = true.
Hypothesis Hfail : getUserMedia b true = Rejected name.
Hypothesis Hok : getUserMedia b false = Granted stream.

Lemma enableCamera_fallback (c : Component) :
  enableCamera b c
  = handleStreamSuccess stream false
      (mkComponent (setPermissionError false (setError None (state c)))
                   (setStreamRef None (refs c))).
Proof.
  unfold enableCamera. rewrite Hgum, Hfail, Hok. reflexivity.
Qed.

Lemma enableCamera_fallback_state (c : Component) :
  audioInputAvailable (state (enableCamera b c)) = false /\
  isCameraEnabled (state (enableCamera b c)) = true /\
  error (state (enableCamera b c)) = None /\
  streamRef (refs (enableCamera b c)) = Some stream /\
  scriptProcessorRef (refs (enableCamera b c))
    = scriptProcessorRef (refs c).
Proof.
  rewrite enableCamera_fallback. repeat split.
Qed.

End SessionFacts.

Section SessionClaims.

Import Session.

(** C5: when the combined audio+video request is rejected and the
    video-only retry is granted, [enableCamera] records
    [audioInputAvailable = false] and reports no error; a session started
    afterwards reaches the live state without creating the script
    processor; and a session started directly (the handler acquiring the
    camera itself, its closure still holding the earlier value of
    [audioInputAvailable]) creates none either, the video-only stream
    having no audio track. *)
Theorem session_video_only_fallback
  (b : Browser) (name : string) (stream : MediaStream) (c : Component)
  (Hgum : hasGetUserMedia b = true)
  (Hfail : getUserMedia b true = Rejected name)
  (Hok : getUserMedia b false = Granted stream) :
  (audioInputAvailable (state (enableCamera b c)) = false /\
   isCameraEnabled (state (enableCamera b c)) = true /\
   error (state (enableCamera b c)) = None /\
   streamRef (refs (enableCamera b c)) = Some stream) /\
  (exists c2,
      enableThenStart b c = Connecting c2 /\
      audioInputAvailable (state c2) = false /\
      scriptProcessorRef (refs c2) = scriptProcessorRef (refs c) /\
      inputGainNodeRef (refs c2) = inputGainNodeRef (refs c) /\
      isActive (state c2) = true /\
      error (state c2) = None) /\
  (audioTracks stream = 0%nat ->
   isCameraEnabled (state c) = false \/ streamRef (refs c) = None ->
   exists c2,
      startSession b c = Connecting c2 /\
      audioInputAvailable (state c2) = false /\
      scriptProcessorRef (refs c2) = scriptProcessorRef (refs c) /\
      inputGainNodeRef (refs c2) = inputGainNodeRef (refs c) /\
      isActive (state c2) = true /\
      error (state c2) = None).
Proof.
  pose proof (enableCamera_fallback b name stream Hgum Hfail Hok) as Heq.
  destruct (enableCamera_fallback_state b name stream Hgum Hfail Hok c)
    as (Ha & Hc & He & Hs & Hp).
  split; [auto|]. split.
  - unfold enableThenStart, startSession, handleStartSession.
    rewrite Hc, Hs. simpl.
    eexists. split; [reflexivity|]. simpl.
    rewrite Ha, Heq. simpl. repeat split.
  - intros Hno Hnot.
    unfold startSession, handleStartSession.
    assert (Hcond : (negb (isCameraEnabled (state c))
                     || isNone (streamRef (refs c)))%bool = true).
    { destruct Hnot as [H | H]; rewrite H; simpl;
        [reflexivity | apply orb_true_r]. }
    rewrite Hcond, Hs. simpl.
    eexists. split; [reflexivity|]. simpl.
    rewrite Hno, Heq. simpl.
    rewrite andb_false_r. repeat split.
Qed.

Lemma session_video_only_fallback_witness :
  audioInputAvailable (state (enableCamera noMicBrowser mounted)) = false /\
  (exists c2,
      enableThenStart noMicBrowser mounted = Connecting c2 /\
      scriptProcessorRef (refs c2) = false /\
      isActive (state c2) = true) /\
  (exists c2,
      startSession noMicBrowser mounted = Connecting c2 /\
      audioInputAvailable (state c2) = false /\
      scriptProcessorRef (refs c2) = false).
Proof.
  destruct (session_video_only_fallback
              noMicBrowser "NotFoundError"%string (mkStream 0 1) mounted
              eq_refl eq_refl eq_refl)
    as ((H1 & _) & (c2 & H2 & _ & H3 & _ & H4 & _) & H5).
  split; [exact H1|]. split.
  - exists c2. auto.
  - destruct (H5 eq_refl (or_introl eq_refl))
      as (c3 & H6 & H7 & H8 & _).
    exists c3. auto.
Defined.

End SessionClaims.

(** ** Timeline monitor *)

Section ProcessedSet.

Import Types Timeline.

Lemma Qeq_bool_shift (x t u : Q) :
  Qeq_bool t u = true -> Qeq_bool x t = Qeq_bool x u.
Proof.
  intro H. apply Qeq_bool_eq in H.
  destruct (Qeq_bool x t) eqn:E1, (Qeq_bool x u) eqn:E2; try reflexivity.
  - apply Qeq_bool_eq in E1. apply Qeq_bool_neq in E2.
    exfalso. apply E2. rewrite E1. exact H.
  - apply Qeq_bool_eq in E2. apply Qeq_bool_neq in E1.
    exfalso. apply E1. rewrite E2. symmetry. exact H.
Qed.

Lemma setHas_comp (P : list Q) (t u : Q) :
  t == u -> setHas P t = setHas P u.
Proof.
  intro H. unfold setHas. induction P as [|x P IH]; [reflexivity|].
  simpl. rewrite IH. f_equal.
  apply Qeq_bool_shift. apply Qeq_eq_bool. exact H.
Qed.

Lemma setHas_delete (P : list Q) (t u : Q) :
  setHas (setDelete u P) t = (setHas P t && negb (Qeq_bool t u))%bool.
Proof.
  unfold setHas, setDelete. induction P as [|x P IH]; [reflexivity|].
  simpl. destruct (Qeq_bool x u) eqn:Exu; simpl.
  - rewrite IH. destruct (Qeq_bool x t) eqn:Ext; [|reflexivity]. simpl.
    assert (Htu : Qeq_bool t u = true).
    { apply Qeq_eq_bool. apply Qeq_bool_eq in Exu, Ext.
      rewrite <- Ext. exact Exu. }
    rewrite Htu. simpl. apply andb_false_r.
  - rewrite IH. destruct (Qeq_bool x t) eqn:Ext; [|reflexivity]. simpl.
    assert (Htu : Qeq_bool t u = false).
    { destruct (Qeq_bool t u) eqn:E; [|reflexivity].
      rewrite (Qeq_bool_shift x t u E) in Ext. congruence. }
    rewrite Htu. reflexivity.
Qed.

Lemma setHas_app (P R : list Q) (t : Q) :
  setHas (P ++ R) t = (setHas P t || setHas R t)%bool.
Proof. unfold setHas. apply existsb_app. Qed.

Lemma setHas_add (P : list Q) (t u : Q) :
  setHas (setAdd u P) t = (setHas P t || Qeq_bool u t)%bool.
Proof.
  unfold setAdd. destruct (setHas P u) eqn:E.
  - destruct (Qeq_bool u t) eqn:Eut; [|symmetry; apply orb_false_r].
    rewrite <- (setHas_comp P u t) by (apply Qeq_bool_eq; exact Eut).
    rewrite E. reflexivity.
  - rewrite setHas_app. unfold setHas at 2. simpl.
    rewrite orb_false_r. reflexivity.
Qed.

(** The flags after the backward-seek sweep: a timestamp keeps its flag
    unless some event beyond [curr] carries it. *)
Lemma setHas_clearAfter (events : list TimestampEntry) (curr : Q) :
  forall (P : list Q) (t : Q),
    setHas (clearAfter events curr P) t
    = (setHas P t
       && negb (existsb (fun e => JS.gtb (timestamp e) curr
                                  && Qeq_bool t (timestamp e)) events))%bool.
Proof.
  unfold clearAfter.
  induction events as [|e events IH]; intros P t; simpl.
  - symmetry. apply andb_true_r.
  - rewrite IH. destruct (JS.gtb (timestamp e) curr); simpl.
    + rewrite setHas_delete, negb_orb, andb_assoc. reflexivity.
    + reflexivity.
Qed.

Lemma clearAfter_beyond (events : list TimestampEntry) (curr : Q)
  (P : list Q) (e : TimestampEntry) :
  In e events -> curr < timestamp e ->
  setHas (clearAfter events curr P) (timestamp e) = false.
Proof.
  intros Hin Hgt. rewrite setHas_clearAfter.
  replace (existsb _ events) with true; [apply andb_false_r|].
  symmetry. apply existsb_exists. exists e. split; [exact Hin|].
  apply andb_true_intro. split.
  - apply gtb_gt. exact Hgt.
  - apply Qeq_bool_refl.
Qed.

Lemma clearAfter_within (events : list TimestampEntry) (curr : Q)
  (P : list Q) (t : Q) :
  t <= curr ->
  setHas (clearAfter events curr P) t = setHas P t.
Proof.
  intro Hle. rewrite setHas_clearAfter.
  replace (existsb _ events) with false; [apply andb_true_r|].
  symmetry. apply not_true_iff_false. intro H.
  apply existsb_exists in H. destruct H as (e & _ & H).
  apply andb_prop in H. destruct H as [Hgt Heq].
  apply gtb_gt in Hgt. apply Qeq_bool_eq in Heq. lra.
Qed.

End ProcessedSet.

Section TimelineFacts.

Import Types Timeline.

Lemma running_guard (s : Page) (v : Video) :
  running s = Some v ->
  video s = Some v /\ smartPlayEnabled s = true /\ paused v = false.
Proof.
  unfold running. destruct (video s) as [w|]; [|discriminate].
  destruct (smartPlayEnabled s), (paused w) eqn:E; simpl;
    try discriminate.
  intro H. injection H as <-. auto.
Qed.

Lemma afterSeekCheck_forward (events : list TimestampEntry)
  (prev curr : Q) (P : list Q) :
  prev - (1 # 2) <= curr -> afterSeekCheck events prev curr P = P.
Proof.
  intro H. unfold afterSeekCheck.
  destruct (JS.ltb curr (prev - (1 # 2))) eqn:E; [|reflexivity].
  apply ltb_lt in E. lra.
Qed.

Lemma afterSeekCheck_backward (events : list TimestampEntry)
  (prev curr : Q) (P : list Q) :
  curr < prev - (1 # 2) ->
  afterSeekCheck events prev curr P = clearAfter events curr P.
Proof.
  intro H. unfold afterSeekCheck.
  destruct (JS.ltb curr (prev - (1 # 2))) eqn:E; [reflexivity|].
  apply ltb_ge in E. lra.
Qed.

Lemma isMatch_spec (prev curr : Q) (P : list Q) (t : TimestampEntry) :
  isMatch prev curr P t = true <->
  prev <= timestamp t /\ timestamp t <= curr /\
  setHas P (timestamp t) = false.
Proof.
  unfold isMatch. rewrite !andb_true_iff, negb_true_iff.
  rewrite leb_le, geb_ge. tauto.
Qed.

Lemma findMatch_none_backward (events : list TimestampEntry)
  (prev curr : Q) (P : list Q) :
  curr < prev -> findMatch events prev curr P = None.
Proof.
  intro H. unfold findMatch.
  destruct (find (isMatch prev curr P) events) as [m|] eqn:E;
    [|reflexivity].
  apply find_some in E. destruct E as [_ E].
  apply isMatch_spec in E. lra.
Qed.

Lemma setDelete_noop (u : Q) (P : list Q) :
  Forall (fun x => ~ x == u) P -> setDelete u P = P.
Proof.
  unfold setDelete. induction 1 as [|x P Hx _ IH]; [reflexivity|].
  simpl. destruct (Qeq_bool x u) eqn:E.
  - apply Qeq_bool_eq in E. contradiction.
  - simpl. rewrite IH. reflexivity.
Qed.

(** The sweep changes nothing when every flagged timestamp is at or
    before the current position. *)
Lemma clearAfter_noop (events : list TimestampEntry) (curr : Q) :
  forall P, Forall (fun t => t <= curr) P -> clearAfter events curr P = P.
Proof.
  unfold clearAfter.
  induction events as [|e events IH]; intros P HP; [reflexivity|].
  simpl. destruct (JS.gtb (timestamp e) curr) eqn:E.
  - apply gtb_gt in E. rewrite setDelete_noop; [apply IH; exact HP|].
    eapply Forall_impl; [|exact HP]. simpl. intros x Hx Heq. lra.
  - apply IH. exact HP.
Qed.

Lemma afterSeekCheck_noop (events : list TimestampEntry)
  (prev curr : Q) (P : list Q) :
  Forall (fun t => t <= curr) P -> afterSeekCheck events prev curr P = P.
Proof.
  intro HP. unfold afterSeekCheck.
  destruct (JS.ltb curr (prev - (1 # 2))); [|reflexivity].
  apply clearAfter_noop. exact HP.
Qed.

(** While [prev <= curr] can hold for some event, no sweep happens. *)
Lemma findMatch_afterSeekCheck (events : list TimestampEntry)
  (prev curr : Q) (P : list Q) :
  findMatch events prev curr (afterSeekCheck events prev curr P)
  = findMatch events prev curr P.
Proof.
  destruct (Qlt_le_dec curr prev) as [Hlt | Hle].
  - rewrite !findMatch_none_backward by exact Hlt. reflexivity.
  - rewrite afterSeekCheck_forward by lra. reflexivity.
Qed.

(** [find] returns the first element satisfying the predicate. *)
Lemma find_first {A} (f : A -> bool) (l : list A) (m : A) :
  find f l = Some m ->
  exists l1 l2, l = l1 ++ m :: l2 /\ f m = true /\
                forall x, In x l1 -> f x = false.
Proof.
  induction l as [|a l IH]; [discriminate|].
  simpl. destruct (f a) eqn:E.
  - intro H. injection H as <-. exists [], l. repeat split; auto.
    intros x [].
  - intro H. destruct (IH H) as (l1 & l2 & -> & Hm & Hl1).
    exists (a :: l1), l2. repeat split; auto.
    intros x [<- | Hx]; auto.
Qed.

Lemma sorted_after (l1 l2 : list TimestampEntry) (m : TimestampEntry) :
  StronglySorted byTimestamp (l1 ++ m :: l2) ->
  forall x, In x l2 -> timestamp m <= timestamp x.
Proof.
  induction l1 as [|a l1 IH]; simpl; intros H x Hx.
  - apply StronglySorted_inv in H. destruct H as [_ H].
    rewrite Forall_forall in H. apply H. exact Hx.
  - apply StronglySorted_inv in H. destruct H as [H _].
    apply IH; assumption.
Qed.

Lemma run_app (events : list TimestampEntry) (t1 t2 : list Event) :
  forall s, run events (t1 ++ t2) s = run events t2 (run events t1 s).
Proof.
  induction t1 as [|e t1 IH]; intro s; [reflexivity|]. simpl. apply IH.
Qed.

Lemma triggers_app (events : list TimestampEntry) (t1 t2 : list Event) :
  forall s, triggers events (t1 ++ t2) s
            = triggers events t1 s
              ++ triggers events t2 (run events t1 s).
Proof.
  induction t1 as [|e t1 IH]; intro s; [reflexivity|].
  simpl. rewrite IH, app_assoc. reflexivity.
Qed.

(** The first two events of a playback cycle: a pending dwell runs out
    and the position moves on. *)
Lemma scrub_prepare (P : list Q) (lo hi : option Q) (s : Page) (dt : Q) :
  scrubPhase P lo hi s ->
  exists c fb,
    run threeEvents [TimerFired; Advance dt] s
    = mkPage (Some (mkVideo (c + dt) false)) true fb P
             (lastCheckTime s) None /\
    match lo with Some l => l <= c | None => True end /\
    match hi with
    | Some h => c < h /\ lastCheckTime s <= h
    | None => True
    end.
Proof.
  intros (Hen & HP & v & Hv & Hdw & Hlo & Hhi).
  destruct s as [vid en fb P' p tm]. simpl in *. subst.
  destruct v as [c pz]. unfold dwellState in Hdw. simpl in *.
  destruct Hdw as [[Hp Ht] | [Hp Ht]]; subst.
  - exists c, fb. simpl. auto.
  - exists c, None. simpl. auto.
Qed.

(** A tick on a playing video, when no flagged timestamp lies beyond the
    position: the outcome is decided by [findMatch] on the flags as they
    are. *)
Lemma frame_on_playing (events : list TimestampEntry)
  (P : list Q) (c p : Q) (fb : option Feedback) (tm : option bool) :
  Forall (fun t => t <= c) P ->
  let s := mkPage (Some (mkVideo c false)) true fb P p tm in
  frameMatch events s = findMatch events p c P /\
  monitorFrames events s
  = match findMatch events p c P with
    | Some m => mkPage (Some (mkVideo (timestamp m) true)) true
                       (Some (feedbackOf m)) (setAdd (timestamp m) P)
                       c (Some true)
    | None => mkPage (Some (mkVideo c false)) true fb P c tm
    end.
Proof.
  intros HP s. unfold frameMatch, monitorFrames, running. simpl.
  rewrite afterSeekCheck_noop by exact HP. split; reflexivity.
Qed.

Ltac decide_isMatch :=
  match goal with
  | |- isMatch _ _ _ _ = false =>
      apply not_true_iff_false;
      let H := fresh in
      intro H; apply isMatch_spec in H; unfold plainEntry in H;
      simpl in H; destruct H as (? & ? & ?); first [lra | discriminate]
  | |- isMatch _ _ _ _ = true =>
      apply isMatch_spec; unfold plainEntry; simpl;
      repeat split; first [lra | reflexivity]
  end.

Ltac close_phase side :=
  simpl; unfold scrubPhase, dwellState; simpl;
  split; [reflexivity|]; split; [reflexivity|];
  eexists; split; [reflexivity|]; simpl;
  split; [side; split; reflexivity|];
  repeat split; try lra.

(** One playback cycle of the forward scrub either stays in its phase and
    presents nothing, or presents the next event and enters the next
    phase. *)
Lemma scrub_cycle (k : nat) (s : Page) (dt : Q) :
  0 < dt -> dt <= 1 -> scrubInv k s ->
  (scrubInv k (run threeEvents [TimerFired; Advance dt; Frame] s) /\
   triggers threeEvents [TimerFired; Advance dt; Frame] s = []) \/
  (scrubInv (S k) (run threeEvents [TimerFired; Advance dt; Frame] s) /\
   exists m, nth_error threeEvents k = Some m /\
     triggers threeEvents [TimerFired; Advance dt; Frame] s = [m]).
Proof.
  intros Hdt0 Hdt1 Hinv.
  assert (Hcyc : [TimerFired; Advance dt; Frame]
                 = [TimerFired; Advance dt] ++ [Frame]) by reflexivity.
  rewrite Hcyc, run_app, triggers_app. clear Hcyc.
  change (triggers threeEvents [TimerFired; Advance dt] s) with
    (@nil TimestampEntry).
  remember (run threeEvents [TimerFired; Advance dt] s) as s2 eqn:Es2.
  change (run threeEvents [Frame] s2) with (monitorFrames threeEvents s2).
  change ([] ++ triggers threeEvents [Frame] s2) with
    (match frameMatch threeEvents s2 with
     | Some m => [m]
     | None => []
     end ++ []).
  rewrite app_nil_r.
  destruct k as [|[|[|[|k]]]]; simpl in Hinv; [| | | |contradiction];
    destruct (scrub_prepare _ _ _ s dt Hinv) as (c & fb & Hs2 & Hlo & Hhi);
    rewrite Hs2 in Es2; subst s2; clear Hinv Hs2.
  - (* before the first event *)
    destruct Hhi as [Hc Hp].
    destruct (frame_on_playing threeEvents [] (c + dt) (lastCheckTime s)
                fb None ltac:(constructor)) as [-> ->].
    unfold findMatch, threeEvents. cbn [find].
    destruct (Qlt_le_dec (c + dt) 2) as [Hlt | Hge].
    + left.
      replace (isMatch _ _ _ (plainEntry 2 _)) with false
        by (symmetry; decide_isMatch).
      replace (isMatch _ _ _ (plainEntry 5 _)) with false
        by (symmetry; decide_isMatch).
      replace (isMatch _ _ _ (plainEntry 9 _)) with false
        by (symmetry; decide_isMatch).
      split; [|reflexivity].
      close_phase ltac:(left).
    + right.
      replace (isMatch _ _ _ (plainEntry 2 _)) with true
        by (symmetry; decide_isMatch).
      split; [|eexists; split; reflexivity].
      close_phase ltac:(right).
  - (* between the first and the second event *)
    destruct Hhi as [Hc Hp].
    destruct (frame_on_playing threeEvents [2] (c + dt) (lastCheckTime s)
                fb None ltac:(repeat constructor; lra)) as [-> ->].
    unfold findMatch, threeEvents. cbn [find].
    replace (isMatch _ _ _ (plainEntry 2 _)) with false
      by (symmetry; decide_isMatch).
    destruct (Qlt_le_dec (c + dt) 5) as [Hlt | Hge].
    + left.
      replace (isMatch _ _ _ (plainEntry 5 _)) with false
        by (symmetry; decide_isMatch).
      replace (isMatch _ _ _ (plainEntry 9 _)) with false
        by (symmetry; decide_isMatch).
      split; [|reflexivity].
      close_phase ltac:(left).
    + right.
      replace (isMatch _ _ _ (plainEntry 5 _)) with true
        by (symmetry; decide_isMatch).
      split; [|eexists; split; reflexivity].
      close_phase ltac:(right).
  - (* between the second and the third event *)
    destruct Hhi as [Hc Hp].
    destruct (frame_on_playing threeEvents [2; 5] (c + dt)
                (lastCheckTime s) fb None
                ltac:(repeat constructor; lra)) as [-> ->].
    unfold findMatch, threeEvents. cbn [find].
    replace (isMatch _ _ _ (plainEntry 2 _)) with false
      by (symmetry; decide_isMatch).
    replace (isMatch _ _ _ (plainEntry 5 _)) with false
      by (symmetry; decide_isMatch).
    destruct (Qlt_le_dec (c + dt) 9) as [Hlt | Hge].
    + left.
      replace (isMatch _ _ _ (plainEntry 9 _)) with false
        by (symmetry; decide_isMatch).
      split; [|reflexivity].
      close_phase ltac:(left).
    + right.
      replace (isMatch _ _ _ (plainEntry 9 _)) with true
        by (symmetry; decide_isMatch).
      split; [|eexists; split; reflexivity].
      close_phase ltac:(right).
  - (* past the third event *)
    destruct (frame_on_playing threeEvents [2; 5; 9] (c + dt)
                (lastCheckTime s) fb None
                ltac:(repeat constructor; lra)) as [-> ->].
    unfold findMatch, threeEvents. cbn [find].
    replace (isMatch _ _ _ (plainEntry 2 _)) with false
      by (symmetry; decide_isMatch).
    replace (isMatch _ _ _ (plainEntry 5 _)) with false
      by (symmetry; decide_isMatch).
    replace (isMatch _ _ _ (plainEntry 9 _)) with false
      by (symmetry; decide_isMatch).
    left. split; [|reflexivity].
    close_phase ltac:(left).
Qed.

Lemma scrubInv_bound (k : nat) (s : Page) : scrubInv k s -> (k <= 3)%nat.
Proof.
  destruct k as [|[|[|[|k]]]]; simpl; intro H; [lia | lia | lia | lia |].
  contradiction.
Qed.

(** Uninterrupted playback from phase [k] presents the events of the
    phases it crosses, in order, each once. *)
Lemma scrub_run (dts : list Q) :
  forall k s,
    Forall (fun dt => 0 < dt /\ dt <= 1) dts ->
    scrubInv k s ->
    exists k',
      (k <= k')%nat /\
      scrubInv k' (run threeEvents (playTrace dts) s) /\
      triggers threeEvents (playTrace dts) s
      = skipn k (firstn k' threeEvents).
Proof.
  induction dts as [|dt dts IH]; intros k s Hdts Hinv.
  - exists k. split; [lia|]. split; [exact Hinv|].
    destruct k as [|[|[|[|k]]]]; reflexivity.
  - apply Forall_cons_iff in Hdts. destruct Hdts as [[Hdt0 Hdt1] Hdts].
    change (playTrace (dt :: dts)) with
      ([TimerFired; Advance dt; Frame] ++ playTrace dts).
    rewrite run_app, triggers_app.
    destruct (scrub_cycle k s dt Hdt0 Hdt1 Hinv)
      as [[Hstay ->] | [Hnext (m & Hm & ->)]].
    + destruct (IH k _ Hdts Hstay) as (k' & Hle & Hinv' & ->).
      exists k'. auto.
    + destruct (IH (S k) _ Hdts Hnext) as (k' & Hle & Hinv' & ->).
      exists k'. split; [lia|]. split; [exact Hinv'|].
      pose proof (scrubInv_bound k' _ Hinv') as Hk'.
      destruct k as [|[|[|k]]]; destruct k' as [|[|[|[|k']]]];
        try lia; simpl in Hm; injection Hm as <-; reflexivity.
Qed.

Lemma playing_phase : scrubInv 0 playing.
Proof.
  simpl. unfold scrubPhase, dwellState, playing. simpl.
  repeat split. eexists. split; [reflexivity|]. simpl.
  split; [left; split; reflexivity|]. repeat split; lra.
Qed.

(** The events presented by a forward scrub from the start are exactly
    those whose timestamp the position has reached. *)
Lemma scrub_from_start (dts : list Q) :
  Forall (fun dt => 0 < dt /\ dt <= 1) dts ->
  map timestamp (triggers threeEvents (playTrace dts) playing)
  = filter (fun t => JS.leb t
              (position (run threeEvents (playTrace dts) playing)))
           [2; 5; 9].
Proof.
  intro Hdts.
  destruct (scrub_run dts 0%nat playing Hdts playing_phase)
    as (k & _ & Hinv & ->).
  set (s := run threeEvents (playTrace dts) playing) in *.
  destruct k as [|[|[|[|k]]]]; simpl in Hinv; [| | | |contradiction];
    destruct Hinv as (_ & _ & v & Hv & _ & Hlo & Hhi);
    unfold position; rewrite Hv; simpl.
  - destruct Hhi as [Hc _].
    replace (JS.leb 2 (currentTime v)) with false
      by (symmetry; apply leb_gt; lra).
    replace (JS.leb 5 (currentTime v)) with false
      by (symmetry; apply leb_gt; lra).
    replace (JS.leb 9 (currentTime v)) with false
      by (symmetry; apply leb_gt; lra).
    reflexivity.
  - destruct Hhi as [Hc _].
    replace (JS.leb 2 (currentTime v)) with true
      by (symmetry; apply leb_le; lra).
    replace (JS.leb 5 (currentTime v)) with false
      by (symmetry; apply leb_gt; lra).
    replace (JS.leb 9 (currentTime v)) with false
      by (symmetry; apply leb_gt; lra).
    reflexivity.
  - destruct Hhi as [Hc _].
    replace (JS.leb 2 (currentTime v)) with true
      by (symmetry; apply leb_le; lra).
    replace (JS.leb 5 (currentTime v)) with true
      by (symmetry; apply leb_le; lra).
    replace (JS.leb 9 (currentTime v)) with false
      by (symmetry; apply leb_gt; lra).
    reflexivity.
  - replace (JS.leb 2 (currentTime v)) with true
      by (symmetry; apply leb_le; lra).
    replace (JS.leb 5 (currentTime v)) with true
      by (symmetry; apply leb_le; lra).
    replace (JS.leb 9 (currentTime v)) with true
      by (symmetry; apply leb_le; lra).
    reflexivity.
Qed.

End TimelineFacts.

Section TimelineClaims.

Import Types Timeline.

(** C6 (as stated, refuted): the page renders of the displayed feedback
    only its image.  The event at 2.0 of the scenario, which carries no
    image, is selected, the video is paused at 2.0 and the flag is set,
    but nothing of the payload is shown. *)
Lemma monitor_shows_nothing_without_image :
  frameMatch threeEvents atTwo = Some (plainEntry 2 "first") /\
  video (monitorFrames threeEvents atTwo) = Some (mkVideo 2 true) /\
  consumed (monitorFrames threeEvents atTwo) (plainEntry 2 "first")
    = true /\
  overlay (monitorFrames threeEvents atTwo) = None.
Proof. repeat split; vm_compute; reflexivity. Qed.

(** C6 (amended): on a tick that runs, with [prev] the last observed
    position and [curr] the current one, the monitor selects the first
    event of the list that is unconsumed and has its timestamp in
    [[prev, curr]] (the earliest such timestamp when the list is ordered
    by timestamp); it then pauses the video, seeks to that timestamp,
    marks it consumed and stores the payload (title, texts, sign and
    image of the event) as the displayed feedback, of which the page
    renders the image, when the event has one, and nothing otherwise; no
    other flag is set on that tick; when there is no such event nothing
    is paused or presented.  Consequently a forward scrub over events at
    2.0, 5.0 and 9.0 in steps of at most one second presents exactly the
    events whose timestamp the position has reached, each once and in
    order: all three once it has reached 9.0. *)
Theorem monitor_presents_first_match
  (events : list TimestampEntry) (s : Page) (v : Video)
  (Hrun : running s = Some v) :
  let prev := lastCheckTime s in
  let curr := currentTime v in
  let candidate e := prev <= timestamp e /\ timestamp e <= curr /\
                     consumed s e = false in
  let s' := monitorFrames events s in
  match frameMatch events s with
  | Some m =>
      (exists l1 l2, events = l1 ++ m :: l2 /\
                     forall x, In x l1 -> ~ candidate x) /\
      candidate m /\
      (StronglySorted byTimestamp events ->
       forall e, In e events -> candidate e ->
                 timestamp m <= timestamp e) /\
      video s' = Some (mkVideo (timestamp m) true) /\
      consumed s' m = true /\
      currentDisplayFeedback s'
        = Some (mkFeedback (issue m) (bodyPartFeedback m) (isPositive m)
                           (visualImage m)) /\
      overlay s' = truthy (visualImage m) /\
      resumeTimer s' = Some true /\
      (forall x, consumed s' x
                 = (consumed s x
                    || Qeq_bool (timestamp m) (timestamp x))%bool)
  | None =>
      (forall e, In e events -> ~ candidate e) /\
      video s' = video s /\
      currentDisplayFeedback s' = currentDisplayFeedback s /\
      overlay s' = overlay s /\
      resumeTimer s' = resumeTimer s
  end /\
  lastCheckTime s' = curr /\
  (forall dts,
      Forall (fun dt => 0 < dt /\ dt <= 1) dts ->
      let final := run threeEvents (playTrace dts) playing in
      map timestamp (triggers threeEvents (playTrace dts) playing)
        = filter (fun t => JS.leb t (position final)) [2; 5; 9] /\
      (9 <= position final ->
       map timestamp (triggers threeEvents (playTrace dts) playing)
         = [2; 5; 9])).
Proof.
  intros prev curr candidate s'.
  destruct (running_guard s v Hrun) as (Hv & Hen & Hpz).
  assert (Hfm : frameMatch events s
                = findMatch events prev curr (processedTimestamps s)).
  { unfold frameMatch. rewrite Hrun. apply findMatch_afterSeekCheck. }
  assert (Hcand : forall e,
             isMatch prev curr (processedTimestamps s) e = true
             <-> candidate e).
  { intro e. apply isMatch_spec. }
  split; [|split].
  - rewrite Hfm.
    destruct (findMatch events prev curr (processedTimestamps s))
      as [m|] eqn:Efind.
    + assert (Hm : candidate m).
      { apply Hcand. unfold findMatch in Efind.
        apply find_some in Efind. tauto. }
      assert (Hfwd : afterSeekCheck events prev curr
                       (processedTimestamps s) = processedTimestamps s).
      { apply afterSeekCheck_forward. destruct Hm as (H1 & H2 & _).
        unfold prev, curr in *. lra. }
      assert (Hs' : s' = mkPage (Some (mkVideo (timestamp m) true))
                           (smartPlayEnabled s) (Some (feedbackOf m))
                           (setAdd (timestamp m) (processedTimestamps s))
                           curr (Some (smartPlayEnabled s))).
      { unfold s', monitorFrames. rewrite Hrun. cbv zeta.
        fold prev curr. rewrite Hfwd, Efind. reflexivity. }
      destruct (find_first _ _ _ Efind) as (l1 & l2 & Hev & _ & Hl1).
      split; [|split; [exact Hm|split]].
      * exists l1, l2. split; [exact Hev|].
        intros x Hx Hc. apply Hcand in Hc.
        rewrite (Hl1 x Hx) in Hc. discriminate.
      * intros Hsorted e He Hc. rewrite Hev in He, Hsorted.
        apply in_app_or in He. destruct He as [He | [<- | He]].
        -- apply Hcand in Hc. rewrite (Hl1 e He) in Hc. discriminate.
        -- lra.
        -- eapply sorted_after; eassumption.
      * rewrite Hs', Hen. unfold consumed. simpl.
        split; [reflexivity|]. split.
        { rewrite setHas_add, Qeq_bool_refl. apply orb_true_r. }
        split; [reflexivity|]. split; [reflexivity|].
        split; [reflexivity|].
        intro x. apply setHas_add.
    + assert (Hs' : s' = mkPage (video s) (smartPlayEnabled s)
                           (currentDisplayFeedback s)
                           (afterSeekCheck events prev curr
                              (processedTimestamps s))
                           curr (resumeTimer s)).
      { unfold s', monitorFrames. rewrite Hrun. cbv zeta.
        fold prev curr. rewrite findMatch_afterSeekCheck, Efind.
        reflexivity. }
      rewrite Hs'. simpl. repeat split.
      intros e He Hc. apply Hcand in Hc.
      unfold findMatch in Efind.
      rewrite (find_none _ _ Efind e He) in Hc. discriminate.
  - unfold s', monitorFrames. rewrite Hrun. cbv zeta.
    destruct (findMatch events _ _ (afterSeekCheck _ _ _ _)); reflexivity.
  - intros dts Hdts final.
    pose proof (scrub_from_start dts Hdts) as Hscrub.
    fold final in Hscrub. split; [exact Hscrub|].
    intro Hend. rewrite Hscrub. simpl.
    replace (JS.leb 2 (position final)) with true
      by (symmetry; apply leb_le; lra).
    replace (JS.leb 5 (position final)) with true
      by (symmetry; apply leb_le; lra).
    replace (JS.leb 9 (position final)) with true
      by (symmetry; apply leb_le; lra).
    reflexivity.
Qed.

Lemma find_app_hit {A} (f : A -> bool) (l1 l2 : list A) (e : A) :
  f e = true ->
  find f (l1 ++ e :: l2)
  = match find f l1 with Some m => Some m | None => Some e end.
Proof.
  intro He. induction l1 as [|a l1 IH]; simpl.
  - rewrite He. reflexivity.
  - destruct (f a); [reflexivity | exact IH].
Qed.

Lemma setHas_afterSeekCheck_false (events : list TimestampEntry)
  (prev curr : Q) (P : list Q) (t : Q) :
  setHas P t = false ->
  setHas (afterSeekCheck events prev curr P) t = false.
Proof.
  intro H. unfold afterSeekCheck.
  destruct (JS.ltb curr (prev - (1 # 2))); [|exact H].
  rewrite setHas_clearAfter, H. reflexivity.
Qed.

(** A flag is set only by the tick that presents an event with that
    timestamp. *)
Lemma step_keeps_clear (events : list TimestampEntry) (ev : Event)
  (s : Page) (e : TimestampEntry) :
  consumed s e = false ->
  (forall m, ev = Frame -> frameMatch events s = Some m ->
             ~ timestamp m == timestamp e) ->
  consumed (step events ev s) e = false.
Proof.
  intros Hclear Hno. unfold consumed in *.
  destruct ev; cbn [step].
  - unfold monitorFrames.
    destruct (running s) as [v|] eqn:Er; [|exact Hclear]. cbv zeta.
    destruct (findMatch events (lastCheckTime s) (currentTime v)
                (afterSeekCheck events (lastCheckTime s) (currentTime v)
                   (processedTimestamps s))) as [m|] eqn:Ef;
      cbn [processedTimestamps].
    + rewrite setHas_add, setHas_afterSeekCheck_false by exact Hclear.
      simpl. destruct (Qeq_bool (timestamp m) (timestamp e)) eqn:E;
        [|reflexivity].
      apply Qeq_bool_eq in E. exfalso.
      apply (Hno m eq_refl); [|exact E].
      unfold frameMatch. rewrite Er. exact Ef.
    + apply setHas_afterSeekCheck_false. exact Hclear.
  - unfold resumeTimerFired.
    destruct (resumeTimer s); [|exact Hclear]. exact Hclear.
  - unfold toggleSmartPlay.
    destruct (smartPlayEnabled s); exact Hclear.
  - exact Hclear.
  - exact Hclear.
  - exact Hclear.
  - exact Hclear.
  - unfold jumpToTime. destruct (video s); [|exact Hclear].
    cbn [processedTimestamps]. rewrite setHas_delete, Hclear. reflexivity.
Qed.

Lemma run_keeps_clear (events : list TimestampEntry) (e : TimestampEntry) :
  forall (trace : list Event) (s : Page),
    consumed s e = false ->
    (forall m, In m (triggers events trace s) ->
               ~ timestamp m == timestamp e) ->
    consumed (run events trace s) e = false.
Proof.
  induction trace as [|ev rest IH]; intros s Hclear Hno; [exact Hclear|].
  cbn [run]. apply IH.
  - apply step_keeps_clear; [exact Hclear|].
    intros m -> Hm. apply Hno. cbn [triggers]. rewrite Hm.
    left. reflexivity.
  - intros m Hm. apply Hno. cbn [triggers].
    apply in_or_app. right. exact Hm.
Qed.

(** C7 (as stated, refuted): over events at 2.0 and 2.25 both are
    presented, the user scrubs back to 1.0 and the tick that sees the
    seek clears both flags.  The next tick comes when the position is
    2.5: both timestamps lie in its interval, the event at 2.0 is
    presented, the video is taken back to 2.0 and the last observed
    position is left at 2.5.  Playback then advances from 2.0 to 4.5,
    past 2.25 again, and the event at 2.25 is not presented, its flag
    still clear. *)
Lemma cleared_event_not_replayed :
  let swept := run twoEvents (bothPresented ++ scrubBack) playing in
  let final := run twoEvents lateReplayTrace playing in
  map timestamp (triggers twoEvents bothPresented playing) = [2; 9 # 4] /\
  consumed swept (plainEntry 2 "first") = false /\
  consumed swept (plainEntry (9 # 4) "second") = false /\
  position swept == 5 # 4 /\
  map timestamp (triggers twoEvents lateReplay swept) = [2] /\
  map timestamp (triggers twoEvents lateReplayTrace playing)
    = [2; 9 # 4; 2] /\
  position final == 9 # 2 /\
  consumed final (plainEntry (9 # 4) "second") = false.
Proof. repeat split; vm_compute; reflexivity. Qed.

(** C7 (amended): on a tick that runs with [curr < prev - 0.5] the
    consumed flag is cleared on every event whose timestamp exceeds
    [curr] and kept as it was on every other event; nothing is presented
    on that tick.  The flag of such an event stays clear until an event
    with its timestamp is presented, so the event can be selected again:
    a later tick whose interval [[prev', curr']] contains its timestamp
    presents an event (the video is paused at its timestamp, its payload
    becomes the displayed feedback and its image, if any, is rendered),
    namely the first listed unconsumed event of the interval, which is
    that event when no event listed before it is unconsumed in the
    interval.  In the replay scenario the event at 2.0 is presented, and
    presented again after scrubbing back to 1.0. *)
Theorem backward_seek_clears_flags
  (events : list TimestampEntry) (s : Page) (v : Video)
  (Hrun : running s = Some v)
  (Hseek : currentTime v < lastCheckTime s - (1 # 2)) :
  let s' := monitorFrames events s in
  (forall e, In e events -> currentTime v < timestamp e ->
             consumed s' e = false) /\
  (forall e, In e events -> timestamp e <= currentTime v ->
             consumed s' e = consumed s e) /\
  (frameMatch events s = None /\ video s' = video s /\
   currentDisplayFeedback s' = currentDisplayFeedback s /\
   lastCheckTime s' = currentTime v) /\
  (forall e trace,
      In e events -> currentTime v < timestamp e ->
      (forall m, In m (triggers events trace s') ->
                 ~ timestamp m == timestamp e) ->
      consumed (run events trace s') e = false) /\
  (forall e l1 l2 s2 v2,
      events = l1 ++ e :: l2 ->
      running s2 = Some v2 ->
      consumed s2 e = false ->
      lastCheckTime s2 <= timestamp e -> timestamp e <= currentTime v2 ->
      let candidate x := lastCheckTime s2 <= timestamp x /\
                         timestamp x <= currentTime v2 /\
                         consumed s2 x = false in
      (exists m, frameMatch events s2 = Some m /\
                 (m = e \/ In m l1) /\ candidate m /\
                 video (monitorFrames events s2)
                   = Some (mkVideo (timestamp m) true) /\
                 currentDisplayFeedback (monitorFrames events s2)
                   = Some (mkFeedback (issue m) (bodyPartFeedback m)
                                      (isPositive m) (visualImage m)) /\
                 overlay (monitorFrames events s2)
                   = truthy (visualImage m)) /\
      ((forall x, In x l1 -> ~ candidate x) ->
       frameMatch events s2 = Some e)) /\
  map timestamp (triggers threeEvents replayTrace playing) = [2; 2].
Proof.
  intro s'.
  assert (Hback : currentTime v < lastCheckTime s) by lra.
  assert (Hs' : s' = mkPage (video s) (smartPlayEnabled s)
                       (currentDisplayFeedback s)
                       (clearAfter events (currentTime v)
                          (processedTimestamps s))
                       (currentTime v) (resumeTimer s)).
  { unfold s', monitorFrames. rewrite Hrun. cbv zeta.
    rewrite afterSeekCheck_backward by exact Hseek.
    rewrite findMatch_none_backward by exact Hback. reflexivity. }
  assert (Hbeyond : forall e, In e events -> currentTime v < timestamp e ->
                              consumed s' e = false).
  { intros e Hin Hgt. rewrite Hs'. unfold consumed. simpl.
    apply clearAfter_beyond; assumption. }
  split; [exact Hbeyond|]. split; [|split; [|split; [|split]]].
  - intros e Hin Hle. rewrite Hs'. unfold consumed. simpl.
    apply clearAfter_within. exact Hle.
  - rewrite Hs'. simpl. repeat split.
    unfold frameMatch. rewrite Hrun.
    apply findMatch_none_backward. exact Hback.
  - intros e trace Hin Hgt Hno.
    apply run_keeps_clear; [apply Hbeyond; assumption | exact Hno].
  - intros e l1 l2 s2 v2 Hev Hrun2 Hclear Hlo Hhi candidate.
    assert (Hfwd : afterSeekCheck events (lastCheckTime s2)
                     (currentTime v2) (processedTimestamps s2)
                   = processedTimestamps s2).
    { apply afterSeekCheck_forward. lra. }
    assert (Hcand : forall x,
               isMatch (lastCheckTime s2) (currentTime v2)
                 (processedTimestamps s2) x = true <-> candidate x).
    { intro x. apply isMatch_spec. }
    assert (He : isMatch (lastCheckTime s2) (currentTime v2)
                   (processedTimestamps s2) e = true).
    { apply Hcand. unfold candidate. auto. }
    assert (Hfm : frameMatch events s2
                  = match find (isMatch (lastCheckTime s2) (currentTime v2)
                                  (processedTimestamps s2)) l1 with
                    | Some m => Some m
                    | None => Some e
                    end).
    { unfold frameMatch. rewrite Hrun2, Hfwd. unfold findMatch.
      rewrite Hev. apply find_app_hit. exact He. }
    assert (Hstep : forall m,
               frameMatch events s2 = Some m ->
               monitorFrames events s2
               = mkPage (Some (mkVideo (timestamp m) true))
                        (smartPlayEnabled s2)
                        (Some (feedbackOf m))
                        (setAdd (timestamp m) (processedTimestamps s2))
                        (currentTime v2)
                        (Some (smartPlayEnabled s2))).
    { intros m Hm. unfold frameMatch in Hm. rewrite Hrun2, Hfwd in Hm.
      unfold monitorFrames. rewrite Hrun2. cbv zeta.
      rewrite Hfwd, Hm. reflexivity. }
    split.
    + destruct (find (isMatch (lastCheckTime s2) (currentTime v2)
                        (processedTimestamps s2)) l1) as [m|] eqn:El1.
      * apply find_some in El1. destruct El1 as [Hin Hm].
        exists m. split; [exact Hfm|]. split; [right; exact Hin|].
        split; [apply Hcand; exact Hm|].
        rewrite (Hstep m Hfm). repeat split.
      * exists e. split; [exact Hfm|]. split; [left; reflexivity|].
        split; [apply Hcand; exact He|].
        rewrite (Hstep e Hfm). repeat split.
    + intro Honly. rewrite Hfm.
      destruct (find (isMatch (lastCheckTime s2) (currentTime v2)
                        (processedTimestamps s2)) l1) as [m|] eqn:El1;
        [|reflexivity].
      apply find_some in El1. destruct El1 as [Hin Hm].
      exfalso. apply (Honly m Hin). apply Hcand. exact Hm.
  - vm_compute. reflexivity.
Qed.

Lemma monitor_presents_first_match_witness :
  frameMatch imageEvents atTwo = Some (imageEntry 2 "first" "image2") /\
  video (monitorFrames imageEvents atTwo) = Some (mkVideo 2 true) /\
  overlay (monitorFrames imageEvents atTwo) = Some "image2"%string /\
  map timestamp
    (triggers threeEvents (playTrace (repeat (1 # 2) 20)) playing)
  = [2; 5; 9].
Proof.
  assert (Hrun : running atTwo = Some (mkVideo 2 false))
    by (vm_compute; reflexivity).
  assert (Hfm : frameMatch imageEvents atTwo
                = Some (imageEntry 2 "first" "image2"))
    by (vm_compute; reflexivity).
  pose proof (monitor_presents_first_match imageEvents atTwo
                (mkVideo 2 false) Hrun) as H.
  cbv zeta in H. rewrite Hfm in H.
  destruct H as ((_ & _ & _ & Hvideo & _ & _ & Hoverlay & _) & _ & Hscrub).
  split; [exact Hfm|]. split; [exact Hvideo|]. split; [exact Hoverlay|].
  destruct (Hscrub (repeat (1 # 2) 20)) as [_ Hall].
  - repeat constructor; simpl; discriminate.
  - apply Hall. vm_compute. discriminate.
Defined.

Lemma backward_seek_clears_flags_witness :
  consumed seekedBack (plainEntry 2 "first") = true /\
  consumed (monitorFrames threeEvents seekedBack) (plainEntry 2 "first")
    = false /\
  lastCheckTime (monitorFrames threeEvents seekedBack) = 5 # 4.
Proof.
  assert (Hrun : running seekedBack = Some (mkVideo (5 # 4) false))
    by (vm_compute; reflexivity).
  assert (Hseek : currentTime (mkVideo (5 # 4) false)
                  < lastCheckTime seekedBack - (1 # 2))
    by (vm_compute; reflexivity).
  destruct (backward_seek_clears_flags threeEvents seekedBack
              (mkVideo (5 # 4) false) Hrun Hseek)
    as (Hclear & _ & (_ & _ & _ & Hlast) & _).
  split; [vm_compute; reflexivity|]. split; [|exact Hlast].
  apply Hclear.
  - left. reflexivity.
  - vm_compute. reflexivity.
Defined.

(** C8: while a dwell timer is pending on the paused video, switching
    the monitor off cancels the timer and clears the presented payload at
    once; from then on, whatever happens short of the user resuming
    playback (ticks, a late timer expiry, further toggles, pausing,
    scrubbing), the video stays paused and no timer is pending.  Had the
    monitor been left on, the expiry of the timer would have resumed the
    video. *)
Theorem toggle_off_cancels_resume
  (events : list TimestampEntry) (s : Page) (v : Video)
  (trace : list Event)
  (Hvideo : video s = Some v) (Hpaused : paused v = true)
  (Hen : smartPlayEnabled s = true)
  (Htimer : resumeTimer s = Some true)
  (Hquiet : forallb (fun e => negb (manualResume e)) trace = true) :
  let s1 := step events ToggleSmartPlay s in
  isPaused (step events TimerFired s) = false /\
  smartPlayEnabled s1 = false /\
  resumeTimer s1 = None /\
  currentDisplayFeedback s1 = None /\
  isPaused s1 = true /\
  isPaused (run events trace s1) = true /\
  resumeTimer (run events trace s1) = None.
Proof.
  intro s1.
  assert (Hs1 : s1 = mkPage (Some v) false None (processedTimestamps s)
                       (lastCheckTime s) None).
  { unfold s1. simpl. unfold toggleSmartPlay. rewrite Hen, Hvideo.
    reflexivity. }
  split.
  { simpl. unfold resumeTimerFired, isPaused.
    rewrite Htimer, Hvideo, Hpaused. reflexivity. }
  rewrite Hs1. simpl.
  split; [reflexivity|]. split; [reflexivity|]. split; [reflexivity|].
  split; [exact Hpaused|].
  assert (Hinv : isPaused (mkPage (Some v) false None
                             (processedTimestamps s) (lastCheckTime s)
                             None) = true /\
                 resumeTimer (mkPage (Some v) false None
                                (processedTimestamps s) (lastCheckTime s)
                                None) = None).
  { split; [exact Hpaused | reflexivity]. }
  clear Hs1 s1.
  revert Hinv.
  generalize (mkPage (Some v) false None (processedTimestamps s)
                (lastCheckTime s) None).
  induction trace as [|e trace IH]; intros p [Hp Ht]; [auto|].
  simpl in Hquiet. apply andb_prop in Hquiet.
  destruct Hquiet as [He Hrest].
  simpl. apply IH; [exact Hrest|].
  destruct p as [vid en fb P last tm]. unfold isPaused in *.
  simpl in Hp, Ht. subst tm.
  destruct e; simpl in He; try discriminate; simpl;
    unfold monitorFrames, running, toggleSmartPlay, withVideo; simpl.
  - destruct vid as [w|]; simpl in *; [|auto].
    rewrite Hp, orb_true_r. simpl. auto.
  - auto.
  - destruct en; simpl; auto.
  - destruct vid as [w|]; simpl in *; [|auto]. rewrite Hp. auto.
  - destruct vid as [w|]; simpl in *; auto.
  - destruct vid as [w|]; simpl in *; auto.
Qed.

Lemma toggle_off_cancels_resume_witness :
  isPaused dwelling = true /\
  currentDisplayFeedback dwelling
    = Some (feedbackOf (plainEntry 5 "second")) /\
  isPaused (step threeEvents TimerFired dwelling) = false /\
  currentDisplayFeedback (step threeEvents ToggleSmartPlay dwelling)
    = None /\
  isPaused
    (run threeEvents
       [Frame; TimerFired; Advance 1; Frame; ToggleSmartPlay; Frame;
        TimerFired; UserSeek 8; Frame]
       (step threeEvents ToggleSmartPlay dwelling)) = true.
Proof.
  destruct (toggle_off_cancels_resume threeEvents dwelling
              (mkVideo 5 true)
              [Frame; TimerFired; Advance 1; Frame; ToggleSmartPlay;
               Frame; TimerFired; UserSeek 8; Frame]
              eq_refl eq_refl eq_refl eq_refl eq_refl)
    as (Hauto & _ & _ & Hfb & _ & Hstay & _).
  split; [reflexivity|]. split; [reflexivity|].
  split; [exact Hauto|]. split; [exact Hfb | exact Hstay].
Defined.

End TimelineClaims.

(** ** Annotation placer *)

Section PlacerFacts.

Import Placer.

Example stripLayout_top : boxY1 stripLayout == -1.
Proof. vm_compute. reflexivity. Qed.

Example leftLabel_clamped :
  boxX1 (place 1280 720 (fun _ => 90) leftLabel) = 5 /\
  arrowStartX (place 1280 720 (fun _ => 90) leftLabel)
    = boxX2 (place 1280 720 (fun _ => 90) leftLabel).
Proof. vm_compute. split; reflexivity. Qed.

Example rightLabel_clamped :
  boxX2 (place 1280 720 (fun _ => 90) rightLabel) == 1275 /\
  arrowStartX (place 1280 720 (fun _ => 90) rightLabel)
    = boxX1 (place 1280 720 (fun _ => 90) rightLabel).
Proof. vm_compute. split; reflexivity. Qed.

Lemma placeX_left (width : Z) (tX boxW : Q) :
  let '(bX1, bX2, aX) := placeX width tX boxW "left" in
  margin <= bX1 /\ bX2 == bX1 + boxW /\ aX = bX2 /\
  (tX - arrowOffset width - boxW < margin -> bX1 = margin) /\
  (margin <= tX - arrowOffset width - boxW ->
   bX2 = tX - arrowOffset width).
Proof.
  unfold placeX, margin. simpl String.eqb. cbv iota.
  destruct (JS.ltb (tX - arrowOffset width - boxW) 5) eqn:E.
  - apply ltb_lt in E. repeat split; intros; try lra; try reflexivity.
  - apply ltb_ge in E. repeat split; intros; try lra; try reflexivity.
Qed.

Lemma placeX_right (width : Z) (tX boxW : Q) (side : string) :
  String.eqb side "left" = false ->
  let '(bX1, bX2, aX) := placeX width tX boxW side in
  bX2 <= inject_Z width - margin /\ bX2 == bX1 + boxW /\ aX = bX1 /\
  (inject_Z width - margin < tX + arrowOffset width + boxW ->
   bX2 = inject_Z width - margin) /\
  (tX + arrowOffset width + boxW <= inject_Z width - margin ->
   bX1 = tX + arrowOffset width).
Proof.
  intro Hside. unfold placeX, margin. rewrite Hside.
  destruct (JS.gtb (tX + arrowOffset width + boxW) (inject_Z width - 5))
    eqn:E.
  - apply gtb_gt in E. repeat split; intros; try lra; try reflexivity.
  - apply gtb_le in E. repeat split; intros; try lra; try reflexivity.
Qed.

Lemma placeY_spec (height : Z) (tY textH pad boxH : Q) :
  boxH == textH + pad * 2 ->
  let bY1 := placeY height tY textH pad boxH in
  bY1 + boxH <= inject_Z height - margin /\
  (boxH <= inject_Z height - margin * 2 -> margin <= bY1) /\
  (margin <= tY - boxH / 2 ->
   tY + boxH / 2 <= inject_Z height - margin ->
   bY1 + boxH / 2 == tY).
Proof.
  intros HboxH bY1. unfold bY1, placeY, margin.
  destruct (JS.ltb (tY - textH / 2 - pad) 5) eqn:E1.
  - apply ltb_lt in E1.
    destruct (JS.gtb (5 + boxH) (inject_Z height - 5)) eqn:E2.
    + apply gtb_gt in E2. unfold Qdiv in *; change (/ 2) with (1 # 2) in *;
        repeat split; intros; lra.
    + apply gtb_le in E2. unfold Qdiv in *; change (/ 2) with (1 # 2) in *;
        repeat split; intros; lra.
  - apply ltb_ge in E1.
    destruct (JS.gtb (tY - textH / 2 - pad + boxH) (inject_Z height - 5))
      eqn:E2.
    + apply gtb_gt in E2. unfold Qdiv in *; change (/ 2) with (1 # 2) in *;
        repeat split; intros; lra.
    + apply gtb_le in E2. unfold Qdiv in *; change (/ 2) with (1 # 2) in *;
        repeat split; intros; lra.
Qed.

End PlacerFacts.

Section PlacerClaims.

Import Placer.

(** C9 (as stated, refuted): the vertical clamp does not always keep the
    whole box within the top and bottom margins.  On a 100 x 16 frame the
    box is 12 pixels high; the second clamp moves its top edge to -1. *)
Lemma placer_vertical_clamp_leaves_margin :
  boxY1 stripLayout == -1 /\
  boxY2 stripLayout == 11 /\
  ~ withinVertical 16 stripLayout.
Proof.
  split; [vm_compute; reflexivity|].
  split; [vm_compute; reflexivity|].
  unfold withinVertical. intros [H _]. vm_compute in H. apply H.
  reflexivity.
Qed.

(** C9 (amended): with preferred side left the box is placed left of the
    target and moved right when its left edge would fall below the
    margin, so that [box.left >= margin], the connector starting at the
    right edge of the box as placed; with any other side, symmetrically,
    [box.right <= width - margin] and the connector starts at the left
    edge.  Vertically the box is centred on the target's y, then moved to
    the top margin and then to the bottom margin: [box.bottom <= height -
    margin] always, and [box.top >= margin] whenever the box is no higher
    than [height - 2 * margin]. *)
Theorem placer_clamps_box
  (width height : Z) (measureText : string -> Q) (item : Annotation) :
  let l := place width height measureText item in
  let boxW := boxTotalWidth width (measureText (label item)) in
  let boxH := boxTotalHeight width height in
  (label_side item = "left"%string ->
   margin <= boxX1 l /\
   boxX2 l == boxX1 l + boxW /\
   arrowStartX l = boxX2 l /\
   (targetX l - arrowOffset width - boxW < margin -> boxX1 l = margin)) /\
  (String.eqb (label_side item) "left" = false ->
   boxX2 l <= inject_Z width - margin /\
   boxX2 l == boxX1 l + boxW /\
   arrowStartX l = boxX1 l /\
   (inject_Z width - margin < targetX l + arrowOffset width + boxW ->
    boxX2 l = inject_Z width - margin)) /\
  boxY2 l == boxY1 l + boxH /\
  arrowStartY l == boxY1 l + boxH / 2 /\
  boxY2 l <= inject_Z height - margin /\
  (boxH <= inject_Z height - margin * 2 -> margin <= boxY1 l) /\
  (margin <= targetY l - boxH / 2 ->
   targetY l + boxH / 2 <= inject_Z height - margin ->
   arrowStartY l == targetY l).
Proof.
  intros l boxW boxH.
  set (tX := (x item / 100) * inject_Z width).
  set (tY := (y item / 100) * inject_Z height).
  pose proof (placeY_spec height tY (fontSize height) (padding width)
                boxH ltac:(reflexivity)) as HY.
  cbv zeta in HY.
  assert (Hl : l = let '(bX1, bX2, aX) :=
                     placeX width tX boxW (label_side item) in
                   mkLayout bX1 bX2
                     (placeY height tY (fontSize height) (padding width)
                        boxH)
                     (placeY height tY (fontSize height) (padding width)
                        boxH + boxH)
                     aX
                     (placeY height tY (fontSize height) (padding width)
                        boxH + boxH / 2)
                     tX tY
                     (if status item then "#059669"%string
                      else "#dc2626"%string)) by reflexivity.
  split; [|split].
  - intro Hside. rewrite Hside in Hl.
    pose proof (placeX_left width tX boxW) as HX.
    destruct (placeX width tX boxW "left") as [[bX1 bX2] aX].
    rewrite Hl. simpl. tauto.
  - intro Hside.
    pose proof (placeX_right width tX boxW _ Hside) as HX.
    destruct (placeX width tX boxW (label_side item)) as [[bX1 bX2] aX].
    rewrite Hl. simpl. tauto.
  - destruct (placeX width tX boxW (label_side item)) as [[bX1 bX2] aX].
    rewrite Hl. simpl.
    destruct HY as (Hb & Ht & Hc).
    split; [reflexivity|]. split; [reflexivity|].
    split; [exact Hb|]. split; [exact Ht | exact Hc].
Qed.

Lemma placer_clamps_box_witness :
  boxX1 (place 1280 720 (fun _ => 90) leftLabel) = margin /\
  arrowStartX (place 1280 720 (fun _ => 90) leftLabel)
    = boxX2 (place 1280 720 (fun _ => 90) leftLabel) /\
  boxX2 (place 1280 720 (fun _ => 90) rightLabel)
    = inject_Z 1280 - margin /\
  margin <= boxY1 (place 1280 720 (fun _ => 90) leftLabel) /\
  boxY2 (place 1280 720 (fun _ => 90) leftLabel)
    <= inject_Z 720 - margin.
Proof.
  destruct (placer_clamps_box 1280 720 (fun _ => 90) leftLabel)
    as (HL & _ & _ & _ & Hbot & Htop & _).
  destruct (placer_clamps_box 1280 720 (fun _ => 90) rightLabel)
    as (_ & HR & _).
  destruct (HL eq_refl) as (_ & _ & Harrow & Hclamp).
  destruct (HR eq_refl) as (_ & _ & _ & Hclamp').
  split; [apply Hclamp; vm_compute; reflexivity|].
  split; [exact Harrow|].
  split; [apply Hclamp'; vm_compute; reflexivity|].
  split; [apply Htop; vm_compute; discriminate | exact Hbot].
Defined.

End PlacerClaims.

(** ** Visualization batch *)

Section PipelineFacts.

Import Types Placer Pipeline Timeline.

Variable sv : Services.
Variable sport : string.

(** The three ways an iteration of the loop can go. *)
Lemma visualize_cases (ts : TimestampEntry) :
  match generateVisualCorrection sv (captureFrame sv (timestamp ts))
          (issue ts) sport (bodyPartTags ts) (bodyPartStatuses ts) with
  | Fulfilled img =>
      visualize sv sport ts = Fulfilled (withVisualImage ts img)
  | Failed _ => visualize sv sport ts = Fulfilled ts
  | Pending => visualize sv sport ts = Pending
  end.
Proof.
  unfold visualize, catch, bind.
  destruct (generateVisualCorrection sv (captureFrame sv (timestamp ts))
              (issue ts) sport (bodyPartTags ts) (bodyPartStatuses ts));
    reflexivity.
Qed.

Lemma visualize_never_rejects (ts : TimestampEntry) (reason : string) :
  visualize sv sport ts <> Failed reason.
Proof.
  pose proof (visualize_cases ts) as H.
  destruct (generateVisualCorrection sv (captureFrame sv (timestamp ts))
              (issue ts) sport (bodyPartTags ts) (bodyPartStatuses ts));
    rewrite H; discriminate.
Qed.

Lemma pushed_sameAnalysis (ts : TimestampEntry) :
  sameAnalysis (pushed sv sport ts) ts.
Proof.
  unfold pushed. pose proof (visualize_cases ts) as H.
  destruct (generateVisualCorrection sv (captureFrame sv (timestamp ts))
              (issue ts) sport (bodyPartTags ts) (bodyPartStatuses ts));
    rewrite H; unfold sameAnalysis; simpl; repeat split.
Qed.

(** The image of the entry pushed: the rendered frame when the
    visualization is fulfilled, the one the entry came with otherwise. *)
Lemma pushed_image (ts : TimestampEntry) :
  visualImage (pushed sv sport ts)
  = match generateVisualCorrection sv (captureFrame sv (timestamp ts))
            (issue ts) sport (bodyPartTags ts) (bodyPartStatuses ts) with
    | Fulfilled img => Some img
    | _ => visualImage ts
    end.
Proof.
  unfold pushed. pose proof (visualize_cases ts) as H.
  destruct (generateVisualCorrection sv (captureFrame sv (timestamp ts))
              (issue ts) sport (bodyPartTags ts) (bodyPartStatuses ts));
    rewrite H; reflexivity.
Qed.

(** A loop that ends has pushed one entry per input entry, in order. *)
Lemma scanFrom_settled (remaining : list TimestampEntry) :
  forall updated out,
    scanFrom sv sport remaining updated = Fulfilled out ->
    out = updated ++ map (pushed sv sport) remaining /\
    Forall (fun ts => visualize sv sport ts
                      = Fulfilled (pushed sv sport ts)) remaining.
Proof.
  induction remaining as [|ts rest IH]; intros updated out H; simpl in H.
  - injection H as <-. rewrite app_nil_r. split; constructor.
  - unfold bind in H.
    destruct (visualize sv sport ts) as [entry| |] eqn:E; try discriminate.
    destruct (IH _ _ H) as [-> Hall].
    assert (Hp : pushed sv sport ts = entry)
      by (unfold pushed; rewrite E; reflexivity).
    cbn [map]. rewrite Hp. split.
    + rewrite <- app_assoc. reflexivity.
    + constructor; [rewrite Hp; exact E | exact Hall].
Qed.

(** The loop ends when every iteration does. *)
Lemma scanFrom_complete (remaining : list TimestampEntry) :
  forall updated,
    Forall (fun ts => visualize sv sport ts <> Pending) remaining ->
    scanFrom sv sport remaining updated
    = Fulfilled (updated ++ map (pushed sv sport) remaining).
Proof.
  induction remaining as [|ts rest IH]; intros updated Hall; simpl.
  - rewrite app_nil_r. reflexivity.
  - inversion Hall as [|? ? Hts Hrest]; subst.
    unfold bind, pushed.
    destruct (visualize sv sport ts) as [entry|reason|] eqn:E.
    + rewrite (IH _ Hrest), <- app_assoc. reflexivity.
    + exfalso. exact (visualize_never_rejects ts reason E).
    + contradiction.
Qed.

(** The loop never ends when one iteration does not. *)
Lemma scanFrom_pending (before after : list TimestampEntry)
  (ts : TimestampEntry) :
  visualize sv sport ts = Pending ->
  forall updated,
    scanFrom sv sport (before ++ ts :: after) updated = Pending.
Proof.
  intro Hts. induction before as [|b rest IH]; intro updated; simpl.
  - rewrite Hts. reflexivity.
  - unfold bind.
    destruct (visualize sv sport b) as [entry|reason|] eqn:E.
    + apply IH.
    + exfalso. exact (visualize_never_rejects b reason E).
    + reflexivity.
Qed.

Lemma drawItems_throws (cv : Canvas) (width height : Z)
  (items : list (option Annotation)) :
  In None items \/ (items <> [] /\ roundRect cv = false) ->
  drawItems cv width height items = None.
Proof.
  induction items as [|[item|] rest IH]; simpl.
  - intros [[] | [H _]]. contradiction.
  - intros [[H | H] | [_ H]].
    + discriminate.
    + destruct (roundRect cv); [|reflexivity].
      rewrite IH by (left; exact H). reflexivity.
    + rewrite H. reflexivity.
  - reflexivity.
Qed.

Lemma draw_pending (cv : Canvas) (imageBase64 : string) (reply : Reply) :
  loadImage cv imageBase64 <> None ->
  hasContext cv = true ->
  throwsInOnload cv reply ->
  drawAnnotationsOnCanvas cv imageBase64 reply = Pending.
Proof.
  intros Hload Hctx Hthrow. unfold drawAnnotationsOnCanvas.
  destruct (loadImage cv imageBase64) as [[width height]|];
    [|contradiction].
  rewrite Hctx. destruct reply as [|items]; [reflexivity|].
  simpl in Hthrow. rewrite (drawItems_throws _ _ _ _ Hthrow). reflexivity.
Qed.

(** What a batch that ends gives: one entry per input entry, in the same
    order and with the analysis fields untouched, the entry at position
    [i] depending on the input entry at [i] alone: the entry with the
    rendered frame as its image when the visualization is fulfilled, the
    entry as it was when the coordinate request or the rendering is
    rejected. *)
Lemma batch_settled (timestamps out : list TimestampEntry) :
  scanTimestamps sv sport timestamps = Fulfilled out ->
  List.length out = List.length timestamps /\
  Forall2 sameAnalysis out timestamps /\
  forall i ts, nth_error timestamps i = Some ts ->
    match generateVisualCorrection sv (captureFrame sv (timestamp ts))
            (issue ts) sport (bodyPartTags ts) (bodyPartStatuses ts) with
    | Fulfilled img =>
        nth_error out i
        = Some (mkEntry (frame ts) (timestamp ts) (displayTime ts)
                        (issue ts) (bodyPartFeedback ts) (bodyPartTags ts)
                        (bodyPartStatuses ts) (coachingCues ts)
                        (isPositive ts) (Some img))
    | Failed _ => nth_error out i = Some ts
    | Pending => False
    end.
Proof.
  intro H. unfold scanTimestamps in H.
  destruct (scanFrom_settled _ _ _ H) as [-> Hall]. simpl.
  split; [apply length_map|]. split.
  - clear H Hall. induction timestamps as [|ts rest IH]; simpl; constructor.
    + apply pushed_sameAnalysis.
    + exact IH.
  - intros i ts Hi. rewrite nth_error_map, Hi. simpl.
    assert (Hin : In ts timestamps) by (eapply nth_error_In; exact Hi).
    pose proof (proj1 (Forall_forall _ _) Hall ts Hin) as Hv.
    cbv beta in Hv. unfold pushed.
    pose proof (visualize_cases ts) as Hc.
    destruct (generateVisualCorrection sv (captureFrame sv (timestamp ts))
                (issue ts) sport (bodyPartTags ts) (bodyPartStatuses ts)).
    + rewrite Hc. reflexivity.
    + rewrite Hc. reflexivity.
    + rewrite Hc in Hv. discriminate.
Qed.

End PipelineFacts.

Section PipelineClaims.

Import Types Placer Pipeline Timeline.

Example flaky_batch :
  option_map (map visualImage)
    (match scanTimestamps flakyServices "Tennis" threeEvents with
     | Fulfilled out => Some out
     | _ => None
     end)
  = Some [Some "frame2+labels"; None; Some "frame9"]%string.
Proof. vm_compute. reflexivity. Qed.

Example object_reply_hangs :
  handleAnalyze objectReply "Tennis" onForm = mkApp None true ANALYZING.
Proof. vm_compute. reflexivity. Qed.

(** C10 (the code departs from the claim): a rendering that fails by an
    exception inside [img.onload] is not turned into a rejection.  For
    an entry whose frame loads, with a 2d context, and whose coordinate
    response parses to a value that is not an array, to an array holding
    [null], or to a non-empty array in a browser without [roundRect],
    the promise of [drawAnnotationsOnCanvas] never settles: the
    iteration for that entry never ends, no entry is pushed for it or
    for any later one, no output list is produced and the application
    stays on the analysing screen, whatever the other entries are. *)
Theorem batch_hangs_on_render_exception
  (sv : Services) (sport : string) (app : App) (result : AnalysisResult)
  (before after : list TimestampEntry) (ts : TimestampEntry)
  (text : string) (reply : Reply)
  (Hresult : analyzeVideo sv = Fulfilled result)
  (Hts : timestamps result = before ++ ts :: after)
  (Hreq : generateContent sv (captureFrame sv (timestamp ts)) sport
            (bodyPartTags ts) (bodyPartStatuses ts) = Fulfilled text)
  (Hparse : parseJSON sv text = Some reply)
  (Hload : loadImage (canvas sv) (captureFrame sv (timestamp ts)) <> None)
  (Hctx : hasContext (canvas sv) = true)
  (Hthrow : throwsInOnload (canvas sv) reply) :
  drawAnnotationsOnCanvas (canvas sv) (captureFrame sv (timestamp ts)) reply
    = Pending /\
  visualize sv sport ts = Pending /\
  scanTimestamps sv sport (timestamps result) = Pending /\
  (forall out, scanTimestamps sv sport (timestamps result)
               <> Fulfilled out) /\
  handleAnalyze sv sport app = mkApp (analysisResult app) true ANALYZING.
Proof.
  pose proof (draw_pending _ _ _ Hload Hctx Hthrow) as Hdraw.
  assert (Hvis : visualize sv sport ts = Pending).
  { unfold visualize, generateVisualCorrection, getAnnotationCoordinates,
      catch, bind.
    rewrite Hreq, Hparse, Hdraw. reflexivity. }
  assert (Hscan : scanTimestamps sv sport (timestamps result) = Pending).
  { unfold scanTimestamps. rewrite Hts.
    apply scanFrom_pending. exact Hvis. }
  split; [exact Hdraw|]. split; [exact Hvis|]. split; [exact Hscan|].
  split.
  - intros out H. rewrite Hscan in H. discriminate.
  - unfold handleAnalyze, bind. rewrite Hresult, Hscan. reflexivity.
Qed.

Lemma batch_hangs_on_render_exception_witness :
  scanTimestamps oldBrowser "Tennis" threeEvents = Pending /\
  handleAnalyze oldBrowser "Tennis" onForm = mkApp None true ANALYZING.
Proof.
  assert (Hthrow : throwsInOnload (canvas oldBrowser)
                     (Items [Some leftLabel])).
  { right. split; [discriminate | reflexivity]. }
  destruct (batch_hangs_on_render_exception
              oldBrowser "Tennis" onForm
              (mkResult 72 [] threeEvents [] [] [])
              [] [plainEntry 5 "second"; plainEntry 9 "third"]
              (plainEntry 2 "first") "frame2" (Items [Some leftLabel])
              eq_refl eq_refl eq_refl eq_refl
              ltac:(discriminate) eq_refl Hthrow)
    as (_ & _ & Hscan & _ & Happ).
  split; [exact Hscan | exact Happ].
Defined.

End PipelineClaims.

(* ===================================================================== *)
(** * Part III: further properties of the code                           *)
(* ===================================================================== *)

(** ** Resampler: shape of the output *)

Section ResamplerShape.

Import Resampler.

(** On the decimation path the function returns the loop body mapped over
    [0 .. n-1], [n] being [ceil(len / ratio)]. *)
Lemma audioResample_decimates (buffer : list Q) (sampleRate : Q) :
  0 < sampleRate -> ~ sampleRate == targetRate ->
  exists n,
    audioResample buffer sampleRate
    = Some (map (decimate buffer (sampleRate / targetRate)) (seq 0 n)) /\
    Z.of_nat n = Qceiling (inject_Z (Z.of_nat (List.length buffer))
                           / (sampleRate / targetRate)).
Proof.
  intros Hpos Hne.
  assert (Hr : 0 < sampleRate / targetRate).
  { unfold targetRate. apply Qlt_shift_div_l; lra. }
  destruct (newLength_positive (List.length buffer) _ Hr) as (n & Hn & Hc).
  exists n. split; [|exact Hc].
  unfold audioResample.
  destruct (Qeq_bool sampleRate targetRate) eqn:E.
  - apply Qeq_bool_eq in E. contradiction.
  - cbv zeta. rewrite Hn. reflexivity.
Qed.

Lemma decimate_at (buffer : list Q) (ratio : Q) (i j : nat) (x : Q) :
  originalIndex ratio i = Z.of_nat j ->
  nth_error buffer j = Some x ->
  decimate buffer ratio i = JS.ToInt16 (Qmax (-1) (Qmin 1 x) * 32768).
Proof.
  intros Hidx Hx. unfold decimate, JS.typedGet. rewrite Hidx.
  destruct (Z.ltb_spec (Z.of_nat j) 0); [lia|].
  rewrite Nat2Z.id, Hx. reflexivity.
Qed.

Lemma Qceiling_div_nat (a k : nat) :
  (0 < k)%nat ->
  Qceiling (inject_Z (Z.of_nat a) / inject_Z (Z.of_nat k))
  = Z.of_nat ((a + k - 1) / k).
Proof.
  intro Hk. unfold Qceiling.
  setoid_replace (- (inject_Z (Z.of_nat a) / inject_Z (Z.of_nat k)))
    with (inject_Z (- Z.of_nat a) / inject_Z (Z.of_nat k)).
  - rewrite <- Zdiv_Qdiv.
    rewrite Nat2Z.inj_div, Nat2Z.inj_sub, Nat2Z.inj_add by lia.
    set (A := Z.of_nat a). set (K := Z.of_nat k).
    assert (HK : (0 < K)%Z) by (unfold K; lia).
    assert (HA : (0 <= A)%Z) by (unfold A; lia).
    change (Z.of_nat 1) with 1%Z.
    pose proof (Z.div_mod (- A) K ltac:(lia)) as H1.
    pose proof (Z.mod_pos_bound (- A) K HK) as H2.
    pose proof (Z.div_mod (A + K - 1) K ltac:(lia)) as H3.
    pose proof (Z.mod_pos_bound (A + K - 1) K HK) as H4.
    nia.
  - rewrite inject_Z_opp. field.
    intro H0. unfold Qeq in H0. simpl in H0. lia.
Qed.

Lemma inject_nat_pos (k : nat) : (0 < k)%nat -> 0 < inject_Z (Z.of_nat k).
Proof.
  intro Hk. change 0 with (inject_Z 0). rewrite <- Zlt_Qlt. lia.
Qed.

(** X1: decimation by a whole factor.  At a source rate of [k] times the
    target rate ([k >= 2]; 48000 Hz is [k = 3]) the output has
    [ceil(len / k)] samples and output [i] is the converted input sample
    [k * i]. *)
Theorem resample_integer_decimation
  (buffer : list Q) (sampleRate : Q) (k : nat)
  (Hk : (2 <= k)%nat)
  (Hrate : sampleRate == targetRate * inject_Z (Z.of_nat k)) :
  exists res,
    audioResample buffer sampleRate = Some res /\
    List.length res = ((List.length buffer + k - 1) / k)%nat /\
    forall i, (i < List.length res)%nat ->
      exists x,
        nth_error buffer (k * i) = Some x /\
        nth_error res i
          = Some (JS.ToInt16 (Qmax (-1) (Qmin 1 x) * 32768)).
Proof.
  pose proof (inject_nat_pos k ltac:(lia)) as HkQ.
  assert (Hk2 : 2 <= inject_Z (Z.of_nat k)).
  { change 2 with (inject_Z 2). rewrite <- Zle_Qle. lia. }
  assert (Hpos : 0 < sampleRate) by (rewrite Hrate; unfold targetRate; nra).
  assert (Hne : ~ sampleRate == targetRate).
  { rewrite Hrate. unfold targetRate. intro H. nra. }
  assert (Hratio : sampleRate / targetRate == inject_Z (Z.of_nat k)).
  { rewrite Hrate. unfold targetRate. field. }
  destruct (audioResample_decimates buffer sampleRate Hpos Hne)
    as (n & Hres & Hn).
  rewrite (Qceiling_comp _ _
             (Qdiv_comp _ _ (Qeq_refl _) _ _ Hratio)) in Hn.
  rewrite Qceiling_div_nat in Hn by lia.
  apply Nat2Z.inj in Hn. subst n.
  eexists. split; [exact Hres|].
  rewrite length_map, length_seq. split; [reflexivity|].
  intros i Hi.
  assert (Hidx : originalIndex (sampleRate / targetRate) i
                 = Z.of_nat (k * i)).
  { unfold originalIndex.
    rewrite (Qfloor_comp _ (inject_Z (Z.of_nat i * Z.of_nat k))).
    - rewrite Qfloor_Z. lia.
    - rewrite Hratio, inject_Z_mult. reflexivity. }
  assert (Hin : (k * i < List.length buffer)%nat).
  { pose proof (Nat.div_mod_eq (List.length buffer + k - 1) k) as Hd.
    pose proof (Nat.mod_upper_bound (List.length buffer + k - 1) k
                  ltac:(lia)) as Hm.
    nia. }
  destruct (nth_error buffer (k * i)) as [x|] eqn:Ex.
  - exists x. split; [reflexivity|].
    rewrite nth_error_map, nth_error_seq.
    destruct (Nat.ltb_spec i ((List.length buffer + k - 1) / k)); [|lia].
    simpl. f_equal. eapply decimate_at; eassumption.
  - apply nth_error_None in Ex. lia.
Qed.

Lemma resample_integer_decimation_witness :
  exists res,
    audioResample [0; 1 # 4; 1 # 2; 3 # 4; 1; -1; -(1 # 2)] 48000
      = Some res /\
    List.length res = 3%nat /\
    nth_error res 1 = Some 24576%Z.
Proof.
  destruct (resample_integer_decimation
              [0; 1 # 4; 1 # 2; 3 # 4; 1; -1; -(1 # 2)] 48000 3
              ltac:(lia) ltac:(reflexivity))
    as (res & Hres & Hlen & Hnth).
  exists res. split; [exact Hres|]. split; [exact Hlen|].
  destruct (Hnth 1%nat ltac:(rewrite Hlen; simpl; lia)) as (x & Hx & Hr).
  simpl in Hx. injection Hx as <-. exact Hr.
Defined.

(** X2: repetition by a whole factor.  At a source rate of one [k]-th of
    the target rate ([k >= 2]; 8000 Hz is [k = 2]) the output has
    [k * len] samples and output [i] is the converted input sample
    [i / k]: every input sample appears [k] times in a row. *)
Theorem resample_integer_repetition
  (buffer : list Q) (sampleRate : Q) (k : nat)
  (Hk : (2 <= k)%nat)
  (Hrate : sampleRate * inject_Z (Z.of_nat k) == targetRate) :
  exists res,
    audioResample buffer sampleRate = Some res /\
    List.length res = (k * List.length buffer)%nat /\
    forall i, (i < List.length res)%nat ->
      exists x,
        nth_error buffer (i / k) = Some x /\
        nth_error res i
          = Some (JS.ToInt16 (Qmax (-1) (Qmin 1 x) * 32768)).
Proof.
  pose proof (inject_nat_pos k ltac:(lia)) as HkQ.
  assert (Hk2 : 2 <= inject_Z (Z.of_nat k)).
  { change 2 with (inject_Z 2). rewrite <- Zle_Qle. lia. }
  unfold targetRate in Hrate.
  assert (Hpos : 0 < sampleRate) by nra.
  assert (Hne : ~ sampleRate == targetRate).
  { unfold targetRate. intro H. nra. }
  assert (Hratio : sampleRate / targetRate == 1 / inject_Z (Z.of_nat k)).
  { unfold targetRate. rewrite <- Hrate. field. lra. }
  destruct (audioResample_decimates buffer sampleRate Hpos Hne)
    as (n & Hres & Hn).
  rewrite (Qceiling_comp _
             (inject_Z (Z.of_nat (List.length buffer) * Z.of_nat k)))
    in Hn.
  2:{ rewrite Hratio, inject_Z_mult. field. lra. }
  rewrite Qceiling_Z in Hn.
  assert (Hn' : n = (k * List.length buffer)%nat) by lia. subst n.
  eexists. split; [exact Hres|].
  rewrite length_map, length_seq. split; [reflexivity|].
  intros i Hi.
  assert (Hidx : originalIndex (sampleRate / targetRate) i
                 = Z.of_nat (i / k)).
  { unfold originalIndex. rewrite Nat2Z.inj_div, Zdiv_Qdiv.
    apply Qfloor_comp. rewrite Hratio. field. lra. }
  assert (Hin : (i / k < List.length buffer)%nat).
  { apply Nat.Div0.div_lt_upper_bound. lia. }
  destruct (nth_error buffer (i / k)) as [x|] eqn:Ex.
  - exists x. split; [reflexivity|].
    rewrite nth_error_map, nth_error_seq.
    destruct (Nat.ltb_spec i (k * List.length buffer)); [|lia].
    simpl. f_equal. eapply decimate_at; eassumption.
  - apply nth_error_None in Ex. lia.
Qed.

Lemma resample_integer_repetition_witness :
  audioResample [1 # 2; -(1 # 4); 0] 8000
  = Some [16384; 16384; -8192; -8192; 0; 0]%Z.
Proof.
  destruct (resample_integer_repetition [1 # 2; -(1 # 4); 0] 8000 2
              ltac:(lia) ltac:(reflexivity))
    as (res & Hres & _ & _).
  rewrite Hres. vm_compute in Hres. injection Hres as <-. reflexivity.
Defined.

Lemma Qfloor_unique (x : Q) (z : Z) :
  inject_Z z <= x -> x < inject_Z (z + 1) -> Qfloor x = z.
Proof.
  intros Hl Hu.
  assert (H1 : (z <= Qfloor x)%Z).
  { rewrite <- (Qfloor_Z z). apply Qfloor_resp_le. exact Hl. }
  assert (H2 : (Qfloor x < z + 1)%Z).
  { rewrite Zlt_Qlt. eapply Qle_lt_trans; [apply Qfloor_le | exact Hu]. }
  lia.
Qed.

(** X3: the order of the samples.  Source indices never decrease with the
    output index; above the target rate they strictly increase, so no input
    sample is used twice; below the target rate every input sample is
    used by some output sample. *)
Theorem resample_source_indices (len : nat) (sampleRate : Q)
  (Hpos : 0 < sampleRate) :
  let ratio := sampleRate / targetRate in
  (forall i j, (i <= j)%nat ->
     (originalIndex ratio i <= originalIndex ratio j)%Z) /\
  (targetRate < sampleRate ->
   forall i j, (i < j)%nat ->
     (originalIndex ratio i < originalIndex ratio j)%Z) /\
  (sampleRate < targetRate ->
   forall j, (j < len)%nat ->
     exists i n,
       newLength len ratio = Some n /\ (i < n)%nat /\
       originalIndex ratio i = Z.of_nat j).
Proof.
  intro ratio.
  assert (Hr : 0 < ratio).
  { unfold ratio, targetRate. apply Qlt_shift_div_l; lra. }
  split; [|split].
  - intros i j Hij. unfold originalIndex. apply Qfloor_resp_le.
    assert (inject_Z (Z.of_nat i) <= inject_Z (Z.of_nat j))
      by (rewrite <- Zle_Qle; lia).
    nra.
  - intros Hdown i j Hij. unfold originalIndex.
    assert (Hr1 : 1 <= ratio).
    { unfold ratio, targetRate in *. apply Qle_shift_div_l; lra. }
    assert (Hstep : inject_Z (Z.of_nat i) + 1 <= inject_Z (Z.of_nat j)).
    { change 1 with (inject_Z 1). rewrite <- inject_Z_plus, <- Zle_Qle.
      lia. }
    assert (Hi0 : 0 <= inject_Z (Z.of_nat i)).
    { change 0 with (inject_Z 0). rewrite <- Zle_Qle. lia. }
    set (a := inject_Z (Z.of_nat i)) in *.
    set (b := inject_Z (Z.of_nat j)) in *.
    assert (Hgap : a * ratio + 1 <= b * ratio) by nra.
    assert (H1 : (Qfloor (a * ratio) + 1 <= Qfloor (b * ratio))%Z).
    { rewrite <- (Qfloor_Z (Qfloor (a * ratio) + 1)).
      apply Qfloor_resp_le. rewrite inject_Z_plus.
      pose proof (Qfloor_le (a * ratio)). change (inject_Z 1) with 1. lra. }
    lia.
  - intros Hup j Hj.
    assert (Hr1 : ratio < 1).
    { unfold ratio, targetRate in *. apply Qlt_shift_div_r; lra. }
    destruct (newLength_positive len ratio Hr) as (n & Hn & Hc).
    set (J := inject_Z (Z.of_nat j)).
    set (L := inject_Z (Z.of_nat len)) in *.
    assert (HJ0 : 0 <= J).
    { unfold J. change 0 with (inject_Z 0). rewrite <- Zle_Qle. lia. }
    assert (HJL : J + 1 <= L).
    { unfold J, L. change 1 with (inject_Z 1).
      rewrite <- inject_Z_plus, <- Zle_Qle. lia. }
    set (c := Qceiling (J / ratio)).
    assert (Hc1 : J / ratio <= inject_Z c) by apply Qle_ceiling.
    assert (Hc2 : inject_Z c < J / ratio + 1).
    { pose proof (Qceiling_lt (J / ratio)) as H. fold c in H.
      unfold Z.sub in H. rewrite inject_Z_plus, inject_Z_opp in H.
      change (inject_Z 1) with 1 in H. lra. }
    assert (HJr : J / ratio * ratio == J) by (field; lra).
    assert (HLr : L / ratio * ratio == L) by (field; lra).
    assert (Hq0 : 0 <= J / ratio).
    { apply Qle_shift_div_l; [exact Hr | lra]. }
    assert (Hc0 : (0 <= c)%Z).
    { unfold c. rewrite <- (Qceiling_Z 0). apply Qceiling_resp_le.
      exact Hq0. }
    exists (Z.to_nat c), n. split; [exact Hn|]. split.
    + assert (Hlt : inject_Z c < inject_Z (Z.of_nat n)).
      { rewrite Hc. eapply Qlt_le_trans; [|apply Qle_ceiling].
        fold L.
        assert (J / ratio * ratio + ratio < L / ratio * ratio)
          by (rewrite HJr, HLr; lra).
        nra. }
      rewrite <- Zlt_Qlt in Hlt. lia.
    + unfold originalIndex. rewrite Z2Nat.id by exact Hc0.
      apply Qfloor_unique; fold J.
      * assert (J / ratio * ratio <= inject_Z c * ratio) by nra. lra.
      * rewrite inject_Z_plus. change (inject_Z 1) with 1. fold J.
        assert (inject_Z c * ratio < (J / ratio + 1) * ratio) by nra.
        nra.
Qed.

Lemma resample_source_indices_witness :
  (originalIndex (44100 / targetRate) 3
   < originalIndex (44100 / targetRate) 4)%Z /\
  exists i n,
    newLength 5 (11025 / targetRate) = Some n /\ (i < n)%nat /\
    originalIndex (11025 / targetRate) i = 4%Z.
Proof.
  destruct (resample_source_indices 5 44100 ltac:(reflexivity))
    as (_ & Hdown & _).
  destruct (resample_source_indices 5 11025 ltac:(reflexivity))
    as (_ & _ & Hup).
  split.
  - apply Hdown; [reflexivity | lia].
  - apply (Hup ltac:(reflexivity) 4%nat). lia.
Defined.

Lemma ToInt16_32768 : JS.ToInt16 32768 = (-32768)%Z.
Proof. reflexivity. Qed.

Lemma ToInt16_neg32768 : JS.ToInt16 (-32768) = (-32768)%Z.
Proof. reflexivity. Qed.

(** X4: clipping on the decimation path.  The sample read is clamped to
    [-1, 1] and then multiplied by 32768, so a sample at or above 1 is
    stored as -32768 (the store wraps 32768 around), as is a sample at or
    below -1; a sample inside (-1, 1) is stored as its product with 32768
    truncated toward zero. *)
Theorem resample_decimation_clipping
  (buffer : list Q) (sampleRate : Q) (res : list Z) (i : nat)
  (Hpos : 0 < sampleRate) (Hne : ~ sampleRate == targetRate)
  (Hres : audioResample buffer sampleRate = Some res)
  (Hi : (i < List.length res)%nat) :
  exists x,
    JS.typedGet buffer (originalIndex (sampleRate / targetRate) i)
      = Some x /\
    (1 <= x -> nth_error res i = Some (-32768)%Z) /\
    (x <= -1 -> nth_error res i = Some (-32768)%Z) /\
    (-1 < x -> x < 1 ->
     nth_error res i = Some (JS.truncate (x * 32768))).
Proof.
  destruct (audioResample_decimates buffer sampleRate Hpos Hne)
    as (n & Hres' & Hn).
  rewrite Hres' in Hres. injection Hres as <-.
  rewrite length_map, length_seq in Hi.
  assert (Hr : 0 < sampleRate / targetRate).
  { unfold targetRate. apply Qlt_shift_div_l; lra. }
  pose proof (originalIndex_in_bounds (List.length buffer) _ i Hr
                ltac:(lia)) as Hb.
  set (idx := originalIndex (sampleRate / targetRate) i) in *.
  assert (Hget : exists x, JS.typedGet buffer idx = Some x).
  { unfold JS.typedGet. destruct (Z.ltb_spec idx 0); [lia|].
    destruct (nth_error buffer (Z.to_nat idx)) eqn:E; [eauto|].
    apply nth_error_None in E. lia. }
  destruct Hget as [x Hx]. exists x. split; [exact Hx|].
  assert (Hnth : nth_error (map (decimate buffer (sampleRate / targetRate))
                              (seq 0 n)) i
                 = Some (JS.ToInt16 (Qmax (-1) (Qmin 1 x) * 32768))).
  { rewrite nth_error_map, nth_error_seq.
    destruct (Nat.ltb_spec i n); [|lia]. simpl. f_equal.
    unfold decimate. fold idx. rewrite Hx. reflexivity. }
  rewrite Hnth. split; [|split].
  - intro H1. f_equal. rewrite <- ToInt16_32768. apply ToInt16_comp.
    rewrite (Q.min_l 1 x) by exact H1. rewrite Q.max_r by lra.
    reflexivity.
  - intro H1. f_equal. rewrite <- ToInt16_neg32768. apply ToInt16_comp.
    rewrite (Q.min_r 1 x) by lra. rewrite Q.max_l by exact H1.
    reflexivity.
  - intros H1 H2. f_equal.
    rewrite (ToInt16_comp _ (x * 32768)).
    + apply ToInt16_in_range; lra.
    + rewrite (Q.min_r 1 x) by lra. rewrite Q.max_r by lra. reflexivity.
Qed.

Lemma resample_decimation_clipping_witness :
  nth_error [0; 24576; -32768; -32768]%Z 2 = Some (-32768)%Z /\
  nth_error [0; 24576; -32768; -32768]%Z 1
    = Some (JS.truncate ((3 # 4) * 32768)).
Proof.
  assert (Hres : audioResample
                   [0; 1 # 4; 1 # 2; 3 # 4; 1; -1; 3 # 2; -(1 # 2); 1;
                    5 # 4] 48000
                 = Some [0; 24576; -32768; -32768]%Z)
    by (vm_compute; reflexivity).
  split.
  - destruct (resample_decimation_clipping _ 48000 _ 2
                ltac:(reflexivity) ltac:(cbv; discriminate) Hres
                ltac:(simpl; lia))
      as (x & Hx & Hhi & _).
    vm_compute in Hx. injection Hx as <-.
    apply Hhi. cbv. discriminate.
  - destruct (resample_decimation_clipping _ 48000 _ 1
                ltac:(reflexivity) ltac:(cbv; discriminate) Hres
                ltac:(simpl; lia))
      as (x & Hx & _ & _ & Hmid).
    vm_compute in Hx. injection Hx as <-.
    apply Hmid; reflexivity.
Defined.

End ResamplerShape.

(** ** PCM codec *)

Section CodecFacts.

Import Resampler Codec.

Lemma ToInt16_range (x : Q) : (-32768 <= JS.ToInt16 x <= 32767)%Z.
Proof.
  unfold JS.ToInt16. cbv zeta.
  pose proof (Z.mod_pos_bound (JS.truncate x) 65536 ltac:(lia)) as H.
  destruct (Z.leb_spec 32768 (JS.truncate x mod 65536)); lia.
Qed.

Lemma storeInt16_range (v : JS.number) :
  (-32768 <= JS.storeInt16 v <= 32767)%Z.
Proof.
  destruct v as [x|]; simpl; [apply ToInt16_range | lia].
Qed.

Lemma audioResample_int16 (buffer : list Q) (rate : Q) (res : list Z) :
  audioResample buffer rate = Some res ->
  Forall (fun z => (-32768 <= z <= 32767)%Z) res.
Proof.
  unfold audioResample.
  destruct (Qeq_bool rate targetRate).
  - intro H. injection H as <-. apply Forall_forall.
    intros z Hz. apply in_map_iff in Hz. destruct Hz as (x & <- & _).
    apply ToInt16_range.
  - cbv zeta. destruct (newLength _ _) as [n|]; [|discriminate].
    intro H. injection H as <-. apply Forall_forall.
    intros z Hz. apply in_map_iff in Hz. destruct Hz as (i & <- & _).
    apply storeInt16_range.
Qed.

Lemma to_N_byteOfZ (w : Z) :
  Z.of_N (Byte.to_N (byteOfZ w)) = (w mod 256)%Z.
Proof.
  unfold byteOfZ.
  pose proof (Z.mod_pos_bound w 256 ltac:(lia)) as Hb.
  destruct (Byte.of_N (Z.to_N (w mod 256))) as [b|] eqn:E.
  - apply Byte.to_of_N in E. rewrite E. lia.
  - apply Byte.of_N_None_iff in E. lia.
Qed.

Lemma int16OfBytes_bytesOfInt16 (z : Z) :
  (-32768 <= z <= 32767)%Z ->
  int16OfBytes (byteOfZ (z mod 65536)) (byteOfZ (z mod 65536 / 256)) = z.
Proof.
  intro Hz. unfold int16OfBytes. rewrite !to_N_byteOfZ.
  set (u := (z mod 65536)%Z).
  assert (Hu : (0 <= u < 65536)%Z) by (apply Z.mod_pos_bound; lia).
  assert (Hhi : (u / 256 mod 256 = u / 256)%Z).
  { apply Z.mod_small. split.
    - apply Z.div_pos; lia.
    - apply Z.div_lt_upper_bound; lia. }
  rewrite Hhi.
  assert (Hsum : (u mod 256 + 256 * (u / 256) = u)%Z).
  { pose proof (Z.div_mod u 256 ltac:(lia)). lia. }
  rewrite Hsum.
  destruct (Z.le_gt_cases 0 z) as [Hpos | Hneg].
  - assert (u = z) by (unfold u; apply Z.mod_small; lia).
    destruct (Z.leb_spec 32768 u); lia.
  - assert (u = (z + 65536)%Z).
    { unfold u. symmetry. apply Z.mod_unique with (q := (-1)%Z); lia. }
    destruct (Z.leb_spec 32768 u); lia.
Qed.

Lemma int16View_uint8View (samples : list Z) :
  Forall (fun z => (-32768 <= z <= 32767)%Z) samples ->
  int16View (uint8View samples) = Some samples.
Proof.
  induction 1 as [|z l Hz _ IH]; [reflexivity|].
  unfold uint8View in *. simpl. rewrite IH.
  rewrite int16OfBytes_bytesOfInt16 by exact Hz. reflexivity.
Qed.

Lemma int16View_length (bytes : list Byte.byte) (l : list Z) :
  int16View bytes = Some l -> List.length bytes = (2 * List.length l)%nat.
Proof.
  revert l.
  induction bytes as [bytes IH] using (well_founded_induction
    (Wf_nat.well_founded_ltof _ (@List.length Byte.byte))).
  intros l H. destruct bytes as [|lo [|hi rest]]; simpl in H.
  - injection H as <-. reflexivity.
  - discriminate.
  - destruct (int16View rest) as [l'|] eqn:E; [|discriminate].
    injection H as <-. simpl.
    rewrite (IH rest ltac:(unfold Wf_nat.ltof; simpl; lia) l' E). lia.
Qed.

Lemma int16View_even (bytes : list Byte.byte) :
  Nat.even (List.length bytes) = true ->
  exists l, int16View bytes = Some l.
Proof.
  induction bytes as [bytes IH] using (well_founded_induction
    (Wf_nat.well_founded_ltof _ (@List.length Byte.byte))).
  intro H. destruct bytes as [|lo [|hi rest]]; simpl in *.
  - eauto.
  - discriminate.
  - destruct (IH rest ltac:(unfold Wf_nat.ltof; simpl; lia) H) as [l Hl].
    rewrite Hl. eauto.
Qed.

Lemma int16View_odd (bytes : list Byte.byte) :
  Nat.even (List.length bytes) = false -> int16View bytes = None.
Proof.
  intro H. destruct (int16View bytes) as [l|] eqn:E; [|reflexivity].
  apply int16View_length in E. rewrite E in H.
  rewrite Nat.even_mul in H. discriminate.
Qed.

Lemma int16View_range (bytes : list Byte.byte) (l : list Z) :
  int16View bytes = Some l ->
  Forall (fun z => (-32768 <= z <= 32767)%Z) l.
Proof.
  revert l.
  induction bytes as [bytes IH] using (well_founded_induction
    (Wf_nat.well_founded_ltof _ (@List.length Byte.byte))).
  intros l H. destruct bytes as [|lo [|hi rest]]; simpl in H.
  - injection H as <-. constructor.
  - discriminate.
  - destruct (int16View rest) as [l'|] eqn:E; [|discriminate].
    injection H as <-. constructor.
    + unfold int16OfBytes.
      pose proof (Byte.to_N_bounded lo). pose proof (Byte.to_N_bounded hi).
      destruct (Z.leb_spec 32768
                  (Z.of_N (Byte.to_N lo) + 256 * Z.of_N (Byte.to_N hi)));
        lia.
    + apply (IH rest ltac:(unfold Wf_nat.ltof; simpl; lia) l' E).
Qed.

Lemma truncate_inject_Z (n : Z) : JS.truncate (inject_Z n) = n.
Proof. unfold JS.truncate. simpl. apply Z.quot_1_r. Qed.

Lemma decodeSample_range (z : Z) :
  (-32768 <= z <= 32767)%Z ->
  -1 <= decodeSample z /\ decodeSample z < 1.
Proof.
  intros [Hl Hu]. unfold decodeSample.
  assert (H1 : inject_Z (-32768) <= inject_Z z) by (rewrite <- Zle_Qle; lia).
  assert (H2 : inject_Z z < inject_Z 32768) by (rewrite <- Zlt_Qlt; lia).
  change (inject_Z (-32768)) with (-32768) in H1.
  change (inject_Z 32768) with 32768 in H2.
  unfold Qdiv. change (/ 32768) with (1 # 32768). lra.
Qed.

(** X5: the uplink blob carries the resampled samples unchanged.  Whatever
    [audioResample] returns, the blob built from it has the PCM mime type,
    and decoding its base64 data gives twice as many bytes as samples,
    which read back as 16-bit integers are the samples themselves. *)
Theorem pcm_blob_round_trip
  (p : Base64) (buffer : list Q) (rate : Q) (res : list Z)
  (Hbase64 : forall bytes, atob p (btoa p bytes) = Some bytes)
  (Hres : audioResample buffer rate = Some res) :
  mimeType (createPcmData p res) = "audio/pcm;rate=16000"%string /\
  exists bytes,
    decode p (data (createPcmData p res)) = Some bytes /\
    List.length bytes = (2 * List.length res)%nat /\
    int16View bytes = Some res.
Proof.
  split; [reflexivity|].
  exists (uint8View res).
  pose proof (int16View_uint8View res (audioResample_int16 _ _ _ Hres))
    as Hview.
  split; [apply Hbase64|]. split; [|exact Hview].
  apply int16View_length. exact Hview.
Qed.

Lemma pcm_blob_round_trip_witness :
  exists bytes,
    decode plainBase64
      (data (createPcmData plainBase64 [16384; -8192; 0]%Z)) = Some bytes /\
    List.length bytes = 6%nat /\
    int16View bytes = Some [16384; -8192; 0]%Z.
Proof.
  destruct (pcm_blob_round_trip plainBase64 [1 # 2; -(1 # 4); 0] 16000
              [16384; -8192; 0]%Z)
    as (_ & bytes & H1 & H2 & H3).
  - intro bytes. simpl. f_equal. apply list_byte_of_string_of_list_byte.
  - reflexivity.
  - exists bytes. auto.
Defined.

(** X6: decoding a downlink payload as mono audio.  A payload with an odd
    number of bytes, or none, is refused.  A payload of [2n] bytes,
    [n >= 1], gives one channel of [n] samples, each the 16-bit integer of
    its byte pair divided by 32768 and hence in [-1, 1), and a buffer
    lasting [n / rate] seconds. *)
Theorem decodeAudioData_mono
  (bytes : list Byte.byte) (rate : Q)
  (Hlo : 8000 <= rate) (Hhi : rate <= 96000)
  (Hsize : (Z.of_nat (List.length bytes) < 2 * 4294967296)%Z) :
  (Nat.even (List.length bytes) = false \/ bytes = [] ->
   decodeAudioData bytes rate 1 = None) /\
  (Nat.even (List.length bytes) = true -> bytes <> [] ->
   exists buf samples,
     decodeAudioData bytes rate 1 = Some buf /\
     int16View bytes = Some samples /\
     channels buf = [map (fun z => Some (decodeSample z)) samples] /\
     Codec.length buf = (List.length bytes / 2)%nat /\
     duration buf == inject_Z (Z.of_nat (List.length bytes / 2)) / rate /\
     Forall (fun z => -1 <= decodeSample z /\ decodeSample z < 1) samples).
Proof.
  assert (Hlob : JS.ltb rate 8000 = false) by (apply ltb_ge; exact Hlo).
  assert (Hhib : JS.gtb rate 96000 = false) by (apply gtb_le; exact Hhi).
  split.
  - intros [Hodd | ->].
    + unfold decodeAudioData. rewrite (int16View_odd _ Hodd). reflexivity.
    + reflexivity.
  - intros Heven Hne.
    destruct (int16View_even bytes Heven) as [samples Hs].
    pose proof (int16View_length _ _ Hs) as Hlen.
    assert (Hn : (List.length bytes / 2 = List.length samples)%nat).
    { rewrite Hlen, Nat.mul_comm. apply Nat.div_mul. lia. }
    assert (Hpos : (0 < List.length samples)%nat).
    { destruct bytes; [contradiction|]. simpl in Hlen. lia. }
    set (n := List.length samples) in *.
    assert (Htr : JS.truncate (inject_Z (Z.of_nat n) / inject_Z (Z.of_nat 1))
                  = Z.of_nat n).
    { rewrite (truncate_comp _ (inject_Z (Z.of_nat n))).
      - apply truncate_inject_Z.
      - simpl. field. }
    assert (Hbuf : createBuffer 1
                     (inject_Z (Z.of_nat n) / inject_Z (Z.of_nat 1)) rate
                   = Some n).
    { unfold createBuffer. rewrite Htr.
      rewrite Z.mod_small by lia. rewrite Hlob, Hhib.
      destruct (Z.eqb_spec (Z.of_nat n) 0); [lia|].
      simpl. f_equal. apply Nat2Z.id. }
    eexists. exists samples.
    unfold decodeAudioData. rewrite Hs. simpl Nat.eqb. cbv iota zeta.
    fold n. rewrite Hbuf.
    split; [reflexivity|]. split; [reflexivity|].
    split; [|split; [|split]].
    + simpl. f_equal.
      apply nth_error_ext. intro i.
      rewrite !nth_error_map, nth_error_seq.
      destruct (Nat.ltb_spec i n) as [Hi | Hi].
      * simpl. rewrite Nat.mul_1_r, Nat.add_0_r.
        destruct (nth_error samples i) eqn:E; [reflexivity|].
        apply nth_error_None in E. fold n in E. lia.
      * simpl. replace (nth_error samples i) with (@None Z);
          [reflexivity|].
        symmetry. apply nth_error_None. fold n. exact Hi.
    + simpl. symmetry. exact Hn.
    + unfold duration. cbn [Codec.length Codec.sampleRate].
      rewrite Hn. reflexivity.
    + pose proof (int16View_range _ _ Hs) as Hr.
      eapply Forall_impl; [|exact Hr].
      intros z Hz. apply decodeSample_range. exact Hz.
Qed.

Lemma decodeAudioData_mono_witness :
  decodeAudioData [Byte.x00; Byte.x40; Byte.x00] 24000 1 = None /\
  exists buf,
    decodeAudioData [Byte.x00; Byte.x40; Byte.x00; Byte.xe0] 24000 1
      = Some buf /\
    channels buf = [[Some (decodeSample 16384); Some (decodeSample (-8192))]] /\
    duration buf == 2 # 24000.
Proof.
  split.
  - apply (decodeAudioData_mono [Byte.x00; Byte.x40; Byte.x00] 24000);
      [discriminate | discriminate | reflexivity | left; reflexivity].
  - destruct (decodeAudioData_mono
                [Byte.x00; Byte.x40; Byte.x00; Byte.xe0] 24000
                ltac:(discriminate) ltac:(discriminate)
                ltac:(reflexivity))
      as [_ H].
    destruct (H eq_refl ltac:(discriminate))
      as (buf & samples & Hbuf & Hs & Hch & _ & Hdur & _).
    exists buf. split; [exact Hbuf|].
    vm_compute in Hs. injection Hs as <-.
    split; [exact Hch | exact Hdur].
Defined.

(** X7: the two 16-bit conversions agree.  Converting a decoded 16-bit
    sample back gives the same integer; converting a sample of [-1, 1) and
    decoding it gives a value that is no larger in magnitude and off by
    less than 1/32768. *)
Theorem pcm_quantisation_round_trip :
  (forall z, (-32768 <= z <= 32767)%Z -> quantize (decodeSample z) = z) /\
  (forall x, -1 <= x -> x < 1 ->
     Qabs (decodeSample (quantize x) - x) < 1 # 32768 /\
     Qabs (decodeSample (quantize x)) <= Qabs x).
Proof.
  split.
  - intros z Hz. unfold quantize.
    rewrite (ToInt16_comp _ (inject_Z z)).
    + destruct (decodeSample_range z Hz) as [H1 H2].
      unfold decodeSample in H1, H2.
      rewrite ToInt16_in_range, truncate_inject_Z; [reflexivity| |].
      * change (-32768) with (inject_Z (-32768)). rewrite <- Zle_Qle. lia.
      * change 32768 with (inject_Z 32768). rewrite <- Zlt_Qlt. lia.
    + unfold decodeSample. field.
  - intros x Hl Hu.
    destruct (quantize_in_range x Hl Hu) as [-> _].
    rewrite truncate_floor_ceiling. unfold decodeSample.
    unfold Qdiv. change (/ 32768) with (1 # 32768).
    destruct (Qle_bool 0 (x * 32768)) eqn:E.
    + apply Qle_bool_iff in E.
      pose proof (Qfloor_le (x * 32768)) as H1.
      pose proof (Qlt_floor (x * 32768)) as H2.
      rewrite inject_Z_plus in H2. change (inject_Z 1) with 1 in H2.
      assert (H0 : 0 <= inject_Z (Qfloor (x * 32768))).
      { change 0 with (inject_Z 0). rewrite <- Zle_Qle.
        rewrite <- (Qfloor_Z 0). apply Qfloor_resp_le. exact E. }
      split.
      * apply Qabs_Qlt_condition. split; lra.
      * rewrite !Qabs_pos by lra. lra.
    + assert (Hneg : x * 32768 < 0).
      { apply Qnot_le_lt. intro H. apply Qle_bool_iff in H. congruence. }
      pose proof (Qle_ceiling (x * 32768)) as H1.
      pose proof (Qceiling_lt (x * 32768)) as H2.
      unfold Z.sub in H2. rewrite inject_Z_plus, inject_Z_opp in H2.
      change (inject_Z 1) with 1 in H2.
      assert (H0 : inject_Z (Qceiling (x * 32768)) <= 0).
      { change 0 with (inject_Z 0). rewrite <- Zle_Qle.
        rewrite <- (Qceiling_Z 0). apply Qceiling_resp_le.
        change (inject_Z 0) with 0. lra. }
      split.
      * apply Qabs_Qlt_condition. split; lra.
      * rewrite !Qabs_neg by lra. lra.
Qed.

Lemma pcm_quantisation_round_trip_witness :
  quantize (decodeSample (-12345)) = (-12345)%Z /\
  Qabs (decodeSample (quantize (1 # 3)) - (1 # 3)) < 1 # 32768.
Proof.
  destruct pcm_quantisation_round_trip as [Hback Hforth].
  split.
  - apply Hback. lia.
  - apply Hforth; [cbv; discriminate | reflexivity].
Defined.

End CodecFacts.

(** ** The transcript of the live session *)

Section TranscriptFacts.

Import Live.

Lemma string_app_assoc (a b c : string) :
  ((a ++ b) ++ c = a ++ (b ++ c))%string.
Proof.
  induction a as [|x a IH]; simpl; [reflexivity|]. rewrite IH. reflexivity.
Qed.

Lemma string_app_nil (a : string) : (a ++ EmptyString)%string = a.
Proof.
  induction a as [|x a IH]; simpl; [reflexivity|]. rewrite IH. reflexivity.
Qed.

Lemma transcriptText_app (a b : list TranscriptItem) :
  transcriptText (a ++ b)
  = (transcriptText a ++ transcriptText b)%string.
Proof.
  induction a as [|x a IH]; simpl; [reflexivity|].
  rewrite IH, string_app_assoc. reflexivity.
Qed.

(** The two ways the updater returns: the fragment merged into a last
    item that is open, or a new item of the coach. *)
Lemma coalesce_cases (open : TranscriptItem -> bool)
      (prev : list TranscriptItem) (delta : string) :
  (exists init last,
      prev = init ++ [last] /\ open last = true /\
      coalesce open prev delta
      = init ++ [mkItem (source last) (text last ++ delta)%string]) \/
  coalesce open prev delta = prev ++ [mkItem ai delta].
Proof.
  unfold coalesce.
  destruct prev as [|x prev'] using rev_ind; [right; reflexivity|].
  rewrite map_app. simpl map. rewrite last_last.
  destruct (open x) eqn:E; [|right; reflexivity].
  left. exists prev', x. rewrite removelast_last. auto.
Qed.

Lemma coalesce_stream (open : TranscriptItem -> bool)
      (Hopen : forall i, open i = true -> isAi (source i) = true)
      (deltas : list string) :
  forall prev,
    let out := fold_left (coalesce open) deltas prev in
    transcriptText out
    = (transcriptText prev
       ++ fold_right String.append EmptyString deltas)%string /\
    (List.length prev <= List.length out
     <= List.length prev + List.length deltas)%nat /\
    (exists tail, out = removelast prev ++ tail) /\
    systemItems out = systemItems prev.
Proof.
  induction deltas as [|d rest IH]; intro prev; simpl.
  - rewrite string_app_nil. split; [reflexivity|]. split; [lia|].
    split; [|reflexivity].
    destruct prev as [|x prev'] using rev_ind.
    + exists []. reflexivity.
    + exists [x]. rewrite removelast_last. reflexivity.
  - destruct (IH (coalesce open prev d)) as (Htext & Hlen & [tail Hpre] & Hsys).
    destruct (coalesce_cases open prev d)
      as [(init & last & Hprev & Hlast & Hout) | Hout];
      rewrite Hout in *.
    + subst prev. rewrite removelast_last in *.
      split; [|split; [|split]].
      * rewrite Htext, !transcriptText_app. simpl.
        rewrite !string_app_nil, !string_app_assoc. reflexivity.
      * rewrite !length_app in *. simpl in *. lia.
      * exists tail. exact Hpre.
      * rewrite Hsys. unfold systemItems. rewrite !filter_app. simpl.
        rewrite (Hopen _ Hlast). reflexivity.
    + rewrite removelast_last in Hpre.
      split; [|split; [|split]].
      * rewrite Htext, transcriptText_app. simpl.
        rewrite string_app_nil, string_app_assoc. reflexivity.
      * rewrite length_app in Hlen. simpl in Hlen. lia.
      * destruct prev as [|x prev'] using rev_ind.
        -- eexists. simpl. reflexivity.
        -- rewrite removelast_last. exists (x :: tail).
           rewrite Hpre, <- app_assoc. reflexivity.
      * rewrite Hsys. unfold systemItems. rewrite filter_app. simpl.
        apply app_nil_r.
Qed.

(** X8: the transcript keeps everything the coach said.  In both
    revisions of the component, after any run of transcription fragments
    the text of the transcript is the text it had followed by the
    fragments in order; the list grows by at most one item per fragment
    and never shrinks; every item but the last one it had is left as it
    was; and the items of the system are never changed. *)
Theorem transcript_stream_preserved :
  let preserved
        (append : list TranscriptItem -> string -> list TranscriptItem) :=
    forall (deltas : list string) (prev : list TranscriptItem),
      let out := fold_left append deltas prev in
      transcriptText out
      = (transcriptText prev
         ++ fold_right String.append EmptyString deltas)%string /\
      (List.length prev <= List.length out
       <= List.length prev + List.length deltas)%nat /\
      (exists tail, out = removelast prev ++ tail) /\
      systemItems out = systemItems prev in
  preserved appendTranscript /\ preserved appendTranscript'.
Proof.
  split; intros deltas prev; apply coalesce_stream; intros i Hi.
  - unfold openFragment in Hi.
    destruct (isAi (source i)); [reflexivity | discriminate].
  - unfold openFragment' in Hi.
    destruct (isAi (source i)); [reflexivity | discriminate].
Qed.

End TranscriptFacts.

(** ** The downlink handler over a whole session *)

Section LiveFacts.

Import Codec Playback Live.

Lemma coalesce_text (open : TranscriptItem -> bool)
      (prev : list TranscriptItem) (delta : string) :
  transcriptText (coalesce open prev delta)
  = (transcriptText prev ++ delta)%string.
Proof.
  destruct (coalesce_cases open prev delta)
    as [(init & last & -> & _ & ->) | ->];
    rewrite !transcriptText_app; simpl;
    rewrite !string_app_nil, ?string_app_assoc; reflexivity.
Qed.

Lemma decodeAudioData_duration (bytes : list Byte.byte) (rate : Q)
      (numChannels : nat) (buf : AudioBuffer) :
  decodeAudioData bytes rate numChannels = Some buf ->
  0 < rate -> 0 <= duration buf.
Proof.
  unfold decodeAudioData. intros H Hrate.
  destruct (int16View bytes) as [dataInt16|]; [|discriminate].
  destruct (numChannels =? 0)%nat; [discriminate|].
  destruct (createBuffer _ _ _) as [len|]; [|discriminate].
  injection H as <-. unfold duration. cbn [Codec.length Codec.sampleRate].
  apply Qle_shift_div_l; [exact Hrate|].
  rewrite Qmult_0_l. change 0 with (inject_Z 0). rewrite <- Zle_Qle. lia.
Qed.

Lemma wellScheduled_schedule (now d : Q) (sch : Scheduler) :
  0 <= d -> wellScheduled sch -> wellScheduled (scheduleBuffer now d sch).
Proof.
  intros Hd (Hsort & Hend & Hid & Hnd & Hind).
  assert (Hnext : nextStartTime sch
                  <= (if JS.ltb (nextStartTime sch) now then now
                      else nextStartTime sch)).
  { destruct (JS.ltb (nextStartTime sch) now) eqn:E.
    - apply ltb_lt in E. lra.
    - lra. }
  unfold wellScheduled, scheduleBuffer. cbn [audioSources nextStartTime
    started isAiTalking].
  set (next := if JS.ltb (nextStartTime sch) now then now
               else nextStartTime sch) in *.
  split; [|split; [|split; [|split]]].
  - unfold noOverlap in *.
    induction (audioSources sch) as [|x l IH].
    + simpl. constructor; constructor.
    + simpl. inversion Hsort; subst. inversion Hend; subst.
      constructor.
      * apply IH; assumption || (inversion Hid; assumption)
                  || (inversion Hnd; assumption) || auto.
        intros _. apply Hind. discriminate.
      * apply Forall_app. split; [assumption|].
        constructor; [|constructor]. simpl. lra.
  - apply Forall_app. split.
    + eapply Forall_impl; [|exact Hend]. simpl. intros x Hx. lra.
    + constructor; [|constructor]. unfold src_end. simpl. lra.
  - apply Forall_app. split.
    + eapply Forall_impl; [|exact Hid]. simpl. intros x Hx.
      rewrite length_app. simpl. lia.
    + constructor; [|constructor]. simpl. rewrite length_app. simpl. lia.
  - rewrite map_app. simpl.
    apply NoDup_app; [exact Hnd | constructor; [intros []|constructor] |].
    intros i Hi [Hi' | []]. subst i.
    apply in_map_iff in Hi. destruct Hi as (x & Hx & Hin).
    rewrite Forall_forall in Hid. specialize (Hid x Hin). lia.
  - reflexivity.
Qed.

Lemma wellScheduled_interrupted (sch : Scheduler) :
  wellScheduled (handleInterrupted sch).
Proof.
  unfold wellScheduled, handleInterrupted, noOverlap. simpl.
  repeat split; try constructor. intro H. contradiction.
Qed.

Lemma wellScheduled_setTalking (sch : Scheduler) :
  wellScheduled sch -> wellScheduled (setTalking sch).
Proof.
  intros (Hsort & Hend & Hid & Hnd & Hind).
  unfold wellScheduled, setTalking. simpl. auto.
Qed.

Lemma Forall_filter_keep {A : Type} (P : A -> Prop) (f : A -> bool)
      (l : list A) :
  Forall P l -> Forall P (filter f l).
Proof.
  intro H. apply Forall_forall. intros x Hx.
  apply filter_In in Hx. rewrite Forall_forall in H. apply H, Hx.
Qed.

Lemma wellScheduled_ended (id : nat) (sch : Scheduler) :
  wellScheduled sch -> wellScheduled (onended id sch).
Proof.
  intros (Hsort & Hend & Hid & Hnd & Hind).
  unfold wellScheduled, onended. cbn [audioSources nextStartTime
    started isAiTalking].
  set (f := fun x => negb (Nat.eqb (src_id x) id)).
  split; [|split; [|split; [|split]]].
  - unfold noOverlap in *.
    induction (audioSources sch) as [|x l IH]; simpl; [constructor|].
    inversion Hsort; subst.
    assert (Hl : StronglySorted
                   (fun x y => src_end x <= src_when y) (filter f l)).
    { apply IH; try assumption.
      - inversion Hend; assumption.
      - inversion Hid; assumption.
      - inversion Hnd; assumption.
      - intros _. apply Hind. discriminate. }
    destruct (f x); [|exact Hl].
    constructor; [exact Hl|]. apply Forall_filter_keep. assumption.
  - apply Forall_filter_keep. exact Hend.
  - apply Forall_filter_keep. exact Hid.
  - clear - Hnd. induction (audioSources sch) as [|x l IH]; simpl;
      [constructor|].
    inversion Hnd; subst.
    destruct (f x); [|auto]. simpl. constructor; [|auto].
    intro Hin. apply H1. apply in_map_iff in Hin.
    destruct Hin as (y & Hy & Hin). apply filter_In in Hin.
    apply in_map_iff. exists y. tauto.
  - intro Hne. destruct (filter f (audioSources sch)) eqn:E;
      [contradiction|].
    apply Hind. intro Hnil. rewrite Hnil in E. discriminate.
Qed.

(** What [onmessage] leaves in the scheduler: the interruption applied to
    the scheduler as it was or with one more buffer of a non-negative
    duration, or, when the payload does not decode, the scheduler as it
    was with the indicator on. *)
Lemma onmessage_scheduler (p : Base64) (now : Q) (m : ServerMessage)
      (s : Session) :
  let r := onmessage p now m s in
  outputAudioCtx (fst r) = outputAudioCtx s /\
  ((snd r = true /\
    exists base,
      (base = scheduler s \/
       exists d, 0 <= d /\ base = scheduleBuffer now d (scheduler s)) /\
      scheduler (fst r)
      = (if Live.interrupted m then handleInterrupted base else base)) \/
   (snd r = false /\ decodable p (Message now m) = false /\
    scheduler (fst r) = setTalking (scheduler s))).
Proof.
  unfold onmessage, decodable.
  destruct (firstAudio (parts m)) as [d|]; cbn zeta.
  - destruct (outputAudioCtx s) eqn:Ectx.
    + destruct (decode p d) as [bytes|].
      * destruct (decodeAudioData bytes 24000 1) as [buf|] eqn:Ebuf.
        -- simpl. split; [reflexivity|]. left. split; [reflexivity|].
           eexists. split; [|reflexivity].
           right. exists (duration buf). split.
           ++ eapply decodeAudioData_duration; [exact Ebuf | reflexivity].
           ++ reflexivity.
        -- simpl. split; [reflexivity|]. right. auto.
      * simpl. split; [reflexivity|]. right. auto.
    + simpl. split; [reflexivity|]. left. split; [reflexivity|].
      eexists. split; [left; reflexivity | reflexivity].
  - simpl. split; [reflexivity|]. left. split; [reflexivity|].
    eexists. split; [left; reflexivity | reflexivity].
Qed.

Lemma liveStep_wellScheduled (p : Base64) (e : LiveEvent) (s : Session) :
  wellScheduled (scheduler s) -> wellScheduled (scheduler (liveStep p e s)).
Proof.
  intro H. destruct e as [now m | id]; simpl.
  - destruct (onmessage_scheduler p now m s)
      as (_ & [(_ & base & Hbase & ->) | (_ & _ & ->)]).
    + assert (Hb : wellScheduled base).
      { destruct Hbase as [-> | (d & Hd & ->)]; [exact H|].
        apply wellScheduled_schedule; assumption. }
      destruct (Live.interrupted m); [|exact Hb].
      apply wellScheduled_interrupted.
    + apply wellScheduled_setTalking. exact H.
  - apply wellScheduled_ended. exact H.
Qed.

Lemma liveStep_idle (p : Base64) (e : LiveEvent) (s : Session) :
  decodable p e = true ->
  (isAiTalking (scheduler s) = true -> audioSources (scheduler s) <> []) ->
  isAiTalking (scheduler (liveStep p e s)) = true ->
  audioSources (scheduler (liveStep p e s)) <> [].
Proof.
  intros Hdec H. destruct e as [now m | id]; simpl.
  - destruct (onmessage_scheduler p now m s)
      as (_ & [(_ & base & Hbase & ->) | (_ & Hno & _)]);
      [|congruence].
    destruct (Live.interrupted m); [simpl; discriminate|].
    destruct Hbase as [-> | (d & Hd & ->)]; [exact H|].
    intros _. simpl. intro Hnil. apply app_eq_nil in Hnil.
    destruct Hnil as [_ Hnil]. discriminate.
  - destruct (filter _ (audioSources (scheduler s))) eqn:E.
    + discriminate.
    + intros _. discriminate.
Qed.

Lemma liveStep_text (p : Base64) (e : LiveEvent) (s : Session) :
  transcriptText (transcripts (liveStep p e s))
  = (transcriptText (transcripts s) ++ spokenText [e])%string.
Proof.
  destruct e as [now m | id]; simpl.
  - assert (H : transcripts (fst (onmessage p now m s))
                = match outputTranscription m with
                  | Some t => if nonEmpty t
                              then appendTranscript (transcripts s) t
                              else transcripts s
                  | None => transcripts s
                  end).
    { unfold onmessage.
      destruct (firstAudio (parts m)); cbn zeta;
        [destruct (outputAudioCtx s);
         [destruct (decode p _);
          [destruct (decodeAudioData _ _ _)|]|]|]; reflexivity. }
    rewrite H. destruct (outputTranscription m) as [t|].
    + destruct t as [|c t']; simpl nonEmpty; cbv iota.
      * simpl. rewrite string_app_nil. reflexivity.
      * rewrite string_app_nil. apply coalesce_text.
    + rewrite string_app_nil. reflexivity.
  - rewrite string_app_nil. reflexivity.
Qed.

Lemma liveRun_invariant (p : Base64) (trace : list LiveEvent) :
  forall s,
    wellScheduled (scheduler s) ->
    wellScheduled (scheduler (liveRun p trace s)) /\
    (forallb (decodable p) trace = true ->
     (isAiTalking (scheduler s) = true -> audioSources (scheduler s) <> []) ->
     isAiTalking (scheduler (liveRun p trace s)) = true ->
     audioSources (scheduler (liveRun p trace s)) <> []) /\
    transcriptText (transcripts (liveRun p trace s))
    = (transcriptText (transcripts s) ++ spokenText trace)%string.
Proof.
  induction trace as [|e rest IH]; intros s H.
  - simpl. rewrite string_app_nil. auto.
  - cbn [liveRun].
    destruct (IH (liveStep p e s) (liveStep_wellScheduled p e s H))
      as (Hw & Hidle & Htext).
    split; [exact Hw|]. split.
    + cbn [forallb]. intros Hdec Hs.
      apply andb_true_iff in Hdec. destruct Hdec as [He Hrest].
      apply Hidle; [exact Hrest|].
      apply liveStep_idle; assumption.
    + rewrite Htext, liveStep_text.
      rewrite string_app_assoc. f_equal.
      destruct e as [now m | id]; simpl; [|reflexivity].
      destruct (outputTranscription m); [|reflexivity].
      rewrite string_app_nil. reflexivity.
Qed.

Lemma wellScheduled_initial : wellScheduled (scheduler fresh).
Proof.
  unfold wellScheduled, noOverlap. simpl.
  repeat split; try constructor. intro H. contradiction.
Qed.

(** X9: the playback queue stays in order over a whole session.  After any
    sequence of server messages (decodable or not, interrupting or not)
    and [onended] events, in any order and at any clock readings, the
    pending sources do not overlap, none of them ends after
    [nextStartTime], and their identities are distinct, so that an
    [onended] removes one source at most. *)
Theorem live_queue_never_overlaps (p : Base64) (trace : list LiveEvent) :
  let sch := scheduler (liveRun p trace fresh) in
  noOverlap (audioSources sch) /\
  Forall (fun x => src_end x <= nextStartTime sch) (audioSources sch) /\
  NoDup (map src_id (audioSources sch)) /\
  (forall id, (List.length (audioSources (onended id sch))
               >= List.length (audioSources sch) - 1)%nat).
Proof.
  intro sch.
  destruct (liveRun_invariant p trace fresh wellScheduled_initial)
    as ((Hsort & Hend & _ & Hnd & _) & _ & _).
  fold sch in Hsort, Hend, Hnd.
  split; [exact Hsort|]. split; [exact Hend|]. split; [exact Hnd|].
  intro id. unfold onended. cbn [audioSources].
  clear - Hnd. induction (audioSources sch) as [|x l IH]; simpl; [lia|].
  inversion Hnd as [|? ? Hx Hl]; subst.
  destruct (Nat.eqb_spec (src_id x) id) as [Heq | Hneq]; simpl.
  - assert (Hall : filter (fun y => negb (src_id y =? id)%nat) l = l).
    { apply forallb_filter_id. apply forallb_forall. intros y Hy.
      apply negb_true_iff. apply Nat.eqb_neq. intro Hy'.
      apply Hx. apply in_map_iff. exists y. split; [congruence | exact Hy]. }
    rewrite Hall. lia.
  - specialize (IH Hl). lia.
Qed.

(** X10: the talking indicator over a whole session.  After any sequence
    of server messages and [onended] events the indicator is on whenever a
    source is pending; if every audio payload of the sequence decodes, it
    is on only then, so that it goes off once the last pending source has
    ended or an interruption has flushed the queue. *)
Theorem live_indicator_tracks_queue (p : Base64) (trace : list LiveEvent) :
  let sch := scheduler (liveRun p trace fresh) in
  (audioSources sch <> [] -> isAiTalking sch = true) /\
  (forallb (decodable p) trace = true ->
   (isAiTalking sch = true <-> audioSources sch <> [])).
Proof.
  intro sch.
  destruct (liveRun_invariant p trace fresh wellScheduled_initial)
    as ((_ & _ & _ & _ & Hon) & Hoff & _).
  fold sch in Hon, Hoff.
  split; [exact Hon|].
  intro Hdec. split; [|exact Hon].
  apply Hoff; [exact Hdec|]. simpl. discriminate.
Qed.

Lemma live_indicator_tracks_queue_witness :
  let sch :=
    scheduler
      (liveRun plainBase64
         [Message 0 (mkServerMessage None [None; Some "abcd"%string] false);
          Ended 0]
         fresh) in
  isAiTalking sch = true <-> audioSources sch <> [].
Proof.
  apply (live_indicator_tracks_queue plainBase64
           [Message 0 (mkServerMessage None [None; Some "abcd"%string] false);
            Ended 0]).
  reflexivity.
Defined.

Lemma liveStep_transcripts (p : Base64) (e : LiveEvent) (s : Session) :
  transcripts (liveStep p e s)
  = match e with
    | Message _ m =>
        match outputTranscription m with
        | Some t => if nonEmpty t then appendTranscript (transcripts s) t
                    else transcripts s
        | None => transcripts s
        end
    | Ended _ => transcripts s
    end.
Proof.
  destruct e as [now m | id]; [|reflexivity].
  cbn [liveStep]. unfold onmessage.
  destruct (firstAudio (parts m)); cbn zeta;
    [destruct (outputAudioCtx s);
     [destruct (decode p _);
      [destruct (decodeAudioData _ _ _)|]|]|]; reflexivity.
Qed.

(** A first item that is not an open fragment stays where it is. *)
Lemma coalesce_keeps_head (x : TranscriptItem) (said : list TranscriptItem)
      (delta : string) :
  openFragment x = false ->
  exists said',
    appendTranscript (x :: said) delta = x :: said' /\
    transcriptText said' = (transcriptText said ++ delta)%string /\
    (Forall (fun i => source i = ai) said ->
     Forall (fun i => source i = ai) said').
Proof.
  intro Hx. unfold appendTranscript.
  destruct (coalesce_cases openFragment (x :: said) delta)
    as [(init & last & Heq & Hopen & ->) | ->].
  - destruct init as [|y init'].
    + simpl in Heq. injection Heq as -> _. congruence.
    + simpl in Heq. injection Heq as <- ->.
      exists (init' ++ [mkItem (source last) (text last ++ delta)%string]).
      split; [reflexivity|]. split.
      * rewrite !transcriptText_app. simpl.
        rewrite !string_app_nil, string_app_assoc. reflexivity.
      * intro Hall. apply Forall_app in Hall. destruct Hall as [Hi Hl].
        apply Forall_app. split; [exact Hi|].
        inversion Hl; subst. constructor; [assumption | constructor].
  - exists (said ++ [mkItem ai delta]).
    split; [reflexivity|]. split.
    + rewrite transcriptText_app. simpl.
      rewrite string_app_nil. reflexivity.
    + intro Hall. apply Forall_app. split; [exact Hall|].
      constructor; [reflexivity | constructor].
Qed.

Lemma liveRun_transcript (p : Base64) (x : TranscriptItem)
      (trace : list LiveEvent) :
  openFragment x = false ->
  forall s said,
    transcripts s = x :: said ->
    Forall (fun i => source i = ai) said ->
    exists said',
      transcripts (liveRun p trace s) = x :: said' /\
      transcriptText said'
      = (transcriptText said ++ spokenText trace)%string /\
      Forall (fun i => source i = ai) said'.
Proof.
  intro Hx. induction trace as [|e rest IH]; intros s said Hs Hall.
  - exists said. simpl. rewrite string_app_nil. auto.
  - cbn [liveRun].
    assert (Hstep : exists said1,
               transcripts (liveStep p e s) = x :: said1 /\
               transcriptText said1
               = (transcriptText said ++ spokenText [e])%string /\
               Forall (fun i => source i = ai) said1).
    { rewrite liveStep_transcripts, Hs.
      destruct e as [now m | id]; simpl;
        [|exists said; rewrite string_app_nil; auto].
      destruct (outputTranscription m) as [t|];
        [|exists said; rewrite string_app_nil; auto].
      destruct t as [|c t']; simpl nonEmpty; cbv iota.
      - exists said. simpl. rewrite string_app_nil. auto.
      - destruct (coalesce_keeps_head x said (String c t') Hx)
          as (said1 & H1 & H2 & H3).
        exists said1. rewrite string_app_nil. auto. }
    destruct Hstep as (said1 & Hs1 & Ht1 & Hall1).
    destruct (IH _ _ Hs1 Hall1) as (said' & Hs' & Ht' & Hall').
    exists said'. split; [exact Hs'|]. split; [|exact Hall'].
    rewrite Ht', Ht1, string_app_assoc. f_equal.
    destruct e as [now m | id]; simpl; [|reflexivity].
    destruct (outputTranscription m); [|reflexivity].
    rewrite string_app_nil. reflexivity.
Qed.

(** X11: the transcript over a whole session.  After any sequence of
    server messages and [onended] events the transcript is the system
    item put there by [onopen] followed by items of the AI whose texts,
    concatenated, are the transcription texts of the messages in the
    order they arrived, also for a message whose audio payload does not
    decode. *)
Theorem live_transcript_complete (p : Base64) (trace : list LiveEvent) :
  exists said,
    transcripts (liveRun p trace fresh) = linkEstablished :: said /\
    Forall (fun i => source i = ai) said /\
    transcriptText said = spokenText trace /\
    transcriptText (transcripts (liveRun p trace fresh))
    = ("Link Established. Waiting for AI..." ++ spokenText trace)%string.
Proof.
  destruct (liveRun_transcript p linkEstablished trace eq_refl fresh []
              eq_refl (Forall_nil _))
    as (said & Hs & Ht & Hall).
  exists said. split; [exact Hs|]. split; [exact Hall|].
  split; [exact Ht|].
  rewrite Hs. simpl. rewrite Ht. reflexivity.
Qed.

Lemma decodeAudioData_pairs (bytes : list Byte.byte) (n : nat) :
  List.length bytes = (2 * n)%nat -> (0 < n)%nat ->
  (Z.of_nat n < 4294967296)%Z ->
  exists buf,
    decodeAudioData bytes 24000 1 = Some buf /\
    duration buf = inject_Z (Z.of_nat n) / 24000.
Proof.
  intros Hlen Hpos Hsize.
  assert (Heven : Nat.even (List.length bytes) = true).
  { rewrite Hlen. apply Nat.even_spec. exists n. reflexivity. }
  destruct (int16View_even bytes Heven) as [samples Hs].
  pose proof (int16View_length _ _ Hs) as Hlen'.
  assert (Hn : List.length samples = n) by lia.
  assert (Htr : JS.truncate (inject_Z (Z.of_nat n) / inject_Z (Z.of_nat 1))
                = Z.of_nat n).
  { rewrite (truncate_comp _ (inject_Z (Z.of_nat n))).
    - apply truncate_inject_Z.
    - simpl. field. }
  assert (Hbuf : createBuffer 1
                   (inject_Z (Z.of_nat n) / inject_Z (Z.of_nat 1)) 24000
                 = Some n).
  { unfold createBuffer. rewrite Htr.
    rewrite Z.mod_small by lia.
    destruct (Z.eqb_spec (Z.of_nat n) 0); [lia|].
    simpl. f_equal. apply Nat2Z.id. }
  eexists. unfold decodeAudioData. rewrite Hs. simpl Nat.eqb. cbv iota zeta.
  rewrite Hn, Hbuf. split; reflexivity.
Qed.

(** X12: a server message whose first audio part decodes to [2n] bytes,
    [n >= 1], is handled to the end and acts on the scheduler as a buffer
    of [n / 24000] seconds: one source is started at the later of
    [nextStartTime] and the clock reading, whatever other audio parts the
    message carries, and the interruption of the same message, if any, is
    applied after it. *)
Theorem live_message_schedules_payload
  (p : Base64) (now : Q) (m : ServerMessage) (s : Session)
  (d : string) (bytes : list Byte.byte) (n : nat)
  (Hctx : outputAudioCtx s = true)
  (Hpart : firstAudio (parts m) = Some d)
  (Hdec : decode p d = Some bytes)
  (Hlen : List.length bytes = (2 * n)%nat)
  (Hpos : (0 < n)%nat) (Hsize : (Z.of_nat n < 4294967296)%Z) :
  let r := onmessage p now m s in
  let dur := inject_Z (Z.of_nat n) / 24000 in
  snd r = true /\
  scheduler (fst r)
  = Playback.onmessage now (mkMessage (Some dur) (Live.interrupted m))
                       (scheduler s) /\
  exists src,
    started (scheduler (fst r)) = started (scheduler s) ++ [src] /\
    src_when src == Qmax (nextStartTime (scheduler s)) now /\
    src_duration src = dur.
Proof.
  intros r dur.
  destruct (decodeAudioData_pairs bytes n Hlen Hpos Hsize)
    as (buf & Hbuf & Hdur).
  assert (Hr : r = (mkSession
                      (Playback.onmessage now
                         (mkMessage (Some dur) (Live.interrupted m))
                         (scheduler s))
                      (transcripts (fst r)) true, true)).
  { unfold r, onmessage. rewrite Hpart, Hctx. cbn zeta.
    rewrite Hdec, Hbuf, Hdur. fold dur.
    unfold Playback.onmessage. cbn [audio Playback.interrupted fst].
    destruct (Live.interrupted m); reflexivity. }
  rewrite Hr. cbn [fst snd scheduler].
  split; [reflexivity|]. split; [reflexivity|].
  unfold Playback.onmessage. cbn [audio Playback.interrupted].
  destruct (schedule_started now dur (scheduler s))
    as (src & Hst & _ & Hwhen & Hd & _).
  exists src.
  destruct (Live.interrupted m); cbn [handleInterrupted started]; auto.
Qed.

Lemma live_message_schedules_payload_witness :
  let r := onmessage plainBase64 (1 # 2)
             (mkServerMessage None
                [None; Some ""%string; Some "abcd"%string; Some "ef"%string]
                false)
             fresh in
  snd r = true /\
  exists src,
    started (scheduler (fst r)) = [src] /\
    src_when src == Qmax 0 (1 # 2) /\
    src_duration src = inject_Z (Z.of_nat 2) / 24000.
Proof.
  destruct (live_message_schedules_payload plainBase64 (1 # 2)
              (mkServerMessage None
                 [None; Some ""%string; Some "abcd"%string; Some "ef"%string]
                 false)
              fresh "abcd"%string (list_byte_of_string "abcd") 2
              eq_refl eq_refl eq_refl eq_refl
              ltac:(lia) ltac:(lia))
    as (Hdone & _ & Hsrc).
  split; [exact Hdone | exact Hsrc].
Defined.

(** X13: a server message whose first audio part is not valid base64, or
    decodes to no byte or to an odd number of bytes, makes the handler
    throw after it switched the indicator on: nothing is started, the
    queue and [nextStartTime] are as they were, and an interruption
    carried by the same message is not applied, so that no pending source
    is stopped. *)
Theorem live_message_bad_payload
  (p : Base64) (now : Q) (m : ServerMessage) (s : Session) (d : string)
  (Hctx : outputAudioCtx s = true)
  (Hpart : firstAudio (parts m) = Some d)
  (Hbad : decode p d = None \/
          exists bytes, decode p d = Some bytes /\
                        (bytes = [] \/
                         Nat.even (List.length bytes) = false)) :
  let r := onmessage p now m s in
  snd r = false /\
  isAiTalking (scheduler (fst r)) = true /\
  audioSources (scheduler (fst r)) = audioSources (scheduler s) /\
  nextStartTime (scheduler (fst r)) = nextStartTime (scheduler s) /\
  started (scheduler (fst r)) = started (scheduler s) /\
  stopped (scheduler (fst r)) = stopped (scheduler s).
Proof.
  intro r.
  assert (Hr : snd r = false /\
               scheduler (fst r) = setTalking (scheduler s)).
  { unfold r, onmessage. rewrite Hpart, Hctx. cbn zeta.
    destruct Hbad as [-> | (bytes & -> & Hbytes)]; [auto|].
    assert (Hnone : decodeAudioData bytes 24000 1 = None).
    { destruct Hbytes as [-> | Hodd]; [reflexivity|].
      unfold decodeAudioData. rewrite (int16View_odd _ Hodd). reflexivity. }
    rewrite Hnone. auto. }
  destruct Hr as [Hsnd ->]. rewrite Hsnd. simpl. auto 6.
Qed.

Lemma live_message_bad_payload_witness :
  let s := fst (onmessage plainBase64 0
                  (mkServerMessage None [Some "abcd"%string] false) fresh) in
  let r := onmessage plainBase64 0
             (mkServerMessage None [Some "abc"%string] true) s in
  snd r = false /\
  isAiTalking (scheduler (fst r)) = true /\
  audioSources (scheduler (fst r)) = audioSources (scheduler s) /\
  stopped (scheduler (fst r)) = [].
Proof.
  intros s r.
  destruct (live_message_bad_payload plainBase64 0
              (mkServerMessage None [Some "abc"%string] true) s
              "abc"%string eq_refl eq_refl)
    as (H1 & H2 & H3 & _ & _ & H6).
  - right. exists (list_byte_of_string "abc").
    split; [reflexivity | right; reflexivity].
  - split; [exact H1|]. split; [exact H2|]. split; [exact H3|].
    exact H6.
Defined.

End LiveFacts.

(** ** The microphone tap *)

Section MicFacts.

Import Resampler Live.

Lemma audioResample_total (buffer : list Q) (sampleRate : Q) :
  0 < sampleRate -> exists res, audioResample buffer sampleRate = Some res.
Proof.
  intro Hpos. unfold audioResample.
  destruct (Qeq_bool sampleRate targetRate); [eexists; reflexivity|].
  assert (Hr : 0 < sampleRate / targetRate).
  { unfold targetRate. apply Qlt_shift_div_l; lra. }
  destruct (newLength_positive (List.length buffer) _ Hr) as (n & -> & _).
  eexists. reflexivity.
Qed.

Lemma micStep_tap (e : MicEvent) (m : Mic) :
  tap (micStep e m) = tap m /\ hasSession (micStep e m) = hasSession m.
Proof.
  destruct e as [|inputData]; simpl; [auto|].
  unfold onaudioprocess.
  destruct (tap m) as [t|] eqn:Et; [|auto].
  destruct (tapMuted t); [simpl; auto|].
  destruct (audioResample _ _); [|simpl; auto].
  destruct (hasSession m) eqn:Es; simpl; auto.
Qed.

Lemma micRun_muted (t : Tap) (trace : list MicEvent) :
  tapMuted t = true ->
  forall m, tap m = Some t -> sent (micRun trace m) = sent m.
Proof.
  intro Hm. induction trace as [|e rest IH]; intros m Ht; [reflexivity|].
  cbn [micRun]. rewrite IH.
  - destruct e as [|inputData]; simpl; [reflexivity|].
    unfold onaudioprocess. rewrite Ht, Hm. reflexivity.
  - rewrite (proj1 (micStep_tap e m)). exact Ht.
Qed.

Lemma micRun_open (t : Tap) (rate : Q) (trace : list MicEvent) :
  tapMuted t = false ->
  rate = (if Qeq_bool (tapRate t) 0 then 48000 else tapRate t) ->
  0 < rate ->
  forall m, tap m = Some t -> hasSession m = true ->
    exists blobs,
      Forall2 (fun block blob => audioResample block rate = Some blob)
              (blocksOf trace) blobs /\
      sent (micRun trace m) = sent m ++ blobs.
Proof.
  intros Hm Hrate Hpos.
  induction trace as [|e rest IH]; intros m Ht Hs.
  - exists []. simpl. rewrite app_nil_r. split; [constructor | reflexivity].
  - cbn [micRun].
    destruct (micStep_tap e m) as [Ht' Hs'].
    destruct (IH (micStep e m)) as (blobs & Hall & Hsent).
    { rewrite Ht'. exact Ht. }
    { rewrite Hs'. exact Hs. }
    destruct e as [|inputData].
    + exists blobs. split; [exact Hall | exact Hsent].
    + destruct (audioResample_total inputData rate Hpos) as [res Hres].
      exists (res :: blobs). split.
      * simpl. constructor; assumption.
      * rewrite Hsent. simpl. unfold onaudioprocess.
        rewrite Ht, Hm, <- Hrate, Hres, Hs. simpl.
        rewrite <- app_assoc. reflexivity.
Qed.

(** X14: the mute state the microphone tap obeys is the one of the moment
    the session was started.  Whatever the mute button does afterwards, a
    tap opened unmuted resamples and sends every block it is given, in
    order, and a tap opened muted sends none. *)
Theorem mic_mute_fixed_at_start
  (rate : Q) (m0 : Mic) (trace : list MicEvent) (Hrate : 0 <= rate) :
  let m := sessionReady (openTap rate m0) in
  let out := micRun trace m in
  let rate' := if Qeq_bool rate 0 then 48000 else rate in
  (isMuted m0 = true -> sent out = sent m0) /\
  (isMuted m0 = false ->
   exists blobs,
     Forall2 (fun block blob => audioResample block rate' = Some blob)
             (blocksOf trace) blobs /\
     sent out = sent m0 ++ blobs).
Proof.
  intros m out rate'. split; intro Hm.
  - unfold out. rewrite (micRun_muted (mkTap (isMuted m0) rate));
      [reflexivity | exact Hm | reflexivity].
  - assert (Hpos : 0 < rate').
    { unfold rate'. destruct (Qeq_bool rate 0) eqn:E; [reflexivity|].
      apply Qeq_bool_neq in E. lra. }
    destruct (micRun_open (mkTap (isMuted m0) rate) rate' trace
                Hm eq_refl Hpos m eq_refl eq_refl)
      as (blobs & Hall & Hsent).
    exists blobs. split; [exact Hall | exact Hsent].
Qed.

Lemma mic_mute_fixed_at_start_witness :
  let out := micRun [ToggleMute; Block [1 # 2; -1 # 4]]
                    (sessionReady (openTap 16000 idleMic)) in
  isMuted out = true /\ sent out = [[16384; -8192]%Z].
Proof.
  intro out. split; [reflexivity|].
  destruct (mic_mute_fixed_at_start 16000 idleMic
              [ToggleMute; Block [1 # 2; -1 # 4]] ltac:(discriminate))
    as [_ H].
  destruct (H eq_refl) as (blobs & Hall & Hsent).
  fold out in Hsent. rewrite Hsent. simpl. f_equal.
  inversion Hall as [|? ? ? ? Hres Hrest]; subst.
  inversion Hrest; subst.
  vm_compute in Hres. injection Hres as <-. reflexivity.
Defined.

Lemma sumEvery100_nonneg (fuel : nat) :
  forall inputData, 0 <= sumEvery100 fuel inputData.
Proof.
  induction fuel as [|fuel IH]; intro inputData; cbn [sumEvery100];
    [lra|].
  destruct inputData as [|x rest]; [lra|].
  pose proof (Qabs_nonneg x). pose proof (IH (skipn 100 (x :: rest))). lra.
Qed.

Lemma sumEvery100_silence (fuel : nat) :
  forall inputData,
    Forall (fun x => x == 0) inputData -> sumEvery100 fuel inputData == 0.
Proof.
  induction fuel as [|fuel IH]; intros inputData Hall; cbn [sumEvery100];
    [reflexivity|].
  destruct inputData as [|x rest]; [reflexivity|].
  assert (Hx : x == 0) by (inversion Hall; assumption).
  rewrite IH.
  - rewrite Hx. reflexivity.
  - apply Forall_forall. intros y Hy.
    rewrite Forall_forall in Hall. apply Hall.
    rewrite <- (firstn_skipn 100 (x :: rest)).
    apply in_or_app. right. exact Hy.
Qed.

(** X15: the level shown for the microphone.  For a block that is not
    empty the level lies between 0 and 1, and it is 0 for a block of
    silence; handled by a tap opened unmuted on a session that is ready,
    the block is sent whatever its level, while the transmit indicator is
    on exactly when the level exceeds 0.01. *)
Theorem mic_level_and_indicator
  (inputData : list Q) (m : Mic) (t : Tap)
  (Hblock : inputData <> [])
  (Htap : tap m = Some t) (Hopen : tapMuted t = false)
  (Hrate : 0 < tapRate t) (Hsession : hasSession m = true) :
  exists level blob,
    levelOf inputData = Some level /\
    0 <= level <= 1 /\
    (Forall (fun x => x == 0) inputData -> level == 0) /\
    micLevel (onaudioprocess inputData m) = Some level /\
    sent (onaudioprocess inputData m) = sent m ++ [blob] /\
    audioResample inputData (tapRate t) = Some blob /\
    (isTransmitting (onaudioprocess inputData m) = true
     <-> 1 # 100 < level).
Proof.
  destruct inputData as [|x rest]; [contradiction|].
  set (inputData := x :: rest) in *.
  set (len := inject_Z (Z.of_nat (List.length inputData))).
  set (sum := sumEvery100 (List.length inputData) inputData).
  assert (Hlen : 0 < len / 100).
  { apply Qlt_shift_div_l; [reflexivity|]. rewrite Qmult_0_l.
    unfold len. change 0 with (inject_Z 0). rewrite <- Zlt_Qlt.
    simpl. lia. }
  assert (Hsum : 0 <= sum) by apply sumEvery100_nonneg.
  assert (Hraw : 0 <= sum / (len / 100) * 5).
  { assert (0 <= sum / (len / 100)); [|lra].
    apply Qle_shift_div_l; [exact Hlen | lra]. }
  destruct (audioResample_total inputData (tapRate t) Hrate) as [blob Hblob].
  exists (Qmin 1 (sum / (len / 100) * 5)), blob.
  assert (Hne : Qeq_bool (tapRate t) 0 = false).
  { destruct (Qeq_bool (tapRate t) 0) eqn:E; [|reflexivity].
    apply Qeq_bool_eq in E. lra. }
  assert (Hstep : onaudioprocess inputData m
                  = mkMic (isMuted m) (levelOf inputData)
                          (aboveThreshold (levelOf inputData)) (tap m)
                          true (sent m ++ [blob])).
  { unfold onaudioprocess. rewrite Htap, Hopen, Hne, Hblob, Hsession.
    reflexivity. }
  rewrite Hstep. cbn [micLevel sent isTransmitting].
  split; [reflexivity|]. split; [|split; [|split; [|split; [|split]]]].
  - split.
    + apply Q.min_glb; [lra | exact Hraw].
    + apply Q.le_min_l.
  - intro Hall.
    assert (H0 : sum == 0) by (apply sumEvery100_silence; exact Hall).
    assert (Hz : sum / (len / 100) * 5 == 0).
    { rewrite H0. unfold Qdiv. rewrite !Qmult_0_l. reflexivity. }
    rewrite Hz. reflexivity.
  - reflexivity.
  - reflexivity.
  - exact Hblob.
  - change (levelOf inputData) with (Some (Qmin 1 (sum / (len / 100) * 5))).
    unfold aboveThreshold. split.
    + apply gtb_gt.
    + intro H. destruct (JS.gtb _ _) eqn:E; [reflexivity|].
      apply gtb_le in E. lra.
Qed.

Lemma mic_level_and_indicator_witness :
  exists level blob,
    levelOf [1 # 100; 0] = Some level /\
    0 <= level <= 1 /\
    sent (onaudioprocess [1 # 100; 0] (sessionReady (openTap 16000 idleMic)))
    = [blob].
Proof.
  destruct (mic_level_and_indicator [1 # 100; 0]
              (sessionReady (openTap 16000 idleMic)) (mkTap false 16000)
              ltac:(discriminate) eq_refl eq_refl eq_refl eq_refl)
    as (level & blob & Hl & Hr & _ & _ & Hs & _).
  exists level, blob. split; [exact Hl|]. split; [exact Hr | exact Hs].
Defined.

End MicFacts.

(** ** Acquiring the camera and starting the session *)

Section SessionStart.

Import Session.

Lemma fallbackFailed_error (name : string) (st : State) :
  error (fallbackFailed name st) <> None /\
  isCameraEnabled (fallbackFailed name st) = isCameraEnabled st /\
  audioInputAvailable (fallbackFailed name st) = audioInputAvailable st /\
  (permissionError (fallbackFailed name st) = true <->
   permissionError st = true \/ name = "NotAllowedError"%string
   \/ name = "PermissionDeniedError"%string).
Proof.
  unfold fallbackFailed.
  destruct (String.eqb_spec name "NotAllowedError") as [Ha | Ha].
  { simpl. repeat split; try discriminate; auto. }
  destruct (String.eqb_spec name "PermissionDeniedError") as [Hp | Hp].
  { simpl. repeat split; try discriminate; auto. }
  simpl.
  destruct (String.eqb name "NotFoundError");
    [|destruct (String.eqb name "NotReadableError")];
    simpl; (split; [discriminate|]); (split; [reflexivity|]);
    (split; [reflexivity|]); tauto.
Qed.

(** X16: [enableCamera] ends with a stream or with an error message, never
    with both and never with neither.  The stream kept is the one of the
    combined request when that is granted, otherwise the one of the
    video-only request, and [audioInputAvailable] tells which; the stream
    the component held before is dropped in every case, while on failure
    [isCameraEnabled] is left as it was.  The permission flag is raised
    exactly when both requests are rejected and the second rejection is
    NotAllowedError or PermissionDeniedError. *)
Theorem enableCamera_stream_or_error (b : Browser) (c : Component) :
  let c' := enableCamera b c in
  (streamRef (refs c') = None <-> error (state c') <> None) /\
  (forall stream, streamRef (refs c') = Some stream ->
     isCameraEnabled (state c') = true /\
     permissionError (state c') = false /\
     hasGetUserMedia b = true /\
     (if audioInputAvailable (state c')
      then getUserMedia b true = Granted stream
      else (exists name, getUserMedia b true = Rejected name) /\
           getUserMedia b false = Granted stream)) /\
  (streamRef (refs c') = None ->
     isCameraEnabled (state c') = isCameraEnabled (state c) /\
     audioInputAvailable (state c') = audioInputAvailable (state c)) /\
  (permissionError (state c') = true <->
   hasGetUserMedia b = true /\
   (exists name, getUserMedia b true = Rejected name) /\
   (getUserMedia b false = Rejected "NotAllowedError" \/
    getUserMedia b false = Rejected "PermissionDeniedError")).
Proof.
  intro c'. unfold c', enableCamera.
  destruct (hasGetUserMedia b) eqn:Hgum; simpl negb; cbv iota.
  - destruct (getUserMedia b true) as [s1 | n1] eqn:H1.
    + simpl. split; [split; [discriminate | intro H; contradiction]|].
      split; [|split; [discriminate|]].
      * intros stream Hs. injection Hs as <-. auto.
      * split; [discriminate|]. intros (_ & (name & Hn) & _). discriminate.
    + destruct (getUserMedia b false) as [s2 | n2] eqn:H2.
      * simpl. split; [split; [discriminate | intro H; contradiction]|].
        split; [|split; [discriminate|]].
        -- intros stream Hs. injection Hs as <-.
           repeat split; eauto.
        -- split; [discriminate|].
           intros (_ & _ & [H | H]); discriminate.
      * cbn [state refs].
        destruct (fallbackFailed_error n2
                    (setPermissionError false (setError None (state c))))
          as (Herr & Hcam & Haud & Hperm).
        split; [split; [intros _; exact Herr | reflexivity]|].
        split; [intros stream Hs; discriminate|].
        split; [intros _; split; [exact Hcam | exact Haud]|].
        rewrite Hperm. simpl. split.
        -- intros [H | [-> | ->]]; [discriminate | |];
             (split; [reflexivity|]); (split; [eauto|]); auto.
        -- intros (_ & _ & [H | H]); injection H as ->; auto.
  - simpl. split; [split; [discriminate | reflexivity]|].
    split; [intros stream Hs; discriminate|].
    split; [auto|].
    split; [discriminate|]. intros (H & _). discriminate.
Qed.

Lemma enableCamera_stream_or_error_witness :
  isCameraEnabled (state (enableCamera noMicBrowser mounted)) = true /\
  permissionError (state (enableCamera noMicBrowser mounted)) = false /\
  getUserMedia noMicBrowser false = Granted (mkStream 0 1).
Proof.
  destruct (enableCamera_stream_or_error noMicBrowser mounted)
    as (_ & Hstream & _).
  destruct (Hstream (mkStream 0 1) eq_refl) as (H1 & H2 & _ & H3).
  split; [exact H1|]. split; [exact H2|]. exact (proj2 H3).
Defined.

(** The two ways [handleStartSession] can go: the connection is reached
    with a stream in [streamRef], the error cleared, the audio contexts
    created and the time-out armed; or the handler stops before any of
    that, with its own message in place of the one of [enableCamera]. *)
Lemma start_session_outcomes
  (b : Browser) (snap : State) (c : Component) :
  match handleStartSession b snap c with
  | Connecting c' =>
      streamRef (refs c') <> None /\
      error (state c') = None /\
      isConnecting (state c') = true /\
      hasStarted (state c') = true /\
      inputAudioCtx (refs c') = true /\
      outputAudioCtx (refs c') = true /\
      connectTimeoutRef (refs c') = true
  | Aborted c' =>
      streamRef (refs c') = None /\
      error (state c')
      = Some "Camera lost. Please try enabling again."%string /\
      isConnecting (state c') = isConnecting (state c) /\
      hasStarted (state c') = hasStarted (state c) /\
      inputAudioCtx (refs c') = inputAudioCtx (refs c) /\
      outputAudioCtx (refs c') = outputAudioCtx (refs c) /\
      (isCameraEnabled snap = false \/ streamRef (refs c) = None) /\
      (hasGetUserMedia b = false \/
       exists n1 n2, getUserMedia b true = Rejected n1 /\
                     getUserMedia b false = Rejected n2)
  end.
Proof.
  unfold handleStartSession.
  destruct (negb (isCameraEnabled snap) || isNone (streamRef (refs c)))%bool
    eqn:Hneed.
  - destruct (streamRef (refs (enableCamera b c))) as [stream|] eqn:Hs;
      simpl isNone; cbv iota.
    + simpl. repeat split; discriminate.
    + simpl. split; [exact Hs|]. split; [reflexivity|].
      assert (Hcases : isCameraEnabled snap = false
                       \/ streamRef (refs c) = None).
      { apply orb_true_iff in Hneed. destruct Hneed as [H | H].
        - left. apply negb_true_iff. exact H.
        - right. destruct (streamRef (refs c)); [discriminate | reflexivity]. }
      revert Hs. unfold enableCamera.
      destruct (hasGetUserMedia b); simpl negb; cbv iota.
      * destruct (getUserMedia b true) as [s1 | n1]; [discriminate|].
        destruct (getUserMedia b false) as [s2 | n2]; [discriminate|].
        intros _. cbn [state refs].
        unfold fallbackFailed.
        repeat split; try assumption; eauto;
          destruct (String.eqb n2 "NotAllowedError"
                    || String.eqb n2 "PermissionDeniedError")%bool;
          try reflexivity;
          destruct (String.eqb n2 "NotFoundError"); try reflexivity;
          destruct (String.eqb n2 "NotReadableError"); reflexivity.
      * intros _. simpl. repeat split; auto.
  - apply orb_false_iff in Hneed. destruct Hneed as [_ Hsome].
    simpl. destruct (streamRef (refs c)); [|discriminate].
    repeat split; discriminate.
Qed.

(** X17: a session is never connected without a stream.
    [handleStartSession] asks for the camera itself when the rendered
    state has no camera or the stream is gone; it stops before the
    connection, with the message "Camera lost. Please try enabling
    again.", exactly when the camera had to be acquired and the browser
    has no [getUserMedia] or rejects both requests; in every other case
    it reaches the connection, with a stream in [streamRef], the error
    cleared, the audio contexts created and the connection time-out
    armed. *)
Theorem start_session_requires_stream
  (b : Browser) (snap : State) (c : Component) :
  ((exists c', handleStartSession b snap c = Aborted c') <->
   ((isCameraEnabled snap = false \/ streamRef (refs c) = None) /\
    (hasGetUserMedia b = false \/
     exists n1 n2, getUserMedia b true = Rejected n1 /\
                   getUserMedia b false = Rejected n2))) /\
  match handleStartSession b snap c with
  | Connecting c' =>
      streamRef (refs c') <> None /\
      error (state c') = None /\
      isConnecting (state c') = true /\
      hasStarted (state c') = true /\
      inputAudioCtx (refs c') = true /\
      outputAudioCtx (refs c') = true /\
      connectTimeoutRef (refs c') = true
  | Aborted c' =>
      streamRef (refs c') = None /\
      error (state c')
      = Some "Camera lost. Please try enabling again."%string /\
      isConnecting (state c') = isConnecting (state c) /\
      hasStarted (state c') = hasStarted (state c) /\
      inputAudioCtx (refs c') = inputAudioCtx (refs c) /\
      outputAudioCtx (refs c') = outputAudioCtx (refs c)
  end.
Proof.
  pose proof (start_session_outcomes b snap c) as Hout.
  split; [split|].
  - intros [c' Hc']. rewrite Hc' in Hout. tauto.
  - intros [Hneed Hfail]. unfold handleStartSession.
    assert (Hcond : (negb (isCameraEnabled snap)
                     || isNone (streamRef (refs c)))%bool = true).
    { destruct Hneed as [H | H]; rewrite H;
        [reflexivity | apply orb_true_r]. }
    rewrite Hcond.
    assert (Hs : streamRef (refs (enableCamera b c)) = None).
    { unfold enableCamera. destruct Hfail as [H | (n1 & n2 & H1 & H2)].
      - rewrite H. reflexivity.
      - destruct (hasGetUserMedia b); simpl negb; cbv iota;
          [rewrite H1, H2|]; reflexivity. }
    rewrite Hs. simpl isNone. cbv iota. eexists. reflexivity.
  - destruct (handleStartSession b snap c); tauto.
Qed.

(** X18: with the camera and the microphone granted, a session started
    from a component that holds no stream and whose rendered state has
    audio input available (as after mounting or after a reset) goes live
    with the stream of the combined request, and the microphone tap (the
    script processor and its gain node) is created exactly when that
    stream has an audio track. *)
Theorem start_session_with_microphone
  (b : Browser) (c : Component) (stream : MediaStream)
  (Hgum : hasGetUserMedia b = true)
  (Hgrant : getUserMedia b true = Granted stream)
  (Hnone : streamRef (refs c) = None)
  (Haudio : audioInputAvailable (state c) = true)
  (Hclean : scriptProcessorRef (refs c) = false
            /\ inputGainNodeRef (refs c) = false) :
  exists c2,
    startSession b c = Connecting c2 /\
    streamRef (refs c2) = Some stream /\
    isActive (state c2) = true /\
    isConnecting (state c2) = false /\
    error (state c2) = None /\
    audioInputAvailable (state c2) = true /\
    scriptProcessorRef (refs c2) = (0 <? audioTracks stream)%nat /\
    inputGainNodeRef (refs c2) = (0 <? audioTracks stream)%nat /\
    frameIntervalRef (refs c2) = true.
Proof.
  destruct Hclean as [Hproc Hgain].
  unfold startSession, handleStartSession.
  rewrite Hnone. simpl isNone. rewrite orb_true_r.
  assert (Hcam : enableCamera b c
                 = handleStreamSuccess stream true
                     (mkComponent
                        (setPermissionError false (setError None (state c)))
                        (setStreamRef None (refs c)))).
  { unfold enableCamera. rewrite Hgum, Hgrant. reflexivity. }
  rewrite Hcam. simpl.
  eexists. split; [reflexivity|]. simpl.
  rewrite Haudio, Hproc, Hgain. simpl.
  destruct (0 <? audioTracks stream)%nat; repeat split.
Qed.

Lemma start_session_with_microphone_witness :
  exists c2,
    startSession (mkBrowser true (fun _ => Granted (mkStream 1 1))) mounted
    = Connecting c2 /\
    scriptProcessorRef (refs c2) = true /\
    isActive (state c2) = true.
Proof.
  destruct (start_session_with_microphone
              (mkBrowser true (fun _ => Granted (mkStream 1 1))) mounted
              (mkStream 1 1) eq_refl eq_refl eq_refl eq_refl
              (conj eq_refl eq_refl))
    as (c2 & H1 & _ & H2 & _ & _ & _ & H3 & _).
  exists c2. split; [exact H1|]. split; [exact H3 | exact H2].
Defined.

End SessionStart.

(** ** The result page over whole traces *)

Section PlaythroughFacts.

Import Types Timeline Playthrough.

Lemma step_overlayTimed (events : list TimestampEntry) (e : Event)
      (s : Page) :
  overlayTimed events s -> overlayTimed events (step events e s).
Proof.
  intros (Hiff & Hcap & Hpay).
  assert (Hsame : forall s',
             currentDisplayFeedback s' = currentDisplayFeedback s ->
             resumeTimer s' = resumeTimer s ->
             smartPlayEnabled s' = smartPlayEnabled s ->
             overlayTimed events s').
  { intros s' H1 H2 H3. unfold overlayTimed. rewrite H1, H2, H3.
    split; [|split]; assumption. }
  destruct e; cbn [step]; try (apply Hsame; reflexivity).
  - unfold monitorFrames.
    destruct (running s) as [v|] eqn:Hrun; [|split; [|split]; assumption].
    apply running_guard in Hrun. destruct Hrun as (_ & Hon & _).
    cbv zeta.
    destruct (findMatch _ _ _ _) as [m|] eqn:Hfind.
    + unfold overlayTimed. simpl. split; [|split].
      * split; discriminate.
      * intros enabled H. injection H as <-. auto.
      * intros f H. injection H as <-. exists m. split; [|reflexivity].
        unfold findMatch in Hfind. apply find_some in Hfind. tauto.
    + apply Hsame; reflexivity.
  - unfold resumeTimerFired.
    destruct (resumeTimer s) as [enabled|] eqn:Ht;
      [|apply Hsame; auto].
    unfold overlayTimed. simpl.
    split; [tauto | split; discriminate].
  - unfold toggleSmartPlay, overlayTimed.
    destruct (smartPlayEnabled s) eqn:Hon; simpl.
    + split; [tauto | split; discriminate].
    + split; [|split; [discriminate | exact Hpay]].
      split; [|intro H; contradiction].
      intro H. apply Hiff in H.
      destruct (resumeTimer s) as [enabled|] eqn:Ht; [|contradiction].
      destruct (Hcap enabled eq_refl) as [_ Hfalse]. discriminate.
  - unfold jumpToTime. destruct (video s); apply Hsame; reflexivity.
Qed.

Lemma run_overlayTimed (events : list TimestampEntry) (trace : list Event) :
  forall s, overlayTimed events s ->
            overlayTimed events (run events trace s).
Proof.
  induction trace as [|e rest IH]; intros s H; [exact H|].
  cbn [run]. apply IH, step_overlayTimed, H.
Qed.

(** X19: the overlay of the result page never outlives its timer.
    Whatever the user and the player do after the page has loaded,
    feedback is displayed exactly while a dwell timer is pending, the
    monitor is then on and the timer closed over it being on; the
    feedback displayed is the payload of a listed event, and what the page
    renders of it is its image: an image on screen is the image of that
    event and a timer is pending, while the dwell of an event without
    image shows nothing; nothing is rendered once the timer has fired. *)
Theorem overlay_shown_while_timer_pending
  (events : list TimestampEntry) (trace : list Event) :
  let s := run events trace loaded in
  (currentDisplayFeedback s <> None <-> resumeTimer s <> None) /\
  (forall enabled, resumeTimer s = Some enabled ->
     enabled = true /\ smartPlayEnabled s = true) /\
  (resumeTimer s <> None ->
   exists m, In m events /\
     currentDisplayFeedback s
       = Some (mkFeedback (issue m) (bodyPartFeedback m) (isPositive m)
                          (visualImage m)) /\
     overlay s = truthy (visualImage m)) /\
  (forall src, overlay s = Some src ->
     resumeTimer s = Some true /\
     exists m, In m events /\ visualImage m = Some src) /\
  (resumeTimer s = None -> overlay s = None) /\
  currentDisplayFeedback (step events TimerFired s) = None /\
  overlay (step events TimerFired s) = None /\
  resumeTimer (step events TimerFired s) = None.
Proof.
  intro s.
  assert (H : overlayTimed events s).
  { apply run_overlayTimed. unfold overlayTimed, loaded. simpl.
    split; [tauto | split; discriminate]. }
  destruct H as (Hiff & Hcap & Hpay).
  assert (Hnone : resumeTimer s = None -> currentDisplayFeedback s = None).
  { intro Ht. destruct (currentDisplayFeedback s) eqn:Hf; [|reflexivity].
    exfalso. apply (proj1 Hiff); [discriminate | exact Ht]. }
  assert (Hshown : resumeTimer s <> None ->
            exists m, In m events /\
              currentDisplayFeedback s
                = Some (mkFeedback (issue m) (bodyPartFeedback m)
                                   (isPositive m) (visualImage m)) /\
              overlay s = truthy (visualImage m)).
  { intro Ht. apply Hiff in Ht.
    destruct (currentDisplayFeedback s) as [f|] eqn:Hf; [|contradiction].
    destruct (Hpay f eq_refl) as (m & Hin & ->).
    exists m. split; [exact Hin|]. split; [reflexivity|].
    unfold overlay. rewrite Hf. reflexivity. }
  split; [exact Hiff|]. split; [exact Hcap|]. split; [exact Hshown|].
  split; [|split].
  - intros src Hsrc.
    destruct (resumeTimer s) as [enabled|] eqn:Ht.
    + destruct (Hcap enabled eq_refl) as [-> _].
      split; [reflexivity|].
      destruct Hshown as (m & Hin & _ & Hov); [discriminate|].
      exists m. split; [exact Hin|].
      rewrite Hov in Hsrc. unfold truthy in Hsrc.
      destruct (visualImage m) as [[|c img]|]; congruence.
    + unfold overlay in Hsrc. rewrite (Hnone eq_refl) in Hsrc.
      discriminate.
  - intro Ht. unfold overlay. rewrite (Hnone Ht). reflexivity.
  - cbn [step]. unfold resumeTimerFired, overlay.
    destruct (resumeTimer s) as [enabled|] eqn:Ht; simpl.
    + auto.
    + rewrite (Hnone eq_refl). auto.
Qed.

Lemma overlay_shown_while_timer_pending_witness :
  let s := run imageEvents ([UserPlay] ++ playTrace [1; 1]) loaded in
  resumeTimer s = Some true /\
  overlay s = Some "image2"%string /\
  smartPlayEnabled s = true /\
  overlay (step imageEvents TimerFired s) = None.
Proof.
  intro s.
  destruct (overlay_shown_while_timer_pending imageEvents
              ([UserPlay] ++ playTrace [1; 1]))
    as (_ & Hcap & _ & _ & _ & _ & Hgone & _).
  fold s in Hcap, Hgone.
  assert (Htimer : resumeTimer s = Some true) by (vm_compute; reflexivity).
  split; [exact Htimer|]. split; [vm_compute; reflexivity|].
  split; [exact (proj2 (Hcap true Htimer)) | exact Hgone].
Defined.

(** X20: a callout of the data tab replays its moment.  With the monitor
    on, after [jumpToTime t] and any playback of [dt >= 0] seconds, the
    next tick presents an event stamped [t] (the first one listed),
    whether or not it had been presented before: the video is taken back
    to [t] and held there, the payload of that event becomes the
    displayed feedback, its image, if any, is rendered, and the dwell
    timer is armed.  The rewound position is the double [t - 0.1]; it is
    assumed not to lie after [t], and no other event may lie between it
    and the position reached. *)
Theorem jump_replays_event
  (events : list TimestampEntry) (s : Page) (t dt : Q) (m : TimestampEntry)
  (Hon : smartPlayEnabled s = true)
  (Hvideo : video s <> None)
  (Hdt : 0 <= dt)
  (Hin : In m events) (Hm : timestamp m == t)
  (Hback : Double.sub t (1 # 10) <= t)
  (Halone : forall e, In e events ->
              Double.sub t (1 # 10) <= timestamp e ->
              timestamp e <= t + dt ->
              timestamp e == t) :
  let s1 := run events [JumpToTime t; Advance dt] s in
  lastCheckTime s1 = Double.sub t (1 # 10) /\
  exists m',
    In m' events /\ timestamp m' == t /\
    frameMatch events s1 = Some m' /\
    let s' := monitorFrames events s1 in
    video s' = Some (mkVideo (timestamp m') true) /\
    currentDisplayFeedback s'
      = Some (mkFeedback (issue m') (bodyPartFeedback m') (isPositive m')
                         (visualImage m')) /\
    overlay s' = truthy (visualImage m') /\
    resumeTimer s' = Some true /\
    consumed s' m = true.
Proof.
  intro s1.
  destruct (video s) as [v|] eqn:Hv; [|contradiction].
  set (P := setDelete t (processedTimestamps s)).
  assert (Hjump : s1
                  = mkPage (Some (mkVideo (t + dt) false)) true
                           (currentDisplayFeedback s) P
                           (Double.sub t (1 # 10)) (resumeTimer s)).
  { unfold s1. cbn [run step]. unfold jumpToTime, withVideo.
    rewrite Hv. cbn -[Double.sub]. rewrite Hon. reflexivity. }
  remember (Double.sub t (1 # 10)) as back eqn:Eback.
  split; [rewrite Hjump; reflexivity|].
  assert (Hseek : afterSeekCheck events back (t + dt) P = P).
  { apply afterSeekCheck_forward. lra. }
  assert (Hmatch : isMatch back (t + dt) P m = true).
  { apply isMatch_spec. split; [lra|]. split; [lra|].
    unfold P. rewrite setHas_delete.
    assert (Heq : Qeq_bool (timestamp m) t = true)
      by (apply Qeq_bool_iff; exact Hm).
    rewrite Heq. apply andb_false_r. }
  destruct (find (isMatch back (t + dt) P) events)
    as [m'|] eqn:Hfind.
  - destruct (find_some _ _ Hfind) as [Hin' Hm'].
    apply isMatch_spec in Hm'. destruct Hm' as (Hlo & Hhi & _).
    exists m'. split; [exact Hin'|].
    assert (Ht : timestamp m' == t) by (apply Halone; assumption).
    split; [exact Ht|].
    rewrite Hjump. unfold frameMatch, monitorFrames, running. simpl.
    rewrite Hseek. unfold findMatch. rewrite Hfind.
    split; [reflexivity|]. simpl.
    split; [reflexivity|]. split; [reflexivity|]. split; [reflexivity|].
    split; [reflexivity|].
    unfold consumed. simpl. rewrite setHas_add.
    assert (Heq : Qeq_bool (timestamp m') (timestamp m) = true).
    { apply Qeq_bool_iff. rewrite Ht, Hm. reflexivity. }
    rewrite Heq. apply orb_true_r.
  - exfalso. pose proof (find_none _ _ Hfind m Hin) as Hno. congruence.
Qed.

Lemma jump_replays_event_witness :
  exists m',
    timestamp m' == 5 /\
    frameMatch threeEvents
      (run threeEvents [JumpToTime 5; Advance (1 # 60)] dwelling)
    = Some m' /\
    consumed dwelling m' = true.
Proof.
  assert (Hon : smartPlayEnabled dwelling = true)
    by (vm_compute; reflexivity).
  assert (Hvideo : video dwelling <> None)
    by (vm_compute; discriminate).
  assert (Hdt : 0 <= 1 # 60) by (vm_compute; discriminate).
  assert (Hin : In (plainEntry 5 "second") threeEvents)
    by (right; left; reflexivity).
  assert (Hm : timestamp (plainEntry 5 "second") == 5) by reflexivity.
  assert (Hback : Double.sub 5 (1 # 10) <= 5)
    by (vm_compute; discriminate).
  assert (Halone : forall e, In e threeEvents ->
                     Double.sub 5 (1 # 10) <= timestamp e ->
                     timestamp e <= 5 + (1 # 60) ->
                     timestamp e == 5).
  { intros e [<- | [<- | [<- | []]]]; intros H1 H2;
      first [reflexivity | exfalso; revert H1 H2; vm_compute; intros H1 H2;
             first [apply H1; reflexivity | apply H2; reflexivity]]. }
  destruct (jump_replays_event threeEvents dwelling 5 (1 # 60)
              (plainEntry 5 "second") Hon Hvideo Hdt Hin Hm Hback Halone)
    as (_ & m' & Hin' & Ht & Hf & _).
  exists m'. split; [exact Ht|]. split; [exact Hf|].
  destruct Hin' as [<- | [<- | [<- | []]]];
    first [vm_compute; reflexivity
          | exfalso; revert Ht; vm_compute; discriminate].
Defined.

Lemma flagsBehind_frame (events : list TimestampEntry) (s : Page) :
  flagsBehind s ->
  flagsBehind (monitorFrames events s) /\
  (forall t, setHas (processedTimestamps s) t = true ->
             setHas (processedTimestamps (monitorFrames events s)) t = true) /\
  (forall m, frameMatch events s = Some m ->
     setHas (processedTimestamps s) (timestamp m) = false /\
     setHas (processedTimestamps (monitorFrames events s)) (timestamp m)
     = true).
Proof.
  intro H. unfold monitorFrames, frameMatch.
  destruct (running s) as [v|] eqn:Hrun;
    [|split; [exact H | split; [auto | discriminate]]].
  apply running_guard in Hrun. destruct Hrun as (Hv & _ & _).
  unfold flagsBehind in H. rewrite Hv in H.
  assert (Hnoop : afterSeekCheck events (lastCheckTime s) (currentTime v)
                    (processedTimestamps s) = processedTimestamps s).
  { apply afterSeekCheck_noop. eapply Forall_impl; [|exact H].
    simpl. intros t [Ht _]. exact Ht. }
  rewrite Hnoop.
  destruct (findMatch events (lastCheckTime s) (currentTime v)
              (processedTimestamps s)) as [m|] eqn:Hfind.
  - destruct (find_some _ _ Hfind) as [_ Hm].
    apply isMatch_spec in Hm. destruct Hm as (Hlo & Hhi & Hfresh).
    split; [|split].
    + unfold flagsBehind. simpl. unfold setAdd.
      assert (Hold : Forall (fun t => t <= timestamp m /\ t <= currentTime v)
                            (processedTimestamps s)).
      { eapply Forall_impl; [|exact H]. simpl. intros t [H1 H2].
        split; lra. }
      destruct (setHas (processedTimestamps s) (timestamp m));
        [exact Hold|].
      apply Forall_app. split; [exact Hold|].
      constructor; [|constructor]. split; lra.
    + intros t Ht. simpl. rewrite setHas_add, Ht. reflexivity.
    + intros m0 Hm0. injection Hm0 as <-. split; [exact Hfresh|].
      simpl. rewrite setHas_add.
      assert (Heq : Qeq_bool (timestamp m) (timestamp m) = true)
        by (apply Qeq_bool_iff; reflexivity).
      rewrite Heq. apply orb_true_r.
  - split; [|split; [auto | discriminate]].
    unfold flagsBehind. simpl. rewrite Hv.
    eapply Forall_impl; [|exact H]. simpl. intros t [H1 H2].
    split; lra.
Qed.

Lemma flagsBehind_step (events : list TimestampEntry) (e : Event)
      (s : Page) :
  forwardOnly e = true -> flagsBehind s ->
  flagsBehind (step events e s) /\
  (forall t, setHas (processedTimestamps s) t = true ->
             setHas (processedTimestamps (step events e s)) t = true).
Proof.
  intros He H.
  destruct e; simpl in He; try discriminate; simpl.
  - destruct (flagsBehind_frame events s H) as (H1 & H2 & _). auto.
  - split; [|unfold resumeTimerFired; destruct (resumeTimer s); auto].
    unfold resumeTimerFired.
    destruct (resumeTimer s) as [enabled|]; [|exact H].
    unfold flagsBehind in *. simpl.
    destruct (video s) as [v|]; [|exact I].
    destruct (enabled && paused v)%bool; exact H.
  - split; [|unfold toggleSmartPlay; destruct (smartPlayEnabled s); auto].
    unfold toggleSmartPlay, flagsBehind in *.
    destruct (smartPlayEnabled s); simpl; exact H.
  - split; [|auto]. apply Qle_bool_iff in He.
    unfold withVideo, flagsBehind in *. simpl.
    destruct (video s) as [v|]; [|exact I]. simpl.
    destruct (paused v); [exact H|]. simpl.
    eapply Forall_impl; [|exact H]. simpl. intros t [H1 H2].
    split; lra.
  - split; [|auto]. unfold withVideo, flagsBehind in *. simpl.
    destruct (video s) as [v|]; [|exact I]. exact H.
  - split; [|auto]. unfold withVideo, flagsBehind in *. simpl.
    destruct (video s) as [v|]; [|exact I]. exact H.
Qed.

Lemma forward_triggers (events : list TimestampEntry)
      (trace : list Event) :
  forall s,
    forallb forwardOnly trace = true -> flagsBehind s ->
    (forall m, In m (triggers events trace s) ->
               setHas (processedTimestamps s) (timestamp m) = false) /\
    (forall t, setHas (processedTimestamps s) t = true ->
               setHas (processedTimestamps (run events trace s)) t = true) /\
    (forall m, In m (triggers events trace s) ->
               setHas (processedTimestamps (run events trace s))
                      (timestamp m) = true) /\
    distinctTimestamps (triggers events trace s).
Proof.
  induction trace as [|e rest IH]; intros s Hfw H.
  - simpl. repeat split; try contradiction; auto. constructor.
  - cbn [forallb] in Hfw. apply andb_true_iff in Hfw.
    destruct Hfw as [He Hrest].
    destruct (flagsBehind_step events e s He H) as [H' Hmono].
    destruct (IH (step events e s) Hrest H')
      as (Hfresh & Hkeep & Hdone & Hdist).
    assert (Hlater : forall m, In m (triggers events rest (step events e s))
                -> setHas (processedTimestamps s) (timestamp m) = false).
    { intros m Hm. specialize (Hfresh m Hm).
      destruct (setHas (processedTimestamps s) (timestamp m)) eqn:E;
        [|reflexivity].
      rewrite (Hmono _ E) in Hfresh. discriminate. }
    cbn [triggers run].
    assert (Hnow : forall m,
               In m (match e with
                     | Frame => match frameMatch events s with
                                | Some m => [m]
                                | None => []
                                end
                     | _ => []
                     end) ->
               e = Frame /\ frameMatch events s = Some m).
    { intros m Hm. destruct e; try contradiction.
      destruct (frameMatch events s) as [m0|]; [|contradiction].
      destruct Hm as [<- | []]. auto. }
    split; [|split; [|split]].
    + intros m Hm. apply in_app_or in Hm. destruct Hm as [Hm | Hm].
      * destruct (Hnow m Hm) as [-> Hf].
        destruct (flagsBehind_frame events s H) as (_ & _ & Hmatch).
        apply (Hmatch m Hf).
      * apply Hlater, Hm.
    + intros t Ht. apply Hkeep, Hmono, Ht.
    + intros m Hm. apply in_app_or in Hm. destruct Hm as [Hm | Hm].
      * destruct (Hnow m Hm) as [-> Hf].
        destruct (flagsBehind_frame events s H) as (_ & _ & Hmatch).
        apply Hkeep. apply (Hmatch m Hf).
      * apply Hdone, Hm.
    + unfold distinctTimestamps in *.
      destruct e; simpl; try exact Hdist.
      destruct (frameMatch events s) as [m|] eqn:Hf; [|exact Hdist].
      simpl. constructor; [|exact Hdist].
      apply Forall_forall. intros m' Hm' Heq.
      destruct (flagsBehind_frame events s H) as (_ & _ & Hmatch).
      destruct (Hmatch m Hf) as [_ Hset].
      specialize (Hfresh m' Hm'). simpl in Hfresh.
      rewrite (setHas_comp _ _ _ Heq) in Hset. congruence.
Qed.

(** X21: in forward playback no moment is presented twice.  Along any
    trace from the loaded page without scrubbing, callout jumps or
    negative advances (ticks, dwell timers, play, pause and the smart
    coach button in any order), the events presented have pairwise
    different timestamps, each of them is flagged at the end, and the
    monitor removes no flag. *)
Theorem forward_playback_presents_once
  (events : list TimestampEntry) (trace : list Event)
  (Hforward : forallb forwardOnly trace = true) :
  distinctTimestamps (triggers events trace loaded) /\
  (forall m, In m (triggers events trace loaded) ->
     consumed (run events trace loaded) m = true) /\
  (forall k t,
     setHas (processedTimestamps (run events (firstn k trace) loaded)) t
     = true ->
     setHas (processedTimestamps (run events trace loaded)) t = true).
Proof.
  assert (H0 : flagsBehind loaded).
  { unfold flagsBehind, loaded. simpl. constructor. }
  destruct (forward_triggers events trace loaded Hforward H0)
    as (_ & _ & Hdone & Hdist).
  split; [exact Hdist|]. split; [exact Hdone|].
  intros k t Ht.
  rewrite <- (firstn_skipn k trace) at 1. rewrite run_app.
  rewrite <- (firstn_skipn k trace) in Hforward.
  rewrite forallb_app in Hforward. apply andb_true_iff in Hforward.
  destruct Hforward as [Hfirst Hlast].
  assert (Hmid : flagsBehind (run events (firstn k trace) loaded)).
  { clear - Hfirst H0. revert Hfirst. generalize (firstn k trace).
    intro l. generalize loaded H0. induction l as [|e l IH];
      intros s Hs Hl; [exact Hs|].
    cbn [forallb] in Hl. apply andb_true_iff in Hl. destruct Hl as [He Hl].
    simpl. apply IH; [|exact Hl].
    apply (flagsBehind_step events e s He Hs). }
  destruct (forward_triggers events (skipn k trace) _ Hlast Hmid)
    as (_ & Hkeep & _).
  apply Hkeep, Ht.
Qed.

Lemma forward_playback_presents_once_witness :
  distinctTimestamps
    (triggers threeEvents ([UserPlay] ++ playTrace [3; 4; 5]) loaded) /\
  map timestamp
    (triggers threeEvents ([UserPlay] ++ playTrace [3; 4; 5]) loaded)
  = [2; 5; 9].
Proof.
  split; [|vm_compute; reflexivity].
  apply (forward_playback_presents_once threeEvents
           ([UserPlay] ++ playTrace [3; 4; 5])).
  vm_compute. reflexivity.
Defined.

Lemma sorted_app_inv {A : Type} (R : A -> A -> Prop) (l1 l2 : list A) :
  StronglySorted R (l1 ++ l2) ->
  StronglySorted R l1 /\ StronglySorted R l2 /\
  forall a b, In a l1 -> In b l2 -> R a b.
Proof.
  induction l1 as [|x l1 IH]; simpl; intro H.
  - split; [constructor|]. split; [exact H|]. intros a b [].
  - inversion H as [|? ? Hs Hall]; subst.
    destruct (IH Hs) as (H1 & H2 & H3).
    rewrite Forall_app in Hall. destruct Hall as [Hall1 Hall2].
    split; [constructor; assumption|]. split; [exact H2|].
    intros a b [<- | Ha] Hb.
    + rewrite Forall_forall in Hall2. apply Hall2, Hb.
    + apply H3; assumption.
Qed.

Lemma find_app_none {A : Type} (f : A -> bool) (l1 l2 : list A) :
  Forall (fun x => f x = false) l1 -> find f (l1 ++ l2) = find f l2.
Proof.
  induction l1 as [|x l1 IH]; intro H; [reflexivity|].
  inversion H; subst. simpl. rewrite H2. apply IH. assumption.
Qed.

Lemma find_all_false {A : Type} (f : A -> bool) (l : list A) :
  Forall (fun x => f x = false) l -> find f l = None.
Proof.
  intro H. rewrite <- (app_nil_r l). rewrite find_app_none by exact H.
  reflexivity.
Qed.

Lemma setHas_map_in (l : list TimestampEntry) (e : TimestampEntry) :
  In e l -> setHas (map timestamp l) (timestamp e) = true.
Proof.
  intro H. unfold setHas. apply existsb_exists.
  exists (timestamp e). split.
  - apply in_map. exact H.
  - apply Qeq_bool_iff. reflexivity.
Qed.

Lemma setHas_map_before (l : list TimestampEntry) (t : Q) :
  Forall (fun e => timestamp e < t) l -> setHas (map timestamp l) t = false.
Proof.
  intro H. unfold setHas. apply not_true_iff_false. intro Hex.
  apply existsb_exists in Hex. destruct Hex as (x & Hx & Heq).
  apply in_map_iff in Hx. destruct Hx as (e & <- & He).
  apply Qeq_bool_iff in Heq. rewrite Forall_forall in H.
  specialize (H e He). lra.
Qed.

(** One playback cycle, to a position that stays within [g] of where it
    was: from playing, the next event is presented if the position has
    reached it, and nothing otherwise; from a dwell, playback resumes and
    nothing is presented. *)
Lemma playthrough_cycle (g : Q) (events done todo : list TimestampEntry)
      (s : Page) (dt : Q) :
  gapped g events -> events = done ++ todo ->
  0 < dt -> dt < g ->
  playingAt done todo s \/ heldAt g done s ->
  let s' := run events [TimerFired; Advance dt; Frame] s in
  (triggers events [TimerFired; Advance dt; Frame] s = [] /\
   playingAt done todo s') \/
  (exists e rest,
      todo = e :: rest /\
      triggers events [TimerFired; Advance dt; Frame] s = [e] /\
      heldAt g (done ++ [e]) s').
Proof.
  intros Hgap Hev Hdt Hg Hphase s'.
  assert (Hsplit := Hgap). unfold gapped in Hsplit. rewrite Hev in Hsplit.
  apply sorted_app_inv in Hsplit.
  destruct Hsplit as (Hdone & Htodo & Hcross).
  destruct Hphase as [(c & fb & Hs & Hbefore & Hafter)
                     | (m & init & fb & L & Hinit & Hs & HL1 & HL2)].
  - (* playing at [c] *)
    assert (Hrun : run events [TimerFired; Advance dt] s
                   = mkPage (Some (mkVideo (c + dt) false)) true fb
                            (map timestamp done) c None).
    { rewrite Hs. reflexivity. }
    assert (HP : Forall (fun t => t <= c + dt) (map timestamp done)).
    { apply Forall_map. eapply Forall_impl; [|exact Hbefore].
      simpl. intros e He. lra. }
    destruct (frame_on_playing events (map timestamp done) (c + dt) c fb
                None HP) as [Hfm Hmf].
    assert (Htr : triggers events [TimerFired; Advance dt; Frame] s
                  = match findMatch events c (c + dt) (map timestamp done)
                    with Some m => [m] | None => [] end).
    { change [TimerFired; Advance dt; Frame]
        with ([TimerFired; Advance dt] ++ [Frame]).
      rewrite triggers_app, Hrun. rewrite Hs.
      cbn [triggers step app]. rewrite Hfm.
      destruct (findMatch _ _ _ _); reflexivity. }
    assert (Hs' : s' = monitorFrames events
                         (mkPage (Some (mkVideo (c + dt) false)) true fb
                                 (map timestamp done) c None)).
    { unfold s'. change [TimerFired; Advance dt; Frame]
        with ([TimerFired; Advance dt] ++ [Frame]).
      rewrite run_app, Hrun. reflexivity. }
    rewrite Hmf in Hs'.
    assert (Hfind : findMatch events c (c + dt) (map timestamp done)
                    = find (isMatch c (c + dt) (map timestamp done)) todo).
    { unfold findMatch. rewrite Hev. apply find_app_none.
      apply Forall_forall. intros x Hx. unfold isMatch.
      rewrite (setHas_map_in done x Hx). simpl. apply andb_false_r. }
    rewrite Hfind in *.
    destruct todo as [|e rest].
    + left. simpl in *. split; [exact Htr|].
      exists (c + dt), fb. split; [exact Hs'|].
      split; [|constructor].
      eapply Forall_impl; [|exact Hbefore]. simpl. intros x Hx. lra.
    + inversion Hafter as [|? ? Hce Hrest]; subst.
      inversion Htodo as [|? ? _ Hgaps]; subst.
      destruct (Qlt_le_dec (c + dt) (timestamp e)) as [Hfar | Hnear].
      * (* not reached *)
        assert (Hnone : find (isMatch c (c + dt) (map timestamp done))
                             (e :: rest) = None).
        { apply find_all_false. apply Forall_forall. intros x Hx.
          apply not_true_iff_false. intro Hm.
          apply isMatch_spec in Hm. destruct Hm as (_ & Hle & _).
          destruct Hx as [<- | Hx]; [lra|].
          rewrite Forall_forall in Hgaps. specialize (Hgaps x Hx). lra. }
        rewrite Hnone in *. left. split; [exact Htr|].
        exists (c + dt), fb. split; [exact Hs'|]. split.
        -- eapply Forall_impl; [|exact Hbefore]. simpl. intros x Hx. lra.
        -- constructor; [lra|].
           apply Forall_forall. intros x Hx.
           rewrite Forall_forall in Hgaps. specialize (Hgaps x Hx). lra.
      * (* reached *)
        assert (Hfresh : setHas (map timestamp done) (timestamp e) = false).
        { apply setHas_map_before.
          eapply Forall_impl; [|exact Hbefore]. simpl. intros x Hx. lra. }
        assert (Hsome : find (isMatch c (c + dt) (map timestamp done))
                             (e :: rest) = Some e).
        { simpl.
          assert (Hm : isMatch c (c + dt) (map timestamp done) e = true).
          { apply isMatch_spec. auto. }
          rewrite Hm. reflexivity. }
        rewrite Hsome in *. right. exists e, rest.
        split; [reflexivity|]. split; [exact Htr|].
        exists e, done, (Some (feedbackOf e)), (c + dt).
        split; [reflexivity|]. split; [|split; lra].
        rewrite Hs'. unfold setAdd. rewrite Hfresh.
        rewrite map_app. reflexivity.
  - (* held at [m] *)
    assert (Hrun : run events [TimerFired; Advance dt] s
                   = mkPage (Some (mkVideo (timestamp m + dt) false)) true
                            None (map timestamp done) L None).
    { rewrite Hs. reflexivity. }
    assert (Hpast : Forall (fun e => timestamp e <= timestamp m) done).
    { rewrite Hinit. apply Forall_app. split.
      - apply Forall_forall. intros x Hx.
        rewrite Hinit in Hdone. apply sorted_app_inv in Hdone.
        destruct Hdone as (_ & _ & Hc).
        specialize (Hc x m Hx (or_introl eq_refl)). simpl in Hc. lra.
      - constructor; [lra | constructor]. }
    assert (HP : Forall (fun t => t <= timestamp m + dt)
                        (map timestamp done)).
    { apply Forall_map. eapply Forall_impl; [|exact Hpast].
      simpl. intros e He. lra. }
    destruct (frame_on_playing events (map timestamp done)
                (timestamp m + dt) L None None HP) as [Hfm Hmf].
    assert (Hnone : findMatch events L (timestamp m + dt)
                      (map timestamp done) = None).
    { unfold findMatch. rewrite Hev.
      rewrite find_app_none.
      - apply find_all_false. apply Forall_forall. intros x Hx.
        apply not_true_iff_false. intro Hm.
        apply isMatch_spec in Hm. destruct Hm as (_ & Hle & _).
        assert (Hin : In m done)
          by (rewrite Hinit; apply in_or_app; right; left; reflexivity).
        specialize (Hcross m x Hin Hx). simpl in Hcross. lra.
      - apply Forall_forall. intros x Hx. unfold isMatch.
        rewrite (setHas_map_in done x Hx). simpl. apply andb_false_r. }
    left. split.
    + change [TimerFired; Advance dt; Frame]
        with ([TimerFired; Advance dt] ++ [Frame]).
      rewrite triggers_app, Hrun. rewrite Hs.
      cbn [triggers step app]. rewrite Hfm, Hnone. reflexivity.
    + exists (timestamp m + dt), None. split.
      * unfold s'. change [TimerFired; Advance dt; Frame]
          with ([TimerFired; Advance dt] ++ [Frame]).
        rewrite run_app, Hrun. cbn [run step]. rewrite Hmf, Hnone.
        reflexivity.
      * split.
        -- eapply Forall_impl; [|exact Hpast]. simpl. intros x Hx. lra.
        -- apply Forall_forall. intros x Hx.
           assert (Hin : In m done)
             by (rewrite Hinit; apply in_or_app; right; left; reflexivity).
           specialize (Hcross m x Hin Hx). simpl in Hcross. lra.
Qed.

Lemma playthrough_run (g : Q) (events : list TimestampEntry)
      (dts : list Q) :
  gapped g events ->
  Forall (fun dt => 0 < dt /\ dt < g) dts ->
  forall done todo s,
    events = done ++ todo ->
    playingAt done todo s \/ heldAt g done s ->
    exists new todo',
      todo = new ++ todo' /\
      triggers events (playTrace dts) s = new /\
      (playingAt (done ++ new) todo' (run events (playTrace dts) s) \/
       heldAt g (done ++ new) (run events (playTrace dts) s)).
Proof.
  intros Hgap Hsteps.
  induction Hsteps as [|dt rest [Hdt Hg] _ IH]; intros done todo s Hev Hphase.
  - exists [], todo. simpl. rewrite app_nil_r. auto.
  - change (playTrace (dt :: rest))
      with ([TimerFired; Advance dt; Frame] ++ playTrace rest).
    rewrite triggers_app, run_app.
    destruct (playthrough_cycle g events done todo s dt Hgap Hev Hdt Hg
                Hphase)
      as [(Htr & Hnext) | (e & todo1 & Htodo & Htr & Hnext)].
    + destruct (IH done todo _ Hev (or_introl Hnext))
        as (new & todo' & H1 & H2 & H3).
      exists new, todo'. rewrite Htr, H2. auto.
    + assert (Hev' : events = (done ++ [e]) ++ todo1).
      { rewrite <- app_assoc. simpl. rewrite <- Htodo. exact Hev. }
      destruct (IH (done ++ [e]) todo1 _ Hev' (or_intror Hnext))
        as (new & todo' & H1 & H2 & H3).
      exists (e :: new), todo'. rewrite Htr, H2, Htodo, H1.
      split; [reflexivity|]. split; [reflexivity|].
      rewrite <- app_assoc in H3. exact H3.
Qed.

(** X27: in uninterrupted playback no event is skipped.  Let the events
    be listed in the order of their timestamps, none negative and at
    least [g] seconds apart, and let the video play from the start with
    the monitor on, the position observed after every advance of less
    than [g] seconds and every dwell running out before playback goes on.
    Then the events presented are an initial part of the list, in order,
    namely those at or before the position reached; every event not
    presented lies at or after it. *)
Theorem forward_playback_skips_nothing
  (g : Q) (events : list TimestampEntry) (dts : list Q)
  (Hgap : gapped g events)
  (Hpos : Forall (fun e => 0 <= timestamp e) events)
  (Hsteps : Forall (fun dt => 0 < dt /\ dt < g) dts) :
  let s' := run events (playTrace dts) playing in
  exists done todo,
    events = done ++ todo /\
    triggers events (playTrace dts) playing = done /\
    Forall (fun e => timestamp e <= position s') done /\
    Forall (fun e => position s' <= timestamp e) todo.
Proof.
  intro s'.
  assert (Hstart : playingAt [] events playing).
  { exists 0, None. split; [reflexivity|]. split; [constructor | exact Hpos]. }
  destruct (playthrough_run g events dts Hgap Hsteps [] events playing
              eq_refl (or_introl Hstart))
    as (done & todo & Hev & Htr & Hend).
  exists done, todo. split; [exact Hev|]. split; [exact Htr|].
  simpl in Hend. fold s' in Hend.
  destruct Hend as [(c & fb & Hs & Hbefore & Hafter)
                   | (m & init & fb & L & Hinit & Hs & HL1 & HL2)].
  - rewrite Hs. unfold position. simpl. split; [|exact Hafter].
    eapply Forall_impl; [|exact Hbefore]. simpl. intros x Hx. lra.
  - rewrite Hs. unfold position. simpl.
    unfold gapped in Hgap. rewrite Hev in Hgap.
    apply sorted_app_inv in Hgap. destruct Hgap as (Hdone & _ & Hcross).
    assert (Hin : In m done)
      by (rewrite Hinit; apply in_or_app; right; left; reflexivity).
    split.
    + rewrite Hinit. apply Forall_app. split.
      * apply Forall_forall. intros x Hx.
        rewrite Hinit in Hdone. apply sorted_app_inv in Hdone.
        destruct Hdone as (_ & _ & Hc).
        specialize (Hc x m Hx (or_introl eq_refl)). simpl in Hc. lra.
      * constructor; [lra | constructor].
    + apply Forall_forall. intros x Hx.
      specialize (Hcross m x Hin Hx). simpl in Hcross. lra.
Qed.

Lemma forward_playback_skips_nothing_witness :
  exists done todo,
    threeEvents = done ++ todo /\
    triggers threeEvents (playTrace [2; 2; 2; 1]) playing = done /\
    map timestamp done = [2; 5].
Proof.
  destruct (forward_playback_skips_nothing 3 threeEvents [2; 2; 2; 1])
    as (done & todo & Hev & Htr & _).
  - unfold gapped, threeEvents, plainEntry.
    repeat (constructor; simpl; try (vm_compute; discriminate)).
  - unfold threeEvents, plainEntry.
    repeat (constructor; simpl; try (vm_compute; discriminate)).
  - repeat (constructor; try (split; reflexivity)).
  - exists done, todo. split; [exact Hev|]. split; [exact Htr|].
    rewrite <- Htr. vm_compute. reflexivity.
Defined.

Lemma passed_step (events : list TimestampEntry) (t : Q) (e : Event)
      (s : Page) :
  forwardOnly e = true -> passed t s ->
  passed t (step events e s) /\
  (forall m, e = Frame -> frameMatch events s = Some m -> t < timestamp m).
Proof.
  intros He H.
  destruct e; simpl in He; try discriminate; cbn [step].
  - unfold monitorFrames, frameMatch.
    destruct (running s) as [v|] eqn:Hrun;
      [|split; [exact H | discriminate]].
    apply running_guard in Hrun. destruct Hrun as (Hv & _ & _).
    unfold passed in H. rewrite Hv in H. destruct H as [Hc Hl].
    destruct (findMatch events (lastCheckTime s) (currentTime v) _)
      as [m|] eqn:Hfind.
    + destruct (find_some _ _ Hfind) as [_ Hm].
      apply isMatch_spec in Hm. destruct Hm as (Hlo & Hhi & _).
      split.
      * unfold passed. simpl. split; lra.
      * intros m0 _ Hm0. injection Hm0 as <-. lra.
    + split; [|discriminate]. unfold passed. simpl. rewrite Hv.
      split; lra.
  - split; [|discriminate]. unfold resumeTimerFired.
    destruct (resumeTimer s) as [enabled|]; [|exact H].
    unfold passed in *. simpl.
    destruct (video s) as [v|]; [|exact I].
    destruct (enabled && paused v)%bool; exact H.
  - split; [|discriminate]. unfold toggleSmartPlay, passed in *.
    destruct (smartPlayEnabled s); simpl; exact H.
  - split; [|discriminate]. apply Qle_bool_iff in He.
    unfold withVideo, passed in *. simpl.
    destruct (video s) as [v|]; [|exact I]. simpl.
    destruct (paused v); [exact H|]. simpl. destruct H. split; lra.
  - split; [|discriminate]. unfold withVideo, passed in *. simpl.
    destruct (video s) as [v|]; [|exact I]. exact H.
  - split; [|discriminate]. unfold withVideo, passed in *. simpl.
    destruct (video s) as [v|]; [|exact I]. exact H.
Qed.

(** X29: the monitor never goes back by itself.  Once the position and
    the last observed position both lie after a time [t], no event
    stamped [t] or earlier is presented for as long as playback only moves
    forward (no scrub, no callout jump), whether or not it was presented
    before.  In particular an event lying in the same tick window as the
    one presented, and passed again by the first tick after the dwell, is
    not presented on the way forward. *)
Theorem forward_playback_never_goes_back
  (events : list TimestampEntry) (s : Page) (t : Q) (trace : list Event)
  (Hforward : forallb forwardOnly trace = true)
  (Hpassed : passed t s) :
  (forall m, In m (triggers events trace s) -> t < timestamp m) /\
  passed t (run events trace s).
Proof.
  revert s Hpassed. induction trace as [|e rest IH]; intros s Hs.
  - simpl. split; [intros m [] | exact Hs].
  - cbn [forallb] in Hforward. apply andb_true_iff in Hforward.
    destruct Hforward as [He Hrest].
    destruct (passed_step events t e s He Hs) as [Hs' Hnow].
    destruct (IH Hrest _ Hs') as [Hlater Hend].
    cbn [triggers run]. split; [|exact Hend].
    intros m Hm. apply in_app_or in Hm. destruct Hm as [Hm | Hm].
    + destruct e; try contradiction.
      destruct (frameMatch events s) as [m0|] eqn:Hf; [|contradiction].
      destruct Hm as [<- | []]. apply (Hnow m0 eq_refl eq_refl).
    + apply Hlater, Hm.
Qed.

Lemma forward_playback_never_goes_back_witness :
  let s := run closeEvents
             ([UserPlay] ++ playTrace [399 # 200; 1 # 60; 1 # 60]) loaded in
  map timestamp (triggers closeEvents
                   ([UserPlay] ++ playTrace [399 # 200; 1 # 60; 1 # 60])
                   loaded) = [2] /\
  consumed s (plainEntry (201 # 100) "second") = false /\
  forall m, In m (triggers closeEvents (playTrace [1; 1; 1]) s) ->
            201 # 100 < timestamp m.
Proof.
  intro s. split; [vm_compute; reflexivity|].
  split; [vm_compute; reflexivity|].
  assert (Hforward : forallb forwardOnly (playTrace [1; 1; 1]) = true)
    by (vm_compute; reflexivity).
  assert (Hpassed : passed (201 # 100) s)
    by (vm_compute; split; reflexivity).
  exact (proj1 (forward_playback_never_goes_back closeEvents s (201 # 100)
                  (playTrace [1; 1; 1]) Hforward Hpassed)).
Defined.

End PlaythroughFacts.

(** ** The label box inside the frame *)

Section PlacerContainment.

Import Placer.

Lemma arrowOffset_bounds (width : Z) :
  (50 <= width)%Z -> margin <= arrowOffset width.
Proof.
  intro Hw. unfold arrowOffset, margin.
  change 5 with (inject_Z 5). rewrite <- Zle_Qle.
  rewrite <- (Qfloor_Z 5). apply Qfloor_resp_le.
  assert (H : inject_Z 50 <= inject_Z width) by (rewrite <- Zle_Qle; exact Hw).
  change (inject_Z 5) with 5. change (inject_Z 50) with 50 in H. lra.
Qed.

Lemma arrowOffset_le (width : Z) :
  arrowOffset width <= inject_Z width * (1 # 10).
Proof. unfold arrowOffset. apply Qfloor_le. Qed.

(** X22: a label that fits stays inside the frame on all four sides.  On
    a frame at least 50 pixels wide, for a target given in percent of the
    frame (0 to 100 both ways) and a box no wider than the width less the
    two margins and no higher than the height less the two margins, the
    box lies between the margins horizontally and vertically, whichever
    side is preferred. *)
Theorem placer_box_inside_frame
  (width height : Z) (measureText : string -> Q) (item : Annotation)
  (Hwidth : (50 <= width)%Z)
  (Hx : 0 <= x item /\ x item <= 100)
  (Htext : 0 <= measureText (label item))
  (HfitW : boxTotalWidth width (measureText (label item))
           <= inject_Z width - margin * 2)
  (HfitH : boxTotalHeight width height <= inject_Z height - margin * 2) :
  let l := place width height measureText item in
  margin <= boxX1 l /\ boxX1 l <= boxX2 l /\
  boxX2 l <= inject_Z width - margin /\
  margin <= boxY1 l /\ boxY1 l <= boxY2 l /\
  boxY2 l <= inject_Z height - margin /\
  0 <= targetX l <= inject_Z width.
Proof.
  intro l.
  pose proof (arrowOffset_bounds width Hwidth) as Hoff.
  pose proof (arrowOffset_le width) as Hoff'.
  assert (Hw : 50 <= inject_Z width).
  { change 50 with (inject_Z 50). rewrite <- Zle_Qle. exact Hwidth. }
  assert (HtX : 0 <= x item / 100 * inject_Z width <= inject_Z width).
  { destruct Hx as [Hx0 Hx1]. unfold Qdiv.
    change (/ 100) with (1 # 100). split; nra. }
  assert (Hpad : 0 <= padding width).
  { unfold padding. change 0 with (inject_Z 0). rewrite <- Zle_Qle.
    rewrite <- (Qfloor_Z 0). apply Qfloor_resp_le.
    change (inject_Z 0) with 0. lra. }
  assert (Hfont : 10 <= fontSize height)
    by (unfold fontSize; apply Q.le_max_l).
  assert (HboxH : 0 <= boxTotalHeight width height)
    by (unfold boxTotalHeight; lra).
  unfold margin in *.
  (* vertical *)
  destruct (placeY_spec height (y item / 100 * inject_Z height)
              (fontSize height) (padding width)
              (boxTotalHeight width height))
    as (Hbot & Htop & _); [reflexivity|].
  unfold margin in *. specialize (Htop HfitH).
  (* horizontal *)
  assert (HboxW : 0 <= boxTotalWidth width (measureText (label item)))
    by (unfold boxTotalWidth; lra).
  unfold l, place.
  fold (boxTotalWidth width (measureText (label item))).
  fold (boxTotalHeight width height).
  set (boxW := boxTotalWidth width (measureText (label item))) in *.
  set (boxH := boxTotalHeight width height) in *.
  set (tX := x item / 100 * inject_Z width) in *.
  set (bY := placeY height (y item / 100 * inject_Z height)
               (fontSize height) (padding width) boxH) in *.
  destruct HtX as [HtX0 HtX1].
  unfold placeX.
  destruct (String.eqb (label_side item) "left") eqn:Hside.
  - destruct (JS.ltb (tX - arrowOffset width - boxW) 5) eqn:E; simpl.
    + repeat split; lra.
    + apply ltb_ge in E. repeat split; lra.
  - destruct (JS.gtb (tX + arrowOffset width + boxW) (inject_Z width - 5))
      eqn:E; simpl.
    + repeat split; lra.
    + apply gtb_le in E. repeat split; lra.
Qed.

Lemma placer_box_inside_frame_witness :
  let l := place 1280 720 (fun _ => 90) rightLabel in
  margin <= boxX1 l /\ boxX2 l <= inject_Z 1280 - margin /\
  margin <= boxY1 l /\ boxY2 l <= inject_Z 720 - margin.
Proof.
  destruct (placer_box_inside_frame 1280 720 (fun _ => 90) rightLabel)
    as (H1 & _ & H2 & H3 & _ & H4 & _);
    try (vm_compute; try split; discriminate).
  intro l. repeat split; assumption.
Defined.

End PlacerContainment.

(** ** The rectangle the video is displayed in *)

Section GeometryFacts.

Import Geometry.

(** X23: the content rectangle is the video fitted into its element.
    Without an element, or with a video of width or height 0, no
    rectangle is returned.  For a video of positive size in an element of
    non-negative size the rectangle lies inside the element
    and is centred in it, has the aspect ratio of the video, and spans the
    element in width or in height. *)
Theorem content_rect_fits_container
  (v : HTMLVideoElement)
  (Hvw : (0 < videoWidth v)%Z) (Hvh : (0 < videoHeight v)%Z)
  (Hcw : (0 <= clientWidth v)%Z) (Hch : (0 <= clientHeight v)%Z) :
  calculateVideoContentRect None = None /\
  (forall cw ch vh,
     calculateVideoContentRect (Some (mkVideoElement 0 vh cw ch)) = None) /\
  (forall cw ch vw,
     calculateVideoContentRect (Some (mkVideoElement vw 0 cw ch)) = None) /\
  exists r,
    calculateVideoContentRect (Some v) = Some r /\
    0 <= left r /\ 0 <= top r /\ 0 <= width r /\ 0 <= height r /\
    left r + width r <= inject_Z (clientWidth v) /\
    top r + height r <= inject_Z (clientHeight v) /\
    left r * 2 + width r == inject_Z (clientWidth v) /\
    top r * 2 + height r == inject_Z (clientHeight v) /\
    width r * inject_Z (videoHeight v)
    == height r * inject_Z (videoWidth v) /\
    (width r == inject_Z (clientWidth v) \/
     height r == inject_Z (clientHeight v)).
Proof.
  split; [reflexivity|].
  split; [intros; reflexivity|].
  split.
  { intros cw ch vw. unfold calculateVideoContentRect. simpl.
    rewrite orb_true_r. reflexivity. }
  destruct v as [vw vh cw ch]. simpl in *.
  assert (Hvw' : 0 < inject_Z vw)
    by (change 0 with (inject_Z 0); rewrite <- Zlt_Qlt; exact Hvw).
  assert (Hvh' : 0 < inject_Z vh)
    by (change 0 with (inject_Z 0); rewrite <- Zlt_Qlt; exact Hvh).
  assert (Hcw' : 0 <= inject_Z cw)
    by (change 0 with (inject_Z 0); rewrite <- Zle_Qle; exact Hcw).
  assert (Hch' : 0 <= inject_Z ch)
    by (change 0 with (inject_Z 0); rewrite <- Zle_Qle; exact Hch).
  unfold calculateVideoContentRect. simpl.
  destruct (Z.eqb_spec vw 0) as [|_]; [lia|].
  destruct (Z.eqb_spec vh 0) as [|_]; [lia|].
  simpl orb. cbv iota.
  set (a := inject_Z vw) in *. set (b := inject_Z vh) in *.
  set (w := inject_Z cw) in *. set (h := inject_Z ch) in *.
  assert (Hab : 0 < a / b) by (apply Qlt_shift_div_l; lra).
  assert (Hinv : a / b * b == a) by (field; lra).
  unfold widerThanContainer.
  change (inject_Z cw / inject_Z ch) with (w / h).
  destruct (Z.eqb_spec ch 0) as [Hz | Hnz].
  - assert (Hw0 : (cw <? 0)%Z = false) by (apply Z.ltb_ge; exact Hcw).
    rewrite Hw0.
    assert (Hh0 : h == 0) by (unfold h; rewrite Hz; reflexivity).
    eexists. split; [reflexivity|]. simpl.
    assert (Hprod : h * (a / b) == 0) by (rewrite Hh0; ring).
    assert (Hleft : (w - h * (a / b)) / 2 == w / 2)
      by (rewrite Hprod; field).
    rewrite Hleft, Hprod. unfold Qdiv. change (/ 2) with (1 # 2).
    repeat split; try lra; try (rewrite Hh0; ring).
  - assert (Hh : 0 < h).
    { unfold h. change 0 with (inject_Z 0). rewrite <- Zlt_Qlt. lia. }
    destruct (JS.gtb (a / b) (w / h)) eqn:E.
    + apply gtb_gt in E.
      eexists. split; [reflexivity|]. simpl.
      set (ch' := w / (a / b)).
      assert (Hch1 : ch' * a == w * b).
      { unfold ch'. field. split; lra. }
      assert (Hch0 : 0 <= ch').
      { unfold ch'. apply Qle_shift_div_l; [exact Hab | lra]. }
      assert (Hlt : w * b < h * a).
      { assert (H1 : w < a / b * h).
        { assert (H0 : w / h * h == w) by (field; lra).
          assert (w / h * h < a / b * h)
            by (apply Qmult_lt_compat_r; assumption).
          lra. }
        assert (H2 : w * b < a / b * h * b)
          by (apply Qmult_lt_compat_r; lra).
        assert (H3 : a / b * h * b == h * a) by (field; lra).
        lra. }
      assert (Hle : ch' <= h).
      { destruct (Qlt_le_dec h ch') as [Hgt | Hok]; [|exact Hok].
        exfalso.
        assert (h * a < ch' * a) by (apply Qmult_lt_compat_r; lra).
        lra. }
      unfold Qdiv. change (/ 2) with (1 # 2).
      repeat split; lra.
    + apply gtb_le in E.
      eexists. split; [reflexivity|]. simpl.
      set (cw' := h * (a / b)).
      assert (Hcw1 : cw' * b == h * a).
      { unfold cw'. field. lra. }
      assert (Hcw0 : 0 <= cw').
      { unfold cw'. apply Qmult_le_0_compat; lra. }
      assert (Hle : h * a <= w * b).
      { assert (H1 : a / b * h <= w).
        { assert (H0 : w / h * h == w) by (field; lra).
          assert (a / b * h <= w / h * h)
            by (apply Qmult_le_compat_r; lra).
          lra. }
        assert (H2 : a / b * h * b <= w * b)
          by (apply Qmult_le_compat_r; lra).
        assert (H3 : a / b * h * b == h * a) by (field; lra).
        lra. }
      assert (Hle' : cw' <= w).
      { destruct (Qlt_le_dec w cw') as [Hgt | Hok]; [|exact Hok].
        exfalso.
        assert (w * b < cw' * b) by (apply Qmult_lt_compat_r; lra).
        lra. }
      unfold Qdiv. change (/ 2) with (1 # 2).
      repeat split; lra.
Qed.

Lemma content_rect_fits_container_witness :
  exists r,
    calculateVideoContentRect (Some (mkVideoElement 1920 1080 400 600))
    = Some r /\
    width r == 400 /\ height r == 225 /\ left r == 0 /\
    top r == 375 # 2.
Proof.
  destruct (content_rect_fits_container (mkVideoElement 1920 1080 400 600))
    as (_ & _ & _ & r & Hr & _); try (simpl; lia).
  exists r. split; [exact Hr|].
  vm_compute in Hr. injection Hr as <-.
  repeat split; reflexivity.
Defined.

End GeometryFacts.

(** ** Recording a clip *)

Section RecorderFacts.

Import Recorder.

Lemma step_time_bound (env : Env) (e : Event) (s : State) :
  (0 <= recordingTime s <= 20)%Z ->
  (0 <= recordingTime (step env e s) <= 20)%Z.
Proof.
  intro H. destruct e; simpl.
  - unfold startRecording. destruct (negb (stream s)); [exact H|].
    destruct (construct env _); simpl; [lia | exact H].
  - unfold stopRecording. destruct (mediaRecorderRef s) as [r|]; [|exact H].
    destruct (inactive r); [exact H|]. simpl. exact H.
  - unfold tick. destruct (timerRef s); [|exact H].
    destruct (Z.leb_spec 20 (recordingTime s)); simpl; lia.
  - unfold ondataavailable. destruct data; [exact H|]. simpl. exact H.
  - unfold onstop. destruct (mediaRecorderRef s); [|exact H]. simpl. exact H.
Qed.

Lemma ticks_while_recording (mime : string) (chunks : list Blob)
      (err : option string) (files : list File) (n : nat) :
  (n <= 20)%nat ->
  Nat.iter n tick
    (mkState true (Some (mkRecorder mime false)) chunks true 0 true err files)
  = mkState true (Some (mkRecorder mime false)) chunks true (Z.of_nat n)
            true err files.
Proof.
  induction n as [|n IH]; intro Hn; [reflexivity|].
  rewrite Nat.iter_succ, IH by lia. unfold tick. cbn [timerRef recordingTime].
  destruct (Z.leb_spec 20 (Z.of_nat n)); [lia|].
  unfold setRecordingTime. simpl. f_equal. lia.
Qed.

Lemma ticks_after_stop (mime : string) (chunks : list Blob)
      (err : option string) (files : list File) (n : nat) :
  Nat.iter n tick
    (mkState true (Some (mkRecorder mime true)) chunks false 20 false err
             files)
  = mkState true (Some (mkRecorder mime true)) chunks false 20 false err
            files.
Proof.
  induction n as [|n IH]; [reflexivity|].
  rewrite Nat.iter_succ, IH. reflexivity.
Qed.

(** X24: the recording timer.  The time shown never leaves 0..20,
    whatever happens.  After a recording has started, the first twenty
    firings of the interval count from 1 to 20 while the recording goes
    on; it is the twenty-first firing that stops the recorder, clears the
    interval and switches the recording state off, and the time shown
    stays at 20 from then on. *)
Theorem recording_stops_on_tick_21
  (env : Env) (s : State)
  (Hstream : stream s = true)
  (Hsupported : construct env (selectMimeType env) = true) :
  (forall trace, (0 <= recordingTime (run env trace ready) <= 20)%Z) /\
  forall n,
    let sn := Nat.iter n tick (startRecording env s) in
    ((n <= 20)%nat ->
     recordingTime sn = Z.of_nat n /\ isRecording sn = true /\
     timerRef sn = true /\
     mediaRecorderRef sn = Some (mkRecorder (selectMimeType env) false)) /\
    ((21 <= n)%nat ->
     recordingTime sn = 20%Z /\ isRecording sn = false /\
     timerRef sn = false /\
     mediaRecorderRef sn = Some (mkRecorder (selectMimeType env) true)).
Proof.
  split.
  - intro trace.
    assert (H : forall s0, (0 <= recordingTime s0 <= 20)%Z ->
                           (0 <= recordingTime (run env trace s0) <= 20)%Z).
    { induction trace as [|e rest IH]; intros s0 H0; [exact H0|].
      simpl. apply IH, step_time_bound, H0. }
    apply H. simpl. lia.
  - intros n sn.
    assert (Hstart : startRecording env s
                     = mkState true
                         (Some (mkRecorder (selectMimeType env) false))
                         [] true 0 true (cameraError s) (captured s)).
    { unfold startRecording. rewrite Hstream, Hsupported. reflexivity. }
    unfold sn. rewrite Hstart. split; intro Hn.
    + rewrite ticks_while_recording by exact Hn. simpl. auto.
    + replace n with ((n - 21) + 1 + 20)%nat by lia.
      rewrite !Nat.iter_add.
      rewrite (ticks_while_recording _ _ _ _ 20) by lia.
      change (Nat.iter 1 tick) with tick.
      assert (Hlast : tick (mkState true
                        (Some (mkRecorder (selectMimeType env) false))
                        [] true (Z.of_nat 20) true (cameraError s)
                        (captured s))
                      = mkState true
                          (Some (mkRecorder (selectMimeType env) true))
                          [] false 20 false (cameraError s) (captured s))
        by reflexivity.
      rewrite Hlast, ticks_after_stop. simpl. auto.
Qed.

Lemma recording_stops_on_tick_21_witness :
  isRecording (Nat.iter 20 tick (startRecording chromium ready)) = true /\
  isRecording (Nat.iter 21 tick (startRecording chromium ready)) = false /\
  recordingTime (Nat.iter 21 tick (startRecording chromium ready)) = 20%Z.
Proof.
  destruct (recording_stops_on_tick_21 chromium ready eq_refl eq_refl)
    as [_ H].
  destruct (H 20%nat) as [H20 _]. destruct (H 21%nat) as [_ H21].
  destruct (H20 ltac:(lia)) as (_ & Hrec & _).
  destruct (H21 ltac:(lia)) as (Htime & Hoff & _).
  split; [exact Hrec|]. split; [exact Hoff | exact Htime].
Defined.

Lemma recording_collects (env : Env) (mime : string) (mid : list Event) :
  forallb whileRecording mid = true ->
  forall s,
    (exists r, mediaRecorderRef s = Some r /\ mimeType r = mime) ->
    (exists r, mediaRecorderRef (run env mid s) = Some r /\
               mimeType r = mime) /\
    List.concat (chunksRef (run env mid s))
    = (List.concat (chunksRef s) ++ delivered mid)%list /\
    captured (run env mid s) = captured s.
Proof.
  induction mid as [|e rest IH]; intros Hmid s Hrec.
  - simpl. rewrite app_nil_r. auto.
  - cbn [forallb] in Hmid. apply andb_true_iff in Hmid.
    destruct Hmid as [He Hrest]. cbn [run].
    destruct Hrec as (r & Hr & Hm).
    assert (Hstep : (exists r', mediaRecorderRef (step env e s) = Some r' /\
                                mimeType r' = mime) /\
                    List.concat (chunksRef (step env e s))
                    = (List.concat (chunksRef s)
                       ++ delivered [e])%list /\
                    captured (step env e s) = captured s).
    { destruct e as [| | |data|now]; try discriminate; simpl.
      - unfold stopRecording. rewrite Hr.
        destruct (inactive r); simpl; rewrite ?app_nil_r; eauto.
      - unfold tick. destruct (timerRef s);
          [|simpl; rewrite ?app_nil_r; eauto].
        destruct (20 <=? recordingTime s)%Z; simpl;
          [|rewrite ?app_nil_r; eauto].
        unfold stopRecording. rewrite Hr.
        destruct (inactive r); simpl; rewrite ?app_nil_r; eauto.
      - unfold ondataavailable. destruct data as [|b data'].
        + simpl. rewrite app_nil_r. eauto.
        + simpl. rewrite concat_app. simpl.
          rewrite !app_nil_r. eauto. }
    destruct Hstep as (Hrec' & Hchunks & Hcap).
    destruct (IH Hrest (step env e s) Hrec') as (Hrec'' & Hchunks' & Hcap').
    split; [exact Hrec''|]. split.
    + rewrite Hchunks', Hchunks, <- app_assoc. f_equal.
      destruct e; simpl; try reflexivity.
      rewrite app_nil_r. reflexivity.
    + rewrite Hcap', Hcap. reflexivity.
Qed.

(** X25: the clip handed to the application.  When a recording is
    started on a stream, and then data arrives, the interval fires and
    the recording is stopped by the button or by the timer, in any order,
    the file built at the recorder's stop event holds all the data
    delivered since the start, in order, under the selected type; it is
    named [.mp4] exactly when VP9 in WebM is not supported and MP4 is, and
    [.webm] otherwise. *)
Theorem recording_file_contents
  (env : Env) (s : State) (mid : list Event) (now : string)
  (Hstream : stream s = true)
  (Hsupported : construct env (selectMimeType env) = true)
  (Hmid : forallb whileRecording mid = true) :
  let out := run env ([Start] ++ mid ++ [Stopped now]) s in
  let ext :=
    if (negb (isTypeSupported env "video/webm;codecs=vp9")
        && isTypeSupported env "video/mp4")%bool
    then "mp4"%string else "webm"%string in
  captured out
  = captured s
    ++ [mkFile ("recording_" ++ now ++ "." ++ ext)%string
               (selectMimeType env) (delivered mid)].
Proof.
  intros out ext. unfold out.
  cbn [app run step].
  assert (Hstart : startRecording env s
                   = mkState true
                       (Some (mkRecorder (selectMimeType env) false))
                       [] true 0 true (cameraError s) (captured s)).
  { unfold startRecording. rewrite Hstream, Hsupported. reflexivity. }
  rewrite Hstart.
  set (s1 := mkState true (Some (mkRecorder (selectMimeType env) false))
                     [] true 0 true (cameraError s) (captured s)).
  assert (Hrec : exists r, mediaRecorderRef s1 = Some r /\
                           mimeType r = selectMimeType env).
  { eexists. split; reflexivity. }
  destruct (recording_collects env (selectMimeType env) mid Hmid s1 Hrec)
    as ((r & Hr & Hm) & Hchunks & Hcap).
  assert (Hrun : forall t s0, run env (t ++ [Stopped now]) s0
                              = onstop now (run env t s0)).
  { induction t as [|e t IH]; intro s0; [reflexivity|].
    simpl. apply IH. }
  rewrite Hrun. unfold onstop. rewrite Hr, Hm. simpl.
  rewrite Hcap, Hchunks. simpl. f_equal. f_equal.
  unfold ext, selectMimeType.
  destruct (isTypeSupported env "video/webm;codecs=vp9");
    [reflexivity|].
  destruct (isTypeSupported env "video/mp4"); reflexivity.
Qed.

Lemma recording_file_contents_witness :
  captured
    (run safari
       [Start; Tick; DataAvailable [Byte.x01; Byte.x02]; DataAvailable [];
        StopClick; DataAvailable [Byte.x03]; Stopped "1700000000000"]
       ready)
  = [mkFile "recording_1700000000000.mp4" "video/mp4"
            [Byte.x01; Byte.x02; Byte.x03]].
Proof.
  apply (recording_file_contents safari ready
           [Tick; DataAvailable [Byte.x01; Byte.x02]; DataAvailable [];
            StopClick; DataAvailable [Byte.x03]]
           "1700000000000" eq_refl eq_refl eq_refl).
Defined.

End RecorderFacts.

(** ** From the visualization batch to the result page *)

Section BatchTimeline.

Import Types Timeline Playthrough Pipeline.

Variable f : TimestampEntry -> TimestampEntry.
Hypothesis f_sameAnalysis : forall t, sameAnalysis (f t) t.

Lemma f_timestamp (t : TimestampEntry) : timestamp (f t) = timestamp t.
Proof. destruct (f_sameAnalysis t) as (_ & H & _). exact H. Qed.

Lemma clearAfter_map (events : list TimestampEntry) (curr : Q) :
  forall P, clearAfter (map f events) curr P = clearAfter events curr P.
Proof.
  unfold clearAfter.
  induction events as [|e rest IH]; intro P; [reflexivity|].
  simpl. rewrite f_timestamp. apply IH.
Qed.

Lemma afterSeekCheck_map (events : list TimestampEntry) (prev curr : Q)
      (P : list Q) :
  afterSeekCheck (map f events) prev curr P
  = afterSeekCheck events prev curr P.
Proof. unfold afterSeekCheck. rewrite clearAfter_map. reflexivity. Qed.

Lemma findMatch_map (events : list TimestampEntry) (prev curr : Q)
      (P : list Q) :
  findMatch (map f events) prev curr P
  = option_map f (findMatch events prev curr P).
Proof.
  unfold findMatch.
  induction events as [|e rest IH]; [reflexivity|].
  simpl. unfold isMatch at 1 3. rewrite f_timestamp.
  destruct (JS.leb prev (timestamp e) && JS.geb curr (timestamp e)
            && negb (setHas P (timestamp e)))%bool; [reflexivity|].
  exact IH.
Qed.

(** Two pages with the same playback state, the feedback they display
    differing at most by the image. *)
Lemma step_map (events : list TimestampEntry) (e : Event) (a b : Page) :
  samePlayback a b ->
  sameFeedback f events a b ->
  samePlayback (step (map f events) e a) (step events e b) /\
  sameFeedback f events (step (map f events) e a) (step events e b) /\
  match e with
  | Frame => frameMatch (map f events) a
             = option_map f (frameMatch events b)
  | _ => True
  end.
Proof.
  intros Hab Hfb. pose proof Hab as (Hv & Hon & Hp & Hl & Ht).
  assert (Hsame : forall a' b',
             currentDisplayFeedback a' = currentDisplayFeedback a ->
             currentDisplayFeedback b' = currentDisplayFeedback b ->
             sameFeedback f events a' b').
  { intros a' b' Ha Hb. unfold sameFeedback. rewrite Ha, Hb. exact Hfb. }
  assert (Hnone : forall a' b',
             currentDisplayFeedback a' = None ->
             currentDisplayFeedback b' = None ->
             sameFeedback f events a' b').
  { intros a' b' Ha Hb. left. rewrite Ha, Hb. reflexivity. }
  destruct e; cbn [step].
  - unfold monitorFrames, frameMatch, running.
    rewrite Hv, Hon, Hp, Hl.
    destruct (video b) as [v|]; [|auto].
    destruct (negb (smartPlayEnabled b) || paused v)%bool; [auto|].
    rewrite afterSeekCheck_map, findMatch_map. cbv zeta.
    destruct (findMatch events _ _ _) as [m|] eqn:Hfind; simpl.
    + rewrite f_timestamp. unfold samePlayback. simpl.
      split; [auto 10|]. split; [|reflexivity].
      right. exists m. simpl.
      destruct (f_sameAnalysis m) as (_ & _ & _ & Hi & Hf & _ & _ & _ & Hs).
      split; [unfold findMatch in Hfind; apply find_some in Hfind; tauto|].
      unfold feedbackOf. rewrite Hi, Hf, Hs. auto.
    + unfold samePlayback. simpl. rewrite Ht.
      split; [auto 10|]. split; [|reflexivity].
      apply Hsame; reflexivity.
  - unfold resumeTimerFired. rewrite Ht, Hv.
    destruct (resumeTimer b); [|unfold samePlayback; auto 10].
    unfold samePlayback. simpl. rewrite Hon, Hp, Hl.
    split; [auto 10|]. split; [|exact I]. apply Hnone; reflexivity.
  - unfold toggleSmartPlay. rewrite Hon.
    destruct (smartPlayEnabled b); unfold samePlayback; simpl;
      rewrite ?Hv, ?Hp, ?Hl.
    + split; [auto 10|]. split; [|exact I]. apply Hnone; reflexivity.
    + split; [auto 10|]. split; [|exact I]. apply Hsame; reflexivity.
  - unfold samePlayback, withVideo. simpl.
    rewrite Hv, Hon, Hp, Hl, Ht.
    split; [auto 10|]. split; [|exact I]. apply Hsame; reflexivity.
  - unfold samePlayback, withVideo. simpl.
    rewrite Hv, Hon, Hp, Hl, Ht.
    split; [auto 10|]. split; [|exact I]. apply Hsame; reflexivity.
  - unfold samePlayback, withVideo. simpl.
    rewrite Hv, Hon, Hp, Hl, Ht.
    split; [auto 10|]. split; [|exact I]. apply Hsame; reflexivity.
  - unfold samePlayback, withVideo. simpl.
    rewrite Hv, Hon, Hp, Hl, Ht.
    split; [auto 10|]. split; [|exact I]. apply Hsame; reflexivity.
  - unfold jumpToTime. rewrite Hv.
    destruct (video b); [|auto].
    unfold samePlayback; cbn -[Double.sub]. rewrite ?Hon, ?Hp, ?Hl, ?Ht.
    split; [auto 10|]. split; [|exact I]. apply Hsame; reflexivity.
Qed.

Lemma run_map (events : list TimestampEntry) (trace : list Event) :
  forall a b,
    samePlayback a b ->
    sameFeedback f events a b ->
    samePlayback (run (map f events) trace a) (run events trace b) /\
    sameFeedback f events (run (map f events) trace a)
                          (run events trace b) /\
    triggers (map f events) trace a = map f (triggers events trace b).
Proof.
  induction trace as [|e rest IH]; intros a b Hab Hfb.
  - simpl. auto.
  - destruct (step_map events e a b Hab Hfb) as (Hab' & Hfb' & Hm).
    destruct (IH _ _ Hab' Hfb') as (H1 & H2 & H3).
    cbn [run triggers]. split; [exact H1|]. split; [exact H2|].
    rewrite map_app, H3. f_equal.
    destruct e; try reflexivity.
    rewrite Hm. destruct (frameMatch events b); reflexivity.
Qed.

End BatchTimeline.

Section BatchTimelineResult.

Import Types Timeline Playthrough Placer Pipeline.

(** X26: a visualization batch that ends does not change when the result
    page pauses.  Played over the entries the batch returns, any trace
    from any page pauses at the same moments as over the entries of the
    analysis: the events presented are the entries pushed for the same
    events, with the same timestamps in the same order, and the video,
    the flags, the last observed position and the timer are the same
    throughout.  The feedback displayed is the same, or is that of the
    same event with the same title, texts and sign and with the image the
    batch gave it: the rendered frame when its visualization was
    fulfilled, the image it came with otherwise. *)
Theorem batch_keeps_the_timeline
  (sv : Services) (sport : string) (events shown : list TimestampEntry)
  (trace : list Event) (s : Page)
  (Hbatch : scanTimestamps sv sport events = Fulfilled shown) :
  triggers shown trace s
  = map (pushed sv sport) (triggers events trace s) /\
  map timestamp (triggers shown trace s)
  = map timestamp (triggers events trace s) /\
  samePlayback (run shown trace s) (run events trace s) /\
  (currentDisplayFeedback (run shown trace s)
   = currentDisplayFeedback (run events trace s) \/
   exists m, In m events /\
     currentDisplayFeedback (run shown trace s)
       = Some (mkFeedback (issue m) (bodyPartFeedback m) (isPositive m)
                 (match generateVisualCorrection sv
                          (captureFrame sv (timestamp m)) (issue m) sport
                          (bodyPartTags m) (bodyPartStatuses m) with
                  | Fulfilled img => Some img
                  | _ => visualImage m
                  end)) /\
     currentDisplayFeedback (run events trace s)
       = Some (mkFeedback (issue m) (bodyPartFeedback m) (isPositive m)
                          (visualImage m))).
Proof.
  unfold scanTimestamps in Hbatch.
  destruct (scanFrom_settled sv sport _ _ _ Hbatch) as [-> _]. simpl.
  assert (Hsame : samePlayback s s) by (unfold samePlayback; auto 10).
  destruct (run_map (pushed sv sport) (pushed_sameAnalysis sv sport)
              events trace s s Hsame (or_introl eq_refl))
    as (H1 & H2 & H3).
  split; [exact H3|]. split; [|split; [exact H1|]].
  - rewrite H3, map_map. apply map_ext.
    intro t. destruct (pushed_sameAnalysis sv sport t) as (_ & H & _).
    exact H.
  - destruct H2 as [H2 | (m & Hin & Ha & Hb)]; [left; exact H2|].
    right. exists m. split; [exact Hin|].
    rewrite <- (pushed_image sv sport m). auto.
Qed.

Lemma batch_keeps_the_timeline_witness :
  exists shown,
    scanTimestamps flakyServices "Tennis" threeEvents = Fulfilled shown /\
    triggers shown (playTrace [1; 1]) playing
    = map (pushed flakyServices "Tennis")
          (triggers threeEvents (playTrace [1; 1]) playing) /\
    overlay (run shown (playTrace [1; 1]) playing)
    = Some "frame2+labels"%string /\
    overlay (run threeEvents (playTrace [1; 1]) playing) = None.
Proof.
  assert (Hbatch : scanTimestamps flakyServices "Tennis" threeEvents
                   = Fulfilled
                       [withVisualImage (plainEntry 2 "first")
                          "frame2+labels";
                        plainEntry 5 "second";
                        withVisualImage (plainEntry 9 "third") "frame9"])
    by (vm_compute; reflexivity).
  eexists. split; [exact Hbatch|].
  split; [|split; vm_compute; reflexivity].
  exact (proj1 (batch_keeps_the_timeline flakyServices "Tennis"
                  threeEvents _ (playTrace [1; 1]) playing Hbatch)).
Defined.

End BatchTimelineResult.

(** ** The duration of a resampled block *)

Section ResamplerDuration.

Import Resampler.

(** X28: resampling keeps the duration of a block up to one output
    sample.  For a positive source rate the output, played at 16000 Hz,
    lasts at least as long as the input at its own rate and less than one
    sample period (1/16000 s) longer; at 16000 Hz it has the length of the
    input. *)
Theorem resample_preserves_duration
  (buffer : list Q) (sampleRate : Q) (Hpos : 0 < sampleRate) :
  exists res,
    audioResample buffer sampleRate = Some res /\
    let inputSeconds := inject_Z (Z.of_nat (List.length buffer)) / sampleRate in
    let outputSeconds := inject_Z (Z.of_nat (List.length res)) / targetRate in
    inputSeconds <= outputSeconds /\
    outputSeconds < inputSeconds + 1 / targetRate /\
    (sampleRate == targetRate -> List.length res = List.length buffer).
Proof.
  set (len := inject_Z (Z.of_nat (List.length buffer))).
  assert (Hlen : 0 <= len).
  { unfold len. change 0 with (inject_Z 0). rewrite <- Zle_Qle. lia. }
  unfold targetRate.
  destruct (Qeq_bool sampleRate 16000) eqn:E.
  - apply Qeq_bool_eq in E.
    exists (map quantize buffer). split.
    + unfold audioResample, targetRate.
      assert (Hb : Qeq_bool sampleRate 16000 = true)
        by (apply Qeq_bool_iff; exact E).
      rewrite Hb. reflexivity.
    + cbv zeta. rewrite length_map. fold len.
      assert (Heq : len / sampleRate == len / 16000)
        by (rewrite E; reflexivity).
      rewrite Heq. unfold Qdiv. change (/ 16000) with (1 # 16000).
      split; [lra|]. split; [lra | reflexivity].
  - apply Qeq_bool_neq in E.
    destruct (audioResample_decimates buffer sampleRate Hpos E)
      as (n & Hres & Hn).
    eexists. split; [exact Hres|].
    cbv zeta. rewrite length_map, length_seq. fold len in Hn |- *.
    unfold targetRate in Hn.
    set (q := len / (sampleRate / 16000)) in *.
    assert (Hq : q == len / sampleRate * 16000).
    { unfold q. field. lra. }
    pose proof (Qle_ceiling q) as H1.
    pose proof (Qceiling_lt q) as H2.
    rewrite <- Hn in H1, H2.
    unfold Z.sub in H2. rewrite inject_Z_plus, inject_Z_opp in H2.
    change (inject_Z 1) with 1 in H2.
    set (m := inject_Z (Z.of_nat n)) in *.
    set (d := len / sampleRate) in *.
    unfold Qdiv. change (/ 16000) with (1 # 16000).
    split; [lra|]. split; [lra|].
    intro Hcontra. contradiction.
Qed.

Lemma resample_preserves_duration_witness :
  exists res,
    audioResample [0; 1 # 2; 1 # 4; 0; 0; 0; 0] 48000 = Some res /\
    List.length res = 3%nat.
Proof.
  destruct (resample_preserves_duration [0; 1 # 2; 1 # 4; 0; 0; 0; 0] 48000
              ltac:(reflexivity))
    as (res & Hres & _).
  exists res. split; [exact Hres|].
  vm_compute in Hres. injection Hres as <-. reflexivity.
Defined.

End ResamplerDuration.
